(** * The view-tree engine of GitLens: reconciling container and bounded search

    A shallow embedding of
    - [RepositoriesNode] (views/nodes/repositoriesNode.ts): the container whose
      children mirror the live repository collection, with [getChildren],
      [refresh], [dispose] and [onActiveEditorChanged], and
    - [ViewBase] (views/viewBase.ts): the tree orchestrator with [getChildren],
      [refresh], [refreshNode], [findNode] (sentinel-marker breadth-first
      search with paging), [showMoreNodeChildren] and the last known limits.

    JavaScript objects are modelled by explicit object identities, the
    effects of the code (calls on child nodes, change notifications, error
    logging) by logs carried in the state, exceptions by [Completion]. *)

From Stdlib Require Import ZArith Lia List Sorted Permutation.
From stdpp Require Import base option list gmap strings pretty.
Import ListNotations.

Local Open Scope Z_scope.
Local Open Scope nat_scope.

(** ** Suspended computations *)

(** What an awaited call yields: its value, or the exception it raised (a
    rejected promise).  *)
Inductive Completion (A : Type) : Type :=
  | Normal (value : A)
  | Throw (error : string).
Arguments Normal {A} value.
Arguments Throw {A} error.

(** What a loop run with a bounded number of iterations yields. [OutOfFuel] is
    the model's own: the bound was reached before the loop left. *)
Inductive Run (A : Type) : Type :=
  | Done (value : A)
  | Thrown (error : string)
  | OutOfFuel.
Arguments Done {A} value.
Arguments Thrown {A} error.
Arguments OutOfFuel {A}.

(** ** The repositories container (repositoriesNode.ts) *)

Module Repositories.

(** The part of a [Repository] the container reads. *)
Record Repository : Type := {
  path : string;
  normalizedPath : string;
  index : Z;
  closed : bool
}.

(** [RepositoryNode | MessageNode]; [obj] is the identity of the JavaScript
    object, given out by [new]. *)
Inductive ChildNode : Type :=
  | RepositoryNode (obj : nat) (uri : string) (repo : Repository)
  | MessageNode (obj : nat) (message : string).

Definition objOf (c : ChildNode) : nat :=
  match c with
  | RepositoryNode o _ _ => o
  | MessageNode o _ => o
  end.

(** [child instanceof RepositoryNode] *)
Definition isRepositoryNode (c : ChildNode) : bool :=
  match c with
  | RepositoryNode _ _ _ => true
  | MessageNode _ _ => false
  end.

(** The stable key of a repository child. *)
Definition keyOf (c : ChildNode) : option string :=
  match c with
  | RepositoryNode _ _ r => Some (normalizedPath r)
  | MessageNode _ _ => None
  end.

Inductive RefreshReason : Type :=
  | ConfigurationChanged
  | OtherReason (name : string).

(** What the container does to its collaborators, in program order. *)
Inductive Effect : Type :=
  | FetchRepositories                 (* Container.git.getRepositories() *)
  | Construct (c : ChildNode)         (* new RepositoryNode / new MessageNode *)
  | ChildRefresh (obj : nat)          (* child.refresh() *)
  | ChildDispose (obj : nat)          (* child.dispose() *)
  | Unsubscribe                       (* this.unsubscribe() *)
  | EnsureSubscription.               (* this.ensureSubscription() *)

Record State : Type := {
  _children : option (list ChildNode);
  nextObj : nat;
  effects : list Effect
}.

Definition emit (e : Effect) (st : State) : State :=
  {| _children := _children st; nextObj := nextObj st;
     effects := effects st ++ [e] |}.

Definition setChildren (cs : option (list ChildNode)) (st : State) : State :=
  {| _children := cs; nextObj := nextObj st; effects := effects st |}.

(** [new RepositoryNode(GitUri.fromRepoPath(repo.path), repo, this, this.view)] *)
Definition newRepositoryNode (repo : Repository) (st : State) : ChildNode * State :=
  let c := RepositoryNode (nextObj st) (path repo) repo in
  (c, emit (Construct c)
        {| _children := _children st; nextObj := S (nextObj st);
           effects := effects st |}).

(** [new MessageNode(this, message)] *)
Definition newMessageNode (message : string) (st : State) : ChildNode * State :=
  let c := MessageNode (nextObj st) message in
  (c, emit (Construct c)
        {| _children := _children st; nextObj := S (nextObj st);
           effects := effects st |}).

(** [repositories.sort((a, b) => a.index - b.index)]: a stable sort on the
    index. *)
Fixpoint insertByIndex (r : Repository) (l : list Repository) : list Repository :=
  match l with
  | [] => [r]
  | r' :: l' =>
      if (index r <=? index r')%Z then r :: r' :: l'
      else r' :: insertByIndex r l'
  end.

Definition sortByIndex (l : list Repository) : list Repository :=
  foldr insertByIndex [] l.

(** The loop of [getChildren] (lines 39-43): closed repositories are skipped. *)
Fixpoint buildChildren (repos : list Repository) (children : list ChildNode)
    (st : State) : list ChildNode * State :=
  match repos with
  | [] => (children, st)
  | repo :: rest =>
      if closed repo then buildChildren rest children st
      else
        let '(c, st1) := newRepositoryNode repo st in
        buildChildren rest (children ++ [c]) st1
  end.

(** [getChildren] (lines 33-49). [git] is what the data source answers to
    [Container.git.getRepositories()] at this call. *)
Definition getChildren (git : Completion (list Repository)) (st : State)
    : Completion (list ChildNode) * State :=
  match _children st with
  | Some cs => (Normal cs, st)
  | None =>
      let st1 := emit FetchRepositories st in
      match git with
      | Throw e => (Throw e, st1)
      | Normal repositories =>
          if (length repositories =? 0)%nat then
            let '(m, st2) := newMessageNode "No repositories found" st1 in
            (Normal [m], st2)
          else
            let '(children, st2) :=
              buildChildren (sortByIndex repositories) [] st1 in
            (Normal children, setChildren (Some children) st2)
      end
  end.

(** [(this._children as RepositoryNode[]).find(c => c.repo.normalizedPath
    === normalizedPath)] (line 76). The cast is unchecked: on a [MessageNode],
    which has no [repo], the callback reads a property of [undefined]. *)
Fixpoint findByPath (cached : list ChildNode) (p : string)
    : Completion (option ChildNode) :=
  match cached with
  | [] => Normal None
  | RepositoryNode o u r :: cs =>
      if String.eqb (normalizedPath r) p
      then Normal (Some (RepositoryNode o u r))
      else findByPath cs p
  | MessageNode _ _ :: _ => Throw "TypeError"
  end.

(** [children.includes(child)]: identity of objects. *)
Definition includes (children : list ChildNode) (child : ChildNode) : bool :=
  existsb (fun c => objOf c =? objOf child) children.

(** The first loop of [refresh] (lines 74-84). *)
Fixpoint reconcile (cached : list ChildNode) (repos : list Repository)
    (children : list ChildNode) (st : State)
    : Completion (list ChildNode) * State :=
  match repos with
  | [] => (Normal children, st)
  | repo :: rest =>
      match findByPath cached (normalizedPath repo) with
      | Throw e => (Throw e, st)
      | Normal (Some child) =>
          reconcile cached rest (children ++ [child])
            (emit (ChildRefresh (objOf child)) st)
      | Normal None =>
          let '(c, st1) := newRepositoryNode repo st in
          reconcile cached rest (children ++ [c]) st1
      end
  end.

(** The second loop of [refresh] (lines 86-90); [ChildDispose] records the
    call [child.dispose()]. *)
Fixpoint disposeDropped (cached children : list ChildNode) (st : State) : State :=
  match cached with
  | [] => st
  | child :: rest =>
      if includes children child then disposeDropped rest children st
      else disposeDropped rest children (emit (ChildDispose (objOf child)) st)
  end.

Definition isConfigurationChanged (reason : option RefreshReason) : bool :=
  match reason with
  | Some ConfigurationChanged => true
  | _ => false
  end.

(** [refresh] (lines 62-100). Every [return] of the source is a bare one: the
    promise resolves to [undefined]. *)
Definition refresh (reason : option RefreshReason)
    (git : Completion (list Repository)) (st : State)
    : Completion unit * State :=
  match _children st with
  | None => (Normal tt, st)
  | Some cached =>
      let st1 := emit FetchRepositories st in
      match git with
      | Throw e => (Throw e, st1)
      | Normal repositories =>
          if (length repositories =? 0)%nat && (length cached =? 0)%nat then
            (Normal tt, st1)
          else if (length repositories =? 0)%nat then
            let '(m, st2) := newMessageNode "No repositories found" st1 in
            (Normal tt, setChildren (Some [m]) st2)
          else
            match reconcile cached (sortByIndex repositories) [] st1 with
            | (Throw e, st2) => (Throw e, st2)
            | (Normal children, st2) =>
                let st3 := disposeDropped cached children st2 in
                let st4 := setChildren (Some children) st3 in
                let st5 := if isConfigurationChanged reason
                           then emit Unsubscribe st4 else st4 in
                (Normal tt, emit EnsureSubscription st5)
            end
      end
  end.

#[global] Instance Repository_eq_dec : EqDecision Repository.
Proof. solve_decision. Defined.

#[global] Instance ChildNode_eq_dec : EqDecision ChildNode.
Proof. solve_decision. Defined.

#[global] Instance Effect_eq_dec : EqDecision Effect.
Proof. solve_decision. Defined.

(** The child carries the stable key of the item. *)
Definition keyed (r : Repository) (c : ChildNode) : Prop :=
  keyOf c = Some (normalizedPath r).

(** A cached list made of repository nodes only (no placeholder). *)
Definition allRepositoryNodes (cs : list ChildNode) : Prop :=
  Forall (fun c => isRepositoryNode c = true) cs.

(** How the refresh places the child [c] for the item [r]: [c] is the cached
    child of that key, kept and refreshed, or no cached child has the key and
    [c] is a node constructed during the refresh. [evs] are the effects of
    the refresh, [fresh] the first object identity it may give out. *)
Definition placed (cached : list ChildNode) (fresh : nat) (evs : list Effect)
    (r : Repository) (c : ChildNode) : Prop :=
  keyed r c /\
  ((In c cached /\ In (ChildRefresh (objOf c)) evs) \/
   (fresh <= objOf c /\ c = RepositoryNode (objOf c) (path r) r /\
    In (Construct c) evs /\ forall c', In c' cached -> ~ keyed r c')).

(** The order the children are listed in. *)
Definition indexLe (a b : Repository) : Prop := (index a <= index b)%Z.

(** A repository whose normalized path is its path. *)
Definition repoAt (p : string) (i : Z) (c : bool) : Repository :=
  {| path := p; normalizedPath := p; index := i; closed := c |}.

Definition unloaded : State :=
  {| _children := None; nextObj := 0; effects := [] |}.

(** The container of the scenario: loaded from [/r1] (index 0) and [/r2]
    (index 1). *)
Definition loaded12 : State :=
  snd (getChildren (Normal [repoAt "/r2" 1 false; repoAt "/r1" 0 false]) unloaded).

End Repositories.

(** ** The tree orchestrator (viewBase.ts) *)

Module View.

(** The contract a node offers to the view: [id], [getChildren()] and the
    optional [refresh?(reset)] of [ViewNode], and [hasMore], [limit] and
    [showMore(count)] of [PageableViewNode], with [isPageable] for
    [PageableViewNode.is(node)]. [St] is the store of all node objects; a
    method reads and writes it. [node_getChildren] may throw;
    [node_refresh] answers whether the caller is to skip the notification
    (its result [=== true]). *)
Class ViewNodeOps (N St : Type) : Type := {
  node_eq_dec :: EqDecision N;
  id : N -> string;
  node_getChildren : N -> St -> Completion (list N) * St;
  node_refresh : N -> option (bool -> St -> Completion bool * St);
  isPageable : N -> bool;
  hasMore : N -> St -> bool;
  limit : N -> St -> option nat;
  showMore : N -> nat -> St -> St
}.

(** What the view does with nodes, in program order: a node taken from the
    search queue for its turn, and the calls [node.getChildren()],
    [node.showMore(count)] and [node.refresh(reset)]. *)
Inductive Step (N : Type) : Type :=
  | Visit (n : N)
  | GetChildrenOf (n : N)
  | ShowMoreOf (n : N) (count : nat)
  | RefreshOf (n : N) (reset : bool).
Arguments Visit {N} n.
Arguments GetChildrenOf {N} n.
Arguments ShowMoreOf {N} n count.
Arguments RefreshOf {N} n reset.

(** A cancellation token as the search sees it: the token is looked at
    a number of times, and from the look numbered [cancelledAt] on it reports
    cancellation ([None]: it never does). A token cancelled before the call
    has [cancelledAt] at or below the looks already counted. *)
Record CancellationToken : Type := { cancelledAt : option nat }.

Definition isCancellationRequested (token : option CancellationToken)
    (look : nat) : bool :=
  match token with
  | Some {| cancelledAt := Some k |} => k <=? look
  | _ => false
  end.

(** The fields of [ViewBase] the embedded methods use, the node store, and
    the logs of what left the view. *)
Record ViewBase (N St : Type) : Type := {
  _root : option N;
  _lastKnownLimits : gmap string (option nat);
  nodes : St;
  fired : list (option N);        (* this._onDidChangeTreeData.fire(...) *)
  logged : list string;           (* Logger.error(...) *)
  steps : list (Step N);
  looks : nat
}.
Arguments _root {N St} v.
Arguments _lastKnownLimits {N St} v.
Arguments nodes {N St} v.
Arguments fired {N St} v.
Arguments logged {N St} v.
Arguments steps {N St} v.
Arguments looks {N St} v.

(** How a loop body leaves: [return r] of the enclosing function, or
    [break]. *)
Inductive LoopExit (N : Type) : Type :=
  | Return (r : option N)
  | Break.
Arguments Return {N} r.
Arguments Break {N}.

(** The options object of [findNode]; an absent field takes its default.
    [maxDepth] counts levels below the root. *)
Record FindOptions (N : Type) : Type := {
  allowPaging : option bool;
  canTraverse : option (N -> bool);
  maxDepth : option nat;
  token : option CancellationToken
}.
Arguments allowPaging {N} f.
Arguments canTraverse {N} f.
Arguments maxDepth {N} f.
Arguments token {N} f.

Definition noOptions {N : Type} : FindOptions N :=
  {| allowPaging := None; canTraverse := None; maxDepth := None; token := None |}.

(** The options object with [maxDepth] given. *)
Definition withMaxDepth {N : Type} (m : nat) (o : FindOptions N) : FindOptions N :=
  {| allowPaging := allowPaging o; canTraverse := canTraverse o;
     maxDepth := Some m; token := token o |}.

Section Engine.
Context {N St : Type} {ops : ViewNodeOps N St}.
(** [getRoot()], the abstract factory of the root node. *)
Variable getRoot : N.
(** [Container.config.advanced.maxListItems] *)
Variable defaultPageSize : nat.

Definition setNodes (s : St) (v : ViewBase N St) : ViewBase N St :=
  {| _root := _root v; _lastKnownLimits := _lastKnownLimits v; nodes := s;
     fired := fired v; logged := logged v; steps := steps v;
     looks := looks v |}.

Definition record (c : Step N) (v : ViewBase N St) : ViewBase N St :=
  {| _root := _root v; _lastKnownLimits := _lastKnownLimits v;
     nodes := nodes v; fired := fired v; logged := logged v;
     steps := steps v ++ [c]; looks := looks v |}.

Definition setLastKnownLimits (m : gmap string (option nat))
    (v : ViewBase N St) : ViewBase N St :=
  {| _root := _root v; _lastKnownLimits := m; nodes := nodes v;
     fired := fired v; logged := logged v; steps := steps v;
     looks := looks v |}.

Definition fire (payload : option N) (v : ViewBase N St) : ViewBase N St :=
  {| _root := _root v; _lastKnownLimits := _lastKnownLimits v;
     nodes := nodes v; fired := fired v ++ [payload]; logged := logged v;
     steps := steps v; looks := looks v |}.

Definition logError (e : string) (v : ViewBase N St) : ViewBase N St :=
  {| _root := _root v; _lastKnownLimits := _lastKnownLimits v;
     nodes := nodes v; fired := fired v; logged := logged v ++ [e];
     steps := steps v; looks := looks v |}.

(** [token?.isCancellationRequested], one look at the token. *)
Definition look (tok : option CancellationToken) (v : ViewBase N St)
    : bool * ViewBase N St :=
  (isCancellationRequested tok (looks v),
   {| _root := _root v; _lastKnownLimits := _lastKnownLimits v;
      nodes := nodes v; fired := fired v; logged := logged v;
      steps := steps v; looks := S (looks v) |}).

(** [node.getChildren()] *)
Definition callGetChildren (node : N) (v : ViewBase N St)
    : Completion (list N) * ViewBase N St :=
  let '(r, s) := node_getChildren node (nodes v) in
  (r, setNodes s (record (GetChildrenOf node) v)).

(** [ensureRoot] (lines 164-170) *)
Definition ensureRoot (force : bool) (v : ViewBase N St) : N * ViewBase N St :=
  match _root v with
  | Some r =>
      if force then
        (getRoot,
         {| _root := Some getRoot; _lastKnownLimits := _lastKnownLimits v;
            nodes := nodes v; fired := fired v; logged := logged v;
            steps := steps v; looks := looks v |})
      else (r, v)
  | None =>
      (getRoot,
       {| _root := Some getRoot; _lastKnownLimits := _lastKnownLimits v;
          nodes := nodes v; fired := fired v; logged := logged v;
          steps := steps v; looks := looks v |})
  end.

(** [getChildren(node?)] (lines 172-177) *)
Definition getChildren (node : option N) (v : ViewBase N St)
    : Completion (list N) * ViewBase N St :=
  match node with
  | Some n => callGetChildren n v
  | None =>
      let '(root, v1) := ensureRoot false v in
      callGetChildren root v1
  end.

(** [triggerNodeChange(node?)] (lines 453-456) *)
Definition triggerNodeChange (node : option N) (v : ViewBase N St)
    : ViewBase N St :=
  match node with
  | Some n => if decide (Some n = _root v) then fire None v else fire (Some n) v
  | None => fire None v
  end.

(** [refreshNode(node, reset)] (lines 364-371) *)
Definition refreshNode (node : N) (reset : bool) (v : ViewBase N St)
    : Completion unit * ViewBase N St :=
  match node_refresh node with
  | Some f =>
      let '(r, s) := f reset (nodes v) in
      let v1 := setNodes s (record (RefreshOf node reset) v) in
      match r with
      | Throw e => (Throw e, v1)
      | Normal cancel =>
          if cancel then (Normal tt, v1)
          else (Normal tt, triggerNodeChange (Some node) v1)
      end
  | None => (Normal tt, triggerNodeChange (Some node) v)
  end.

(** [refresh(reset)] (lines 355-359) *)
Definition refresh (reset : bool) (v : ViewBase N St)
    : Completion unit * ViewBase N St :=
  match _root v with
  | Some root =>
      match node_refresh root with
      | Some f =>
          let '(r, s) := f reset (nodes v) in
          let v1 := setNodes s (record (RefreshOf root reset) v) in
          match r with
          | Throw e => (Throw e, v1)
          | Normal _ => (Normal tt, triggerNodeChange None v1)
          end
      | None => (Normal tt, triggerNodeChange None v)
      end
  | None => (Normal tt, triggerNodeChange None v)
  end.

(** [showMoreNodeChildren(node, limit)] (lines 437-448), called without a
    [previousNode]: [node.showMore(limit)], then the new limit of the node
    is remembered under its id. *)
Definition showMoreNodeChildren (node : N) (count : nat) (v : ViewBase N St)
    : ViewBase N St :=
  let s := showMore node count (nodes v) in
  setLastKnownLimits (<[id node := limit node s]> (_lastKnownLimits v))
    (setNodes s (record (ShowMoreOf node count) v)).

(** [getNodeLastKnownLimit(node)] (lines 422-424) *)
Definition getNodeLastKnownLimit (node : N) (v : ViewBase N St)
    : option (option nat) :=
  _lastKnownLimits v !! id node.

(** [resetNodeLastKnownLimit(node)] (lines 427-429) *)
Definition resetNodeLastKnownLimit (node : N) (v : ViewBase N St)
    : ViewBase N St :=
  setLastKnownLimits (delete (id node) (_lastKnownLimits v)) v.

Section Search.
Variable predicate : N -> bool.
Variable allowPaging_ : bool.
Variable canTraverse_ : option (N -> bool).
Variable maxDepth_ : nat.
Variable token_ : option CancellationToken.

(** The paging loop, [while (true)] of lines 324-341. The wait of
    [Promises.cancellable] on the children is one more look at the
    token: when the token fires first the wait yields [[]] (and a later
    failure of [getChildren] is dropped). The 60 second bound used when
    no token is given is not modelled. *)
Fixpoint pagingLoop (fuel : nat) (node : N) (v : ViewBase N St)
    : Run (LoopExit N) * ViewBase N St :=
  match fuel with
  | 0 => (OutOfFuel, v)
  | S fuel' =>
      let '(cancelled, v1) := look token_ v in
      if cancelled then (Done (Return None), v1)
      else
        let v2 := showMoreNodeChildren node defaultPageSize v1 in
        let '(r, v3) := callGetChildren node v2 in
        let '(fired_, v4) := look token_ v3 in
        match (if fired_ then Normal [] else r) with
        | Throw e => (Thrown e, v4)
        | Normal pagedChildren =>
            match List.find predicate pagedChildren with
            | Some child => (Done (Return (Some child)), v4)
            | None =>
                if negb (hasMore node (nodes v4)) then (Done Break, v4)
                else pagingLoop fuel' node v4
            end
        end
  end.

(** What [canTraverse] answers, awaited when it is a promise. *)
Definition traversable (node : N) : bool :=
  match canTraverse_ with
  | Some f => f node
  | None => true
  end.

(** The queue loop, [while (queue.length > 1)] of lines 293-349; the
    level marker [undefined] is [None]. *)
Fixpoint bfsLoop (fuel : nat) (queue : list (option N)) (depth : nat)
    (v : ViewBase N St) : Run (option N) * ViewBase N St :=
  match fuel with
  | 0 => (OutOfFuel, v)
  | S fuel' =>
      if length queue <=? 1 then (Done None, v)
      else
        let '(cancelled, v1) := look token_ v in
        if cancelled then (Done None, v1)
        else
          match queue with
          | [] => (Done None, v1)
          | None :: rest =>
              if maxDepth_ <? S depth then (Done None, v1)
              else bfsLoop fuel' (rest ++ [None]) (S depth) v1
          | Some node :: rest =>
              let v1 := record (Visit node) v1 in
              if predicate node then (Done (Some node), v1)
              else if negb (traversable node) then bfsLoop fuel' rest depth v1
              else
                let '(r, v2) := callGetChildren node v1 in
                match r with
                | Throw e => (Thrown e, v2)
                | Normal children =>
                    if length children =? 0 then bfsLoop fuel' rest depth v2
                    else if isPageable node then
                      match List.find predicate children with
                      | Some child => (Done (Some child), v2)
                      | None =>
                          if allowPaging_ && hasMore node (nodes v2) then
                            match pagingLoop fuel' node v2 with
                            | (Done (Return r'), v3) => (Done r', v3)
                            | (Done Break, v3) => bfsLoop fuel' rest depth v3
                            | (Thrown e, v3) => (Thrown e, v3)
                            | (OutOfFuel, v3) => (OutOfFuel, v3)
                            end
                          else bfsLoop fuel' rest depth v2
                      end
                    else bfsLoop fuel' (rest ++ map Some children) depth v2
                end
          end
  end.

(** [findNodeCoreBFS] (lines 277-352) *)
Definition findNodeCoreBFS (fuel : nat) (root : N) (v : ViewBase N St)
    : Run (option N) * ViewBase N St :=
  bfsLoop fuel [Some root; None] 0 v.
End Search.

(** [typeof predicate === 'string' ? n => n.id === predicate : predicate] *)
Definition asPredicate (predicate : string + (N -> bool)) : N -> bool :=
  match predicate with
  | inl s => fun n => bool_decide (id n = s)
  | inr f => f
  end.

(** [findNode] (lines 239-275): the defaults of the options, the root
    ensured, and the [catch] that logs and answers [undefined]. The
    request to the host to show the view when there is no root yet
    ([this.show()]) is outside the model. *)
Definition findNode (fuel : nat) (predicate : string + (N -> bool))
    (options : option (FindOptions N)) (v : ViewBase N St)
    : Run (option N) * ViewBase N St :=
  let o := default noOptions options in
  let '(root, v1) := ensureRoot false v in
  match
    findNodeCoreBFS (asPredicate predicate)
      (default false (allowPaging o)) (canTraverse o)
      (default 2 (maxDepth o)) (token o) fuel root v1
  with
  | (Thrown e, v2) => (Done None, logError e v2)
  | r => r
  end.
End Engine.

(** The node a step is about. *)
Definition stepNode {N : Type} (e : Step N) : N :=
  match e with
  | Visit n | GetChildrenOf n | ShowMoreOf n _ | RefreshOf n _ => n
  end.

(** The steps of [rounds] paging rounds on a node: each round asks for more
    and reads the children again. *)
Definition roundSteps {N : Type} (n : N) (count rounds : nat) : list (Step N) :=
  concat (replicate rounds [ShowMoreOf n count; GetChildrenOf n]).

(** The steps taken between two states of the view. *)
Definition newSteps {N St : Type} (v v' : ViewBase N St) : list (Step N) :=
  drop (length (steps v)) (steps v').

Section Depth.
Context {N : Type}.
(** [child_of p c]: [c] is one of the items behind the children of [p]. *)
Variable child_of : N -> N -> Prop.
Variable pageable_ : N -> bool.

(** [atDepth root d n]: [n] lies [d] levels below [root]. *)
Inductive atDepth (root : N) : nat -> N -> Prop :=
  | atDepth_root : atDepth root 0 root
  | atDepth_child d p c :
      atDepth root d p -> child_of p c -> atDepth root (S d) c.

(** [descends root d n]: [n] lies [d] levels below [root] and no node on the
    way down to it, [root] included and [n] excluded, is Pageable. *)
Inductive descends (root : N) : nat -> N -> Prop :=
  | descends_root : descends root 0 root
  | descends_child d p c :
      descends root d p -> pageable_ p = false -> child_of p c ->
      descends root (S d) c.

(** A step on a node that the search reaches at most [m] levels down. *)
Definition reachedWithin (root : N) (m : nat) (e : Step N) : Prop :=
  exists d, d <= m /\ descends root d (stepNode e).
End Depth.

End View.

(** ** The repositories view: the container as a node of the view *)

Module RepositoriesView.
Import Repositories.

(** The nodes of the repositories view: its root, the container, and the
    children the container hands out. *)
Inductive Node : Type :=
  | RepositoriesNode
  | Child (c : ChildNode).

(** The node store: the container, and what the data source currently
    answers to [Container.git.getRepositories()]. *)
Record Store : Type := {
  container : State;
  git : Completion (list Repository)
}.

#[global] Instance Node_eq_dec : EqDecision Node.
Proof. solve_decision. Defined.

Definition liftChildren (r : Completion (list ChildNode)) : Completion (list Node) :=
  match r with
  | Normal cs => Normal (map Child cs)
  | Throw e => Throw e
  end.

(** [refreshNode] hands its [reset] flag to [refresh(reason?)]; a boolean is
    never [RefreshReason.ConfigurationChanged]. The promise of [refresh]
    resolves to [undefined], which is not [=== true]. *)
Definition containerRefresh (reset : bool) (s : Store)
    : Completion bool * Store :=
  let '(r, st) := refresh None (git s) (container s) in
  (match r with Normal _ => Normal false | Throw e => Throw e end,
   {| container := st; git := git s |}).

(** The children of a [RepositoryNode] (branches, remotes, ...) and the ids
    of the nodes are defined in sources outside this development; the
    children are left empty and the ids are taken from the uri and the
    message. No statement below depends on either. *)
#[global] Instance repositories_ops : View.ViewNodeOps Node Store := {|
  View.id n :=
    match n with
    | RepositoriesNode => "gitlens:repositories"
    | Child (RepositoryNode _ uri _) => uri
    | Child (MessageNode _ message) => message
    end;
  View.node_getChildren n s :=
    match n with
    | RepositoriesNode =>
        let '(r, st) := getChildren (git s) (container s) in
        (liftChildren r, {| container := st; git := git s |})
    | Child _ => (Normal [], s)
    end;
  View.node_refresh n :=
    match n with
    | RepositoriesNode => Some containerRefresh
    | Child _ => None
    end;
  View.isPageable _ := false;
  View.hasMore _ _ := false;
  View.limit _ _ := None;
  View.showMore _ _ s := s
|}.

Definition initialView (s : Store) : View.ViewBase Node Store :=
  {| View._root := Some RepositoriesNode; View._lastKnownLimits := ∅;
     View.nodes := s; View.fired := []; View.logged := [];
     View.steps := []; View.looks := 0 |}.

(** The container shows the placeholder: its cache is a single
    [MessageNode]. *)
Definition showsPlaceholder (s : Store) : Prop :=
  exists o m, _children (container s) = Some [MessageNode o m].

(** Effects that touch no repository node. *)
Definition touchesNoRepository (e : Effect) : Prop :=
  e = FetchRepositories \/ exists o m, e = Construct (MessageNode o m).

(** The view after the collection of the loaded container became empty and
    the container was refreshed: it shows the placeholder. *)
Definition placeholderView : View.ViewBase Node Store :=
  initialView {| container := snd (refresh None (Normal []) loaded12);
                 git := Normal [] |}.

(** The view on an unloaded container whose data source fails. *)
Definition failingView : View.ViewBase Node Store :=
  initialView {| container := unloaded; git := Throw "git failed" |}.

End RepositoriesView.

(** ** A tree of paged nodes *)

Module Paged.

(** Modelled from the spec: [ViewNode] and [PageableViewNode]
    (views/nodes/viewNode.ts and the node classes that page are not among the
    sources). A node is an object identity; [items] is the logically larger
    ordered set behind its children, of which a Pageable node shows a prefix
    window bounded by its limit, with [hasMore] telling whether the window is
    a proper prefix; [showMore(count)] grows the window by [count]. A node
    that does not page shows all its items. *)
Record Tree : Type := {
  nodeId : nat -> string;
  items : nat -> list nat;
  pageable : nat -> bool;
  defaultItemLimit : nat
}.

Section Ops.
Variable T : Tree.

(** The size of the window of a node: its limit, or the configured default
    while the limit is [undefined]. *)
Definition windowOf (n : nat) (s : gmap nat nat) : nat :=
  default (defaultItemLimit T) (s !! n).

Definition childrenOf (n : nat) (s : gmap nat nat) : list nat :=
  if pageable T n then take (windowOf n s) (items T n) else items T n.

(** Modelled from the spec: the methods of a node over its prefix window;
    none of them fails, and reading the children changes nothing. *)
Definition paged_ops : View.ViewNodeOps nat (gmap nat nat) := {|
  View.id := nodeId T;
  View.node_getChildren n s := (Normal (childrenOf n s), s);
  View.node_refresh _ := None;
  View.isPageable := pageable T;
  View.hasMore n s := pageable T n && (windowOf n s <? length (items T n));
  View.limit n s := s !! n;
  View.showMore n count s := <[n := windowOf n s + count]> s
|}.

Definition initialView (root : nat) (s : gmap nat nat)
    : View.ViewBase nat (gmap nat nat) :=
  {| View._root := Some root; View._lastKnownLimits := ∅;
     View.nodes := s; View.fired := []; View.logged := [];
     View.steps := []; View.looks := 0 |}.
End Ops.

(** An endless chain without paging: the only item of node [n] is node
    [n + 1]. *)
Definition chain : Tree :=
  {| nodeId := fun n => pretty n; items := fun n => [S n];
     pageable := fun _ => false; defaultItemLimit := 0 |}.

(** [c] is one of the items of [p]. *)
Definition itemOf (T : Tree) (p c : nat) : Prop := In c (items T p).

(** The view on the chain, rooted at node 0, nothing loaded. *)
Definition chainView : View.ViewBase nat (gmap nat nat) := initialView 0 ∅.

(** A predicate no node satisfies. *)
Definition noMatch : string + (nat -> bool) := inr (fun _ => false).

(** A Pageable root, node 0, over the items 1 to 5, two of them shown by
    default; the items have no children. *)
Definition shelf : Tree :=
  {| nodeId := fun n => pretty n;
     items := fun n => match n with 0 => [1; 2; 3; 4; 5] | _ => [] end;
     pageable := fun n => match n with 0 => true | _ => false end;
     defaultItemLimit := 2 |}.

Definition shelfView : View.ViewBase nat (gmap nat nat) := initialView 0 ∅.

(** The predicate of a search for node [n]. *)
Definition isNode (n : nat) : string + (nat -> bool) := inr (Nat.eqb n).

(** Paging allowed, and a token that reports cancellation from the look
    numbered [c] on. *)
Definition pagingUntil (c : nat) : View.FindOptions nat :=
  {| View.allowPaging := Some true; View.canTraverse := None;
     View.maxDepth := None;
     View.token := Some {| View.cancelledAt := Some c |} |}.

(** Paging allowed, no token. *)
Definition pagingOptions : View.FindOptions nat :=
  {| View.allowPaging := Some true; View.canTraverse := None;
     View.maxDepth := None; View.token := None |}.

(** A token cancelled before the call. *)
Definition cancelledToken : View.CancellationToken :=
  {| View.cancelledAt := Some 0 |}.

End Paged.

(** ** More of the repositories container *)

Module RepositoriesMore.
Import Repositories.

(** The nodes the loop of [getChildren] constructs for [repos], the first of
    them with the object identity [o]. *)
Fixpoint freshNodes (o : nat) (repos : list Repository) : list ChildNode :=
  match repos with
  | [] => []
  | r :: rest => RepositoryNode o (path r) r :: freshNodes (S o) rest
  end.

(** [!repo.closed] *)
Definition isOpen (r : Repository) : bool := negb (closed r).

(** The shapes the cache takes: repository nodes only, or the placeholder
    alone; every cached object was given out by this container, and no
    object is listed twice. *)
Definition wellFormed (st : State) : Prop :=
  match _children st with
  | None => True
  | Some cs =>
      (allRepositoryNodes cs \/ exists o m, cs = [MessageNode o m]) /\
      Forall (fun c => objOf c < nextObj st) cs /\
      NoDup (map objOf cs)
  end.

(** The container after the collection of the loaded container became empty
    and the container was refreshed: the placeholder is cached. *)
Definition placeholder12 : State := snd (refresh None (Normal []) loaded12).

(** An effect that leaves the subscription of the container alone. *)
Definition notSubscription (e : Effect) : Prop :=
  e <> Unsubscribe /\ e <> EnsureSubscription.

(** The refresh runs the reconciliation to its end: the cache is loaded, the
    collection is not empty, and nothing throws. *)
Definition reconciles (reason : option RefreshReason)
    (git : Completion (list Repository)) (st : State) : Prop :=
  exists cached repos,
    _children st = Some cached /\ git = Normal repos /\ repos <> [] /\
    fst (refresh reason git st) = Normal tt.

(** The loop of [dispose] (lines 24-28): only repository nodes are
    disposed. *)
Fixpoint disposeChildren (children : list ChildNode) (st : State) : State :=
  match children with
  | [] => st
  | child :: rest =>
      if isRepositoryNode child
      then disposeChildren rest (emit (ChildDispose (objOf child)) st)
      else disposeChildren rest st
  end.

Section Dispose.
(** [super.dispose()] of [SubscribeableViewNode], whose source is not part
    of this development. *)
Variable superDispose : State -> State.

(** [dispose] (lines 20-31) *)
Definition dispose (st : State) : State :=
  let st1 := superDispose st in
  match _children st1 with
  | None => st1
  | Some children => setChildren None (disposeChildren children st1)
  end.
End Dispose.

(** A node as the selection of the view holds it: its object, and the parent
    its [getParent()] answers, fixed when the node was constructed. *)
Inductive Selected : Type :=
  | TopNode (obj : nat)                       (* getParent() is undefined *)
  | NodeUnder (obj : nat) (parent : Selected).

Definition selectedObj (n : Selected) : nat :=
  match n with
  | TopNode o => o
  | NodeUnder o _ => o
  end.

(** The loop of lines 130-134: the node or one of its ancestors is the
    object [target]. *)
Fixpoint selectionInside (target : nat) (n : Selected) : bool :=
  match n with
  | TopNode o => o =? target
  | NodeUnder o parent =>
      if o =? target then true else selectionInside target parent
  end.

(** [n] is the object [target] or lies below it. *)
Inductive below (target : nat) : Selected -> Prop :=
  | below_self n : selectedObj n = target -> below target n
  | below_parent o parent :
      below target parent -> below target (NodeUnder o parent).

(** What [onActiveEditorChanged] asked for: the node handed to
    [view.reveal], the repository node whose [getChildren()] was called, and
    what went to [Logger.error]. *)
Record AutoReveal : Type := {
  revealed : option nat;
  expanded : option nat;
  logged : list string
}.

Definition nothingDone : AutoReveal :=
  {| revealed := None; expanded := None; logged := [] |}.

Section ActiveEditor.
(** [repo.containsUri(uri)] *)
Variable containsUri : Repository -> string -> bool.
(** [node.getChildren()] of a repository node: the objects of its
    children. *)
Variable repositoryChildren : ChildNode -> Completion (list nat).

(** [n instanceof RepositoryNode && n.repo.containsUri(uri)] *)
Definition holdsUri (uri : string) (n : ChildNode) : bool :=
  match n with
  | RepositoryNode _ _ repo => containsUri repo uri
  | MessageNode _ _ => false
  end.

(** [onActiveEditorChanged] (lines 116-144). [editor] is the uri of the
    document of the active editor, [selection] is [this.view.selection]. *)
Definition onActiveEditorChanged (editor : option string)
    (selection : list Selected) (st : State) : AutoReveal :=
  match editor, _children st with
  | Some uri, Some children =>
      if length children =? 1 then nothingDone
      else
        match List.find (holdsUri uri) children with
        | None => nothingDone
        | Some node =>
            if match selection with
               | [] => false
               | first :: _ => selectionInside (objOf node) first
               end
            then nothingDone
            else
              match repositoryChildren node with
              | Throw ex =>
                  {| revealed := None; expanded := Some (objOf node);
                     logged := [ex] |}
              | Normal nodes =>
                  {| revealed := Some (match nodes with
                                       | first :: _ => first
                                       | [] => objOf node
                                       end);
                     expanded := Some (objOf node); logged := [] |}
              end
        end
  | _, _ => nothingDone
  end.
End ActiveEditor.

End RepositoriesMore.

(** ** More on the search *)

Module SearchMore.
Import View.

Section Discipline.
Context {N St : Type} {ops : ViewNodeOps N St}.

(** What a search with the page size [pageSize], the predicate [predicate]
    and the options [o] may do to a node: take any node from the queue; read
    the children of a node only when it is not a match and may be traversed;
    ask such a node for [pageSize] more only when it pages and paging is
    allowed; refresh none. *)
Definition permitted (pageSize : nat) (predicate : N -> bool)
    (o : FindOptions N) (e : Step N) : Prop :=
  match e with
  | Visit _ => True
  | GetChildrenOf n =>
      predicate n = false /\ traversable (canTraverse o) n = true
  | ShowMoreOf n count =>
      allowPaging o = Some true /\ isPageable n = true /\ count = pageSize /\
      predicate n = false /\ traversable (canTraverse o) n = true
  | RefreshOf _ _ => False
  end.

(** Where a node found by a search lies: it was reached through ancestors
    that do not page, at most [m] levels below [root], or it is a child of a
    Pageable node reached that way. *)
Definition foundWithin (child_of : N -> N -> Prop) (root : N) (m : nat)
    (n : N) : Prop :=
  (exists d, d <= m /\ descends child_of isPageable root d n) \/
  (exists p d, d <= m /\ descends child_of isPageable root d p /\
               isPageable p = true /\ child_of p n).

(** What a step of the view does to the node store: the call it
    records. *)
Definition stepStore (e : Step N) (s : St) : St :=
  match e with
  | Visit _ => s
  | GetChildrenOf n => snd (node_getChildren n s)
  | ShowMoreOf n count => showMore n count s
  | RefreshOf n reset =>
      match node_refresh n with
      | Some f => snd (f reset s)
      | None => s
      end
  end.

(** The node store after the calls of [evs], made in that order. *)
Definition replay (evs : list (Step N)) (s : St) : St :=
  fold_left (fun s e => stepStore e s) evs s.

(** Between [v] and [v'] the view made the calls [evs] and nothing else:
    the node store is what these calls left, an entry of the last known
    limits moved only under the id of a node asked for more, and without
    paging no node was asked for more. *)
Definition ranFrom (allow : bool) (v v' : ViewBase N St) : Prop :=
  exists evs,
    steps v' = steps v ++ evs /\
    nodes v' = replay evs (nodes v) /\
    (forall key,
       (forall n count, In (ShowMoreOf n count) evs -> id n <> key) ->
       _lastKnownLimits v' !! key = _lastKnownLimits v !! key) /\
    (allow = false ->
     (forall n count, ~ In (ShowMoreOf n count) evs) /\
     _lastKnownLimits v' = _lastKnownLimits v).
End Discipline.

(** The look, counted from the look numbered [l], from which the token
    reports cancellation; [None] when it never does. *)
Definition cancelsAfter (tok : option CancellationToken) (l : nat)
    : option nat :=
  match tok with
  | Some {| cancelledAt := Some k |} => Some (k - l)
  | _ => None
  end.

(** How the turn of a Pageable node goes whose first match [x] lies beyond
    its window and comes into it with round [rounds] of the paging loop, by
    the look [cancel] of that turn from which the token reports
    cancellation: what the search answers, and how many paging rounds it
    runs ([None]: the node is not even taken from the queue). The looks of
    the turn are: look 0 before the node is taken, then two per round,
    before [showMore] and while waiting for the children. *)
Definition pagingOutcome (x rounds : nat) (cancel : option nat)
    : option nat * option nat :=
  match cancel with
  | None => (Some x, Some rounds)
  | Some 0 => (None, None)
  | Some c =>
      if c <=? 2 * rounds then (None, Some (Nat.div2 c))
      else (Some x, Some rounds)
  end.

(** The steps of such a turn. *)
Definition pagingSteps (p pageSize : nat) (ran : option nat)
    : list (Step nat) :=
  match ran with
  | None => []
  | Some r => [Visit p; GetChildrenOf p] ++ roundSteps p pageSize r
  end.

Section Levels.
Context {N : Type}.
Variable kids : N -> list N.
Variable trav : N -> bool.

(** The nodes of [l] followed, level by level, by the [k] levels below
    them: the children of the nodes of a level that may be traversed, in
    the order of their parents. *)
Fixpoint levels (l : list N) (k : nat) : list N :=
  match k with
  | 0 => l
  | S k' => l ++ levels (flat_map kids (List.filter trav l)) k'
  end.

(** What a search still has to look at behind the nodes [front] of the
    level [depth] that wait in its queue, [back] being the children queued
    for the next level. *)
Definition behind (maxDepth_ : nat) (front back : list N) (depth : nat)
    : list N :=
  match maxDepth_ - depth with
  | 0 => []
  | S k => levels (back ++ flat_map kids (List.filter trav front)) k
  end.
End Levels.

(** Between [v] and [v'] the last known limits followed the paging: for a
    node asked for more, the entry under its id is the limit the node has
    now; for any other node, the entry under its id and the node's limit
    are what they were. *)
Definition limitsFollow (T : Paged.Tree)
    (v v' : ViewBase nat (gmap nat nat)) : Prop :=
  exists evs,
    steps v' = steps v ++ evs /\
    forall n,
      ((exists c, In (ShowMoreOf n c) evs) ->
       _lastKnownLimits v' !! Paged.nodeId T n = Some (nodes v' !! n) /\
       is_Some (nodes v' !! n)) /\
      ((forall c, ~ In (ShowMoreOf n c) evs) ->
       _lastKnownLimits v' !! Paged.nodeId T n
         = _lastKnownLimits v !! Paged.nodeId T n /\
       nodes v' !! n = nodes v !! n).

(** A small tree without paging: 0 over 1 and 2, 1 over 3, 2 over 4. *)
Definition fork : Paged.Tree :=
  {| Paged.nodeId := fun n => pretty n;
     Paged.items := fun n =>
       match n with 0 => [1; 2] | 1 => [3] | 2 => [4] | _ => [] end;
     Paged.pageable := fun _ => false;
     Paged.defaultItemLimit := 0 |}.

Definition forkView : ViewBase nat (gmap nat nat) := Paged.initialView 0 ∅.

(** A Pageable node two levels down: 0 over 1, 1 over 2, and 2 pages over
    3 and shows it. *)
Definition deep : Paged.Tree :=
  {| Paged.nodeId := fun n => pretty n;
     Paged.items := fun n =>
       match n with 0 => [1] | 1 => [2] | 2 => [3] | _ => [] end;
     Paged.pageable := fun n => match n with 2 => true | _ => false end;
     Paged.defaultItemLimit := 1 |}.

Definition deepView : ViewBase nat (gmap nat nat) := Paged.initialView 0 ∅.

(** A Pageable root that shows nothing yet: node 0 over the item 1, its
    window empty. *)
Definition drawer : Paged.Tree :=
  {| Paged.nodeId := fun n => pretty n;
     Paged.items := fun n => match n with 0 => [1] | _ => [] end;
     Paged.pageable := fun n => match n with 0 => true | _ => false end;
     Paged.defaultItemLimit := 0 |}.

Definition drawerView : ViewBase nat (gmap nat nat) := Paged.initialView 0 ∅.

(** No option given but a token that reports cancellation from the look
    numbered [c] on. *)
Definition cancelledFrom {N : Type} (c : nat) : FindOptions N :=
  {| allowPaging := None; canTraverse := None; maxDepth := None;
     token := Some {| cancelledAt := Some c |} |}.

(** The repositories view on an unloaded container, one open repository in
    the collection. *)
Definition oneRepositoryView
    : ViewBase RepositoriesView.Node RepositoriesView.Store :=
  RepositoriesView.initialView
    {| RepositoriesView.container := Repositories.unloaded;
       RepositoriesView.git := Normal [Repositories.repoAt "/r1" 0 false] |}.

(** A predicate no node of the repositories view satisfies. *)
Definition noNode : string + (RepositoriesView.Node -> bool) :=
  inr (fun _ => false).

(** The search options with only [maxDepth] given. *)
Definition toDepth (m : nat) : FindOptions nat := withMaxDepth m noOptions.

End SearchMore.

(** * Properties *)

(** ** The repositories container *)

Module RepositoriesFacts.
Import Repositories.

Lemma insertByIndex_perm (r : Repository) (l : list Repository) :
  Permutation (r :: l) (insertByIndex r l).
Proof.
  induction l as [|r' l IH]; simpl; [reflexivity|].
  destruct (index r <=? index r')%Z; [reflexivity|].
  rewrite perm_swap. now apply perm_skip.
Qed.

Lemma sortByIndex_perm (l : list Repository) : Permutation l (sortByIndex l).
Proof.
  induction l as [|r l IH]; simpl; [reflexivity|].
  etransitivity; [apply perm_skip, IH | apply insertByIndex_perm].
Qed.

Lemma insertByIndex_sorted (r : Repository) (l : list Repository) :
  StronglySorted indexLe l -> StronglySorted indexLe (insertByIndex r l).
Proof.
  induction 1 as [|r' l Hs IH Hall]; simpl.
  - repeat constructor.
  - destruct (Z.leb_spec (index r) (index r')) as [Hle|Hgt].
    + constructor; [now constructor|].
      constructor; [exact Hle|].
      eapply Forall_impl; [exact Hall|].
      intros x Hx. unfold indexLe in *. lia.
    + constructor; [exact IH|].
      rewrite <- (insertByIndex_perm r l).
      constructor; [unfold indexLe; lia | exact Hall].
Qed.

Lemma sortByIndex_sorted (l : list Repository) :
  StronglySorted indexLe (sortByIndex l).
Proof.
  induction l as [|r l IH]; simpl; [constructor|].
  now apply insertByIndex_sorted.
Qed.

Lemma sortByIndex_length (l : list Repository) :
  length (sortByIndex l) = length l.
Proof. symmetry. apply Permutation_length, sortByIndex_perm. Qed.

(** C7. A container whose children cache is present answers [getChildren]
    with the cached list itself and leaves its whole state as it was (no
    fetch from the data source, no node constructed): a second call, whatever
    the data source holds by then, gives the same node objects in the same
    order. *)
Theorem getChildren_loaded_stable
    (git1 git2 : Completion (list Repository)) (st : State)
    (cs : list ChildNode) :
  _children st = Some cs ->
  getChildren git1 st = (Normal cs, st) /\
  getChildren git2 (snd (getChildren git1 st)) = (Normal cs, st).
Proof.
  intros Hc. unfold getChildren. rewrite Hc. simpl. rewrite Hc. auto.
Qed.

Lemma getChildren_loaded_stable_witness :
  _children loaded12
    = Some [RepositoryNode 0 "/r1" (repoAt "/r1" 0 false);
            RepositoryNode 1 "/r2" (repoAt "/r2" 1 false)] /\
  getChildren (Normal []) loaded12
    = (Normal [RepositoryNode 0 "/r1" (repoAt "/r1" 0 false);
               RepositoryNode 1 "/r2" (repoAt "/r2" 1 false)], loaded12) /\
  getChildren (Throw "unavailable") (snd (getChildren (Normal []) loaded12))
    = (Normal [RepositoryNode 0 "/r1" (repoAt "/r1" 0 false);
               RepositoryNode 1 "/r2" (repoAt "/r2" 1 false)], loaded12).
Proof.
  split; [reflexivity|].
  apply (getChildren_loaded_stable (Normal []) (Throw "unavailable") loaded12).
  reflexivity.
Defined.

(** The scenario of the specification: after the collection changes to
    [/r2] (index 0), [/r3] (index 1), the refresh keeps the object of [/r2],
    refreshes it, constructs a node for [/r3] and disposes the one of
    [/r1]. *)
Example refresh_scenario :
  let st := snd (refresh None
                   (Normal [repoAt "/r2" 0 false; repoAt "/r3" 1 false])
                   loaded12) in
  _children st
    = Some [RepositoryNode 1 "/r2" (repoAt "/r2" 1 false);
            RepositoryNode 2 "/r3" (repoAt "/r3" 1 false)] /\
  drop (length (effects loaded12)) (effects st)
    = [FetchRepositories; ChildRefresh 1;
       Construct (RepositoryNode 2 "/r3" (repoAt "/r3" 1 false));
       ChildDispose 0; EnsureSubscription].
Proof. split; reflexivity. Qed.

(** C1. At an empty collection the refresh of a container holding a
    non-empty cached list returns after caching the placeholder (line 70),
    before the loop that disposes dropped children: the cached children,
    none of which has a matching item, are dropped without a single
    [dispose()]. *)
Theorem refresh_empty_collection_disposes_nothing
    (reason : option RefreshReason) (st : State) (cached : list ChildNode) :
  _children st = Some cached ->
  cached <> [] ->
  let m := MessageNode (nextObj st) "No repositories found" in
  fst (refresh reason (Normal []) st) = Normal tt /\
  _children (snd (refresh reason (Normal []) st)) = Some [m] /\
  effects (snd (refresh reason (Normal []) st))
    = effects st ++ [FetchRepositories; Construct m].
Proof.
  intros Hc Hne. unfold refresh. rewrite Hc.
  destruct cached as [|c cached]; [congruence|].
  simpl. rewrite <- app_assoc. auto.
Qed.

Lemma refresh_empty_collection_disposes_nothing_witness :
  _children loaded12
    = Some [RepositoryNode 0 "/r1" (repoAt "/r1" 0 false);
            RepositoryNode 1 "/r2" (repoAt "/r2" 1 false)] /\
  fst (refresh None (Normal []) loaded12) = Normal tt /\
  _children (snd (refresh None (Normal []) loaded12))
    = Some [MessageNode 2 "No repositories found"] /\
  effects (snd (refresh None (Normal []) loaded12))
    = effects loaded12
      ++ [FetchRepositories; Construct (MessageNode 2 "No repositories found")].
Proof.
  split; [reflexivity|].
  apply (refresh_empty_collection_disposes_nothing None loaded12
           [RepositoryNode 0 "/r1" (repoAt "/r1" 0 false);
            RepositoryNode 1 "/r2" (repoAt "/r2" 1 false)]).
  - reflexivity.
  - discriminate.
Defined.

(** *** What the refresh does for a non-empty collection *)

Lemma findByPath_spec (cached : list ChildNode) (p : string) :
  allRepositoryNodes cached ->
  match findByPath cached p with
  | Normal (Some c) => In c cached /\ keyOf c = Some p
  | Normal None => forall c, In c cached -> keyOf c <> Some p
  | Throw _ => False
  end.
Proof.
  induction 1 as [|c cached Hc _ IH]; simpl.
  - intros c [].
  - destruct c as [o u r|o m]; [|discriminate]. simpl.
    destruct (String.eqb_spec (normalizedPath r) p) as [Heq|Hne].
    + split; [now left | simpl; now rewrite Heq].
    + destruct (findByPath cached p) as [[c'|]|e]; [| |exact IH].
      * destruct IH as [Hin Hk]. split; [now right | exact Hk].
      * intros c' [<-|Hin]; [simpl; congruence | now apply IH].
Qed.

Lemma reconcile_spec (cached : list ChildNode) :
  allRepositoryNodes cached ->
  forall repos acc st,
  exists cs evs st',
    reconcile cached repos acc st = (Normal (acc ++ cs), st') /\
    effects st' = effects st ++ evs /\
    _children st' = _children st /\
    nextObj st <= nextObj st' /\
    Forall2 (placed cached (nextObj st) evs) repos cs /\
    Forall (fun c => In c cached \/ objOf c < nextObj st') cs /\
    Forall (fun e => forall o, e <> ChildDispose o) evs.
Proof.
  intros Hrepo. induction repos as [|repo rest IH]; intros acc st; simpl.
  { exists [], [], st. rewrite !app_nil_r. repeat split; auto; constructor. }
  pose proof (findByPath_spec cached (normalizedPath repo) Hrepo) as Hfind.
  destruct (findByPath cached (normalizedPath repo)) as [[child|]|e];
    [| |destruct Hfind].
  - destruct Hfind as [Hin Hkey].
    destruct (IH (acc ++ [child]) (emit (ChildRefresh (objOf child)) st))
      as (cs & evs & st' & Hrun & He & Hch & Hn & Hall & Hold & Hnd).
    exists (child :: cs), (ChildRefresh (objOf child) :: evs), st'.
    rewrite Hrun, He. simpl. rewrite <- !app_assoc. simpl.
    split; [reflexivity|]. split; [reflexivity|]. split; [exact Hch|].
    split; [exact Hn|]. split; [|split].
    + constructor.
      * split; [exact Hkey|]. left. split; [exact Hin | now left].
      * eapply Forall2_impl; [exact Hall|].
        intros r c (Hk & [[H1 H2]|(H1 & H2 & H3 & H4)]); split; auto.
        -- left. split; [exact H1 | now right].
        -- right. split; [exact H1|]. split; [exact H2|].
           split; [now right | exact H4].
    + constructor; [now left | exact Hold].
    + constructor; [discriminate | exact Hnd].
  - set (c := RepositoryNode (nextObj st) (path repo) repo).
    destruct (IH (acc ++ [c]) (snd (newRepositoryNode repo st)))
      as (cs & evs & st' & Hrun & He & Hch & Hn & Hall & Hold & Hnd).
    exists (c :: cs), (Construct c :: evs), st'.
    unfold newRepositoryNode in *. simpl in *. fold c in Hrun, He.
    rewrite Hrun, He. rewrite <- !app_assoc. simpl.
    split; [reflexivity|]. split; [reflexivity|]. split; [exact Hch|].
    split; [lia|]. split; [|split].
    + constructor.
      * split; [reflexivity|]. right.
        split; [simpl; lia|]. split; [reflexivity|]. split; [now left|].
        intros c' Hc' Hk. now apply (Hfind c' Hc').
      * eapply Forall2_impl; [exact Hall|].
        intros r c0 (Hk & [[H1 H2]|(H1 & H2 & H3 & H4)]); split; auto.
        -- left. split; [exact H1 | now right].
        -- right. split; [lia|]. split; [exact H2|].
           split; [now right | exact H4].
    + constructor; [right; simpl; lia | exact Hold].
    + constructor; [discriminate | exact Hnd].
Qed.

Lemma disposeDropped_spec (cached children : list ChildNode) (st : State) :
  effects (disposeDropped cached children st)
    = effects st
      ++ map (fun c => ChildDispose (objOf c))
           (List.filter (fun c => negb (includes children c)) cached) /\
  _children (disposeDropped cached children st) = _children st /\
  nextObj (disposeDropped cached children st) = nextObj st.
Proof.
  revert st. induction cached as [|c cached IH]; intros st; simpl.
  - now rewrite app_nil_r.
  - destruct (includes children c); simpl; [apply IH|].
    destruct (IH (emit (ChildDispose (objOf c)) st)) as (He & Hc & Hn).
    rewrite He, Hc, Hn. simpl. now rewrite <- app_assoc.
Qed.

Lemma objOf_inj_in (l : list ChildNode) (x y : ChildNode) :
  NoDup (map objOf l) -> In x l -> In y l -> objOf x = objOf y -> x = y.
Proof.
  induction l as [|a l IH]; simpl; intros Hnd Hx Hy Heq; [destruct Hx|].
  apply NoDup_cons in Hnd as [Hnotin Hnd].
  assert (Hin : forall z, In z l -> objOf z ∈ map objOf l).
  { intros z Hz. apply list_elem_of_In, in_map, Hz. }
  destruct Hx as [<-|Hx], Hy as [<-|Hy]; auto.
  - exfalso. apply Hnotin. rewrite Heq. now apply Hin.
  - exfalso. apply Hnotin. rewrite <- Heq. now apply Hin.
Qed.

Lemma includes_true (children : list ChildNode) (c : ChildNode) :
  includes children c = true <->
  exists c', In c' children /\ objOf c' = objOf c.
Proof.
  unfold includes. rewrite existsb_exists. split.
  - intros (c' & Hin & Heq). apply Nat.eqb_eq in Heq. eauto.
  - intros (c' & Hin & Heq). exists c'. split; [exact Hin|].
    now apply Nat.eqb_eq.
Qed.

Lemma dispose_in_map (l : list ChildNode) (o : nat) :
  In (ChildDispose o) (map (fun c => ChildDispose (objOf c)) l) ->
  exists c, In c l /\ objOf c = o.
Proof.
  rewrite in_map_iff. intros (c & Heq & Hin). inversion Heq. eauto.
Qed.

Lemma count_dispose_one (l : list ChildNode) (c : ChildNode) :
  NoDup (map objOf l) -> In c l ->
  count_occ Effect_eq_dec (map (fun c => ChildDispose (objOf c)) l)
    (ChildDispose (objOf c)) = 1.
Proof.
  induction l as [|a l IH]; intros Hnd Hc; [destruct Hc|].
  cbn [map] in *. apply NoDup_cons in Hnd as [Hnotin Hnd].
  destruct (decide (objOf a = objOf c)) as [Heq|Hne].
  - rewrite count_occ_cons_eq by (now rewrite Heq).
    f_equal. apply count_occ_not_In. intros Hin.
    apply dispose_in_map in Hin as (c' & Hc' & Hobj).
    apply Hnotin. rewrite Heq, <- Hobj.
    apply list_elem_of_In, in_map, Hc'.
  - rewrite count_occ_cons_neq by congruence.
    destruct Hc as [<-|Hc]; [congruence | now apply IH].
Qed.

Lemma NoDup_map_filter (f : ChildNode -> bool) (l : list ChildNode) :
  NoDup (map objOf l) -> NoDup (map objOf (List.filter f l)).
Proof.
  induction l as [|a l IH]; simpl; intros Hnd; [constructor|].
  apply NoDup_cons in Hnd as [Hnotin Hnd].
  destruct (f a); simpl; [|now apply IH].
  apply NoDup_cons. split; [|now apply IH].
  intros Hin. apply Hnotin.
  apply list_elem_of_In in Hin. apply list_elem_of_In.
  apply in_map_iff in Hin as (c & Heq & Hc).
  apply filter_In in Hc as [Hc _]. rewrite <- Heq. now apply in_map.
Qed.

Lemma Forall2_In_r {A B : Type} (P : A -> B -> Prop) (l : list A)
    (k : list B) (y : B) :
  Forall2 P l k -> In y k -> exists x, In x l /\ P x y.
Proof.
  induction 1 as [|x y' l k Hxy _ IH]; intros Hin; [destruct Hin|].
  destruct Hin as [<-|Hin].
  - exists x. split; [now left | exact Hxy].
  - destruct (IH Hin) as (x' & Hx' & HP). exists x'. split; [now right | exact HP].
Qed.

Lemma placed_weaken (cached : list ChildNode) (fresh : nat)
    (evs evs' : list Effect) (r : Repository) (c : ChildNode) :
  (forall e, In e evs -> In e evs') ->
  placed cached fresh evs r c -> placed cached fresh evs' r c.
Proof.
  intros Hsub (Hk & [[H1 H2]|(H1 & H2 & H3 & H4)]); split; auto.
  right. auto.
Qed.

(** For a non-empty collection, over a cached list of repository nodes
    (distinct objects, given out before the refresh): the children after the
    refresh follow the items sorted by index, item for item; an item whose
    key a cached child carries keeps that object, which is refreshed; an
    item of a new key gets a node constructed for it; a cached child whose
    key no item carries is disposed exactly once, a child that is kept is
    not disposed. *)
Lemma refresh_reconciles (reason : option RefreshReason)
    (repos : list Repository) (st : State) (cached : list ChildNode) :
  _children st = Some cached ->
  allRepositoryNodes cached ->
  repos <> [] ->
  Forall (fun c => objOf c < nextObj st) cached ->
  NoDup (map objOf cached) ->
  exists children evs st',
    refresh reason (Normal repos) st = (Normal tt, st') /\
    _children st' = Some children /\
    effects st' = effects st ++ evs /\
    Forall2 (placed cached (nextObj st) evs) (sortByIndex repos) children /\
    forall c, In c cached ->
      ((forall r, In r repos -> ~ keyed r c) ->
       count_occ Effect_eq_dec evs (ChildDispose (objOf c)) = 1) /\
      (In c children ->
       count_occ Effect_eq_dec evs (ChildDispose (objOf c)) = 0).
Proof.
  intros Hc Hrepo Hne Hold Hnd. unfold refresh. rewrite Hc.
  assert (Hlen : (length repos =? 0) = false).
  { apply Nat.eqb_neq. destruct repos; [congruence | discriminate]. }
  rewrite Hlen. simpl andb. cbv iota.
  destruct (reconcile_spec cached Hrepo (sortByIndex repos) []
              (emit FetchRepositories st))
    as (cs & evs1 & st2 & Hrun & He2 & Hch2 & Hn2 & Hall & _ & Hnodisp).
  rewrite Hrun. simpl in He2, Hn2, Hall.
  destruct (disposeDropped_spec cached cs st2) as (He3 & Hch3 & Hn3).
  set (dropped := List.filter (fun c => negb (includes cs c)) cached) in *.
  set (tail := (if isConfigurationChanged reason then [Unsubscribe] else [])
               ++ [EnsureSubscription]).
  exists cs, ([FetchRepositories] ++ evs1
              ++ map (fun c => ChildDispose (objOf c)) dropped ++ tail).
  eexists. split; [reflexivity|]. split; [|split; [|split]].
  - destruct (isConfigurationChanged reason); reflexivity.
  - unfold tail.
    destruct (isConfigurationChanged reason); simpl; rewrite He3, He2;
      rewrite <- !app_assoc; reflexivity.
  - eapply Forall2_impl; [exact Hall|]. intros r c.
    apply placed_weaken. intros e He. simpl. right.
    apply in_or_app. now left.
  - assert (Hcount : forall o,
      count_occ Effect_eq_dec
        ([FetchRepositories] ++ evs1
         ++ map (fun c => ChildDispose (objOf c)) dropped ++ tail)
        (ChildDispose o)
      = count_occ Effect_eq_dec
          (map (fun c => ChildDispose (objOf c)) dropped) (ChildDispose o)).
    { intros o. rewrite !count_occ_app.
      assert (H1 : count_occ Effect_eq_dec evs1 (ChildDispose o) = 0).
      { apply count_occ_not_In. intros Hin.
        rewrite Forall_forall in Hnodisp.
        apply list_elem_of_In in Hin. now apply (Hnodisp _ Hin o). }
      assert (H2 : count_occ Effect_eq_dec tail (ChildDispose o) = 0).
      { apply count_occ_not_In. unfold tail.
        destruct (isConfigurationChanged reason); simpl; intuition congruence. }
      rewrite H1, H2. simpl. lia. }
    assert (Hkept : forall c c', In c cached -> In c' cs ->
              objOf c' = objOf c ->
              c' = c /\ exists r, In r repos /\ keyed r c).
    { intros c c' Hin Hin' Hobj.
      destruct (Forall2_In_r _ _ _ _ Hall Hin')
        as (r & Hr & Hk & [[H1 H2]|(H1 & _)]).
      - assert (c' = c) by (eapply objOf_inj_in; eauto). subst c'.
        split; [reflexivity|]. exists r. split; [|exact Hk].
        eapply Permutation_in; [symmetry; apply sortByIndex_perm | exact Hr].
      - rewrite Forall_forall in Hold.
        apply list_elem_of_In in Hin. specialize (Hold _ Hin). lia. }
    intros c Hin. rewrite !Hcount. split.
    + intros Hnokey. apply count_dispose_one.
      * now apply NoDup_map_filter.
      * apply filter_In. split; [exact Hin|].
        apply negb_true_iff. apply not_true_is_false.
        rewrite includes_true. intros (c' & Hin' & Hobj).
        destruct (Hkept c c' Hin Hin' Hobj) as (_ & r & Hr & Hk).
        now apply (Hnokey r Hr).
    + intros Hinc. apply count_occ_not_In. intros Hd.
      apply dispose_in_map in Hd as (c' & Hc' & Hobj).
      apply filter_In in Hc' as [Hc' Hnot].
      assert (c' = c) by (eapply objOf_inj_in; eauto). subst c'.
      apply negb_true_iff in Hnot.
      assert (Hyes : includes cs c = true)
        by (apply includes_true; eauto).
      congruence.
Qed.

(** The keys a fresh [getChildren] lists: those of the open repositories, in
    index order. *)
Lemma buildChildren_keys (repos : list Repository) (acc : list ChildNode)
    (st : State) :
  map keyOf (fst (buildChildren repos acc st))
  = map keyOf acc
    ++ map (fun r => Some (normalizedPath r))
         (List.filter (fun r => negb (closed r)) repos).
Proof.
  revert acc st. induction repos as [|r repos IH]; intros acc st; simpl.
  - now rewrite app_nil_r.
  - destruct (closed r); simpl; [apply IH|].
    rewrite IH, map_app. simpl. now rewrite <- app_assoc.
Qed.

Lemma placed_keys (cached : list ChildNode) (fresh : nat) (evs : list Effect)
    (repos : list Repository) (cs : list ChildNode) :
  Forall2 (placed cached fresh evs) repos cs ->
  map keyOf cs = map (fun r => Some (normalizedPath r)) repos.
Proof.
  induction 1 as [|r c repos cs [Hk _] _ IH]; simpl; [reflexivity|].
  now rewrite Hk, IH.
Qed.

(** When no repository of a non-empty collection is closed, the refresh
    lists the same keys in the same order as a fresh [getChildren]. *)
Lemma refresh_agrees_when_open (reason : option RefreshReason)
    (repos : list Repository) (st st0 : State) (cached : list ChildNode) :
  _children st = Some cached ->
  allRepositoryNodes cached ->
  repos <> [] ->
  Forall (fun c => objOf c < nextObj st) cached ->
  NoDup (map objOf cached) ->
  Forall (fun r => closed r = false) repos ->
  _children st0 = None ->
  exists fresh,
    fst (getChildren (Normal repos) st0) = Normal fresh /\
    option_map (map keyOf)
      (_children (snd (refresh reason (Normal repos) st)))
    = Some (map keyOf fresh).
Proof.
  intros Hc Hrepo Hne Hold Hnd Hopen H0.
  destruct (refresh_reconciles reason repos st cached Hc Hrepo Hne Hold Hnd)
    as (children & evs & st' & Hrun & Hch & _ & Hall & _).
  rewrite Hrun. simpl. rewrite Hch. simpl.
  unfold getChildren. rewrite H0.
  assert (Hlen : (length repos =? 0) = false).
  { apply Nat.eqb_neq. destruct repos; [congruence | discriminate]. }
  rewrite Hlen.
  pose proof (buildChildren_keys (sortByIndex repos) []
                (emit FetchRepositories st0)) as Hkeys.
  destruct (buildChildren (sortByIndex repos) [] (emit FetchRepositories st0))
    as [fresh st1]. simpl in *.
  exists fresh. split; [reflexivity|]. f_equal.
  rewrite Hkeys, (placed_keys _ _ _ _ _ Hall). f_equal.
  symmetry. apply forallb_filter_id. apply forallb_forall.
  intros r Hr. apply negb_true_iff.
  rewrite Forall_forall in Hopen. apply Hopen, list_elem_of_In.
  eapply Permutation_in; [symmetry; apply sortByIndex_perm | exact Hr].
Qed.

(** Over the cached placeholder the refresh for a collection that is no
    longer empty fails: the lookup of line 76 reads [repo] of the
    [MessageNode]. *)
Example refresh_over_placeholder_throws :
  refresh None (Normal [repoAt "/r3" 0 false])
    (snd (refresh None (Normal []) loaded12))
  = (Throw "TypeError",
     emit FetchRepositories (snd (refresh None (Normal []) loaded12))).
Proof. reflexivity. Qed.

(** C9. The refresh does not skip closed repositories, [getChildren] does
    (line 40): for the collection [/r1] (open), [/r2] (closed) the refresh
    of the loaded container lists both, a fresh [getChildren] on an unloaded
    container lists [/r1] only. *)
Theorem refresh_lists_closed_repository :
  let collection := Normal [repoAt "/r1" 0 false; repoAt "/r2" 1 true] in
  option_map (map keyOf) (_children (snd (refresh None collection loaded12)))
    = Some [Some "/r1"; Some "/r2"] /\
  fst (getChildren collection unloaded)
    = Normal [RepositoryNode 0 "/r1" (repoAt "/r1" 0 false)].
Proof. split; reflexivity. Qed.

End RepositoriesFacts.

(** ** The view: delegation and notification *)

Module ViewFacts.
Import View.

Section Generic.
Context {N St : Type} {ops : ViewNodeOps N St}.
Variable getRoot : N.

Lemma triggerNodeChange_fired (node : option N) (v : ViewBase N St) :
  exists payload, fired (triggerNodeChange node v) = fired v ++ [payload].
Proof.
  unfold triggerNodeChange. destruct node as [n|]; [|eauto].
  destruct (decide (Some n = _root v)); eauto.
Qed.

Lemma triggerNodeChange_nodes (node : option N) (v : ViewBase N St) :
  nodes (triggerNodeChange node v) = nodes v.
Proof.
  unfold triggerNodeChange. destruct node as [n|]; [|reflexivity].
  destruct (decide (Some n = _root v)); reflexivity.
Qed.

(** C8 (as the code has it). The tree-level [getChildren] has no [catch]:
    when the computation of the node's children throws, the same failure
    is what the caller gets, nothing is logged and no notification is
    emitted. (The only [catch] around a node computation in the view is
    the one of [findNode].) *)
Theorem getChildren_failure_propagates
    (node : option N) (v : ViewBase N St) (e : string) (s' : St) :
  node_getChildren (default (fst (ensureRoot getRoot false v)) node) (nodes v)
    = (Throw e, s') ->
  fst (getChildren getRoot node v) = Throw e /\
  logged (snd (getChildren getRoot node v)) = logged v /\
  fired (snd (getChildren getRoot node v)) = fired v.
Proof.
  intros Hthrow. unfold getChildren.
  destruct node as [n|]; simpl in Hthrow.
  - unfold callGetChildren. rewrite Hthrow. auto.
  - destruct (ensureRoot getRoot false v) as [root v1] eqn:Hroot.
    assert (Hsame : nodes v1 = nodes v /\ logged v1 = logged v
                    /\ fired v1 = fired v).
    { unfold ensureRoot in Hroot.
      destruct (_root v); inversion Hroot; subst; auto. }
    destruct Hsame as (Hn & Hl & Hf).
    unfold callGetChildren. simpl in Hthrow. rewrite Hn, Hthrow. auto.
Qed.
End Generic.

End ViewFacts.

Module RepositoriesViewFacts.
Import Repositories RepositoriesView.

Lemma getChildren_failure_propagates_witness :
  View.node_getChildren RepositoriesNode (View.nodes failingView)
    = (Throw "git failed",
       {| container := emit FetchRepositories unloaded;
          git := Throw "git failed" |}) /\
  fst (View.getChildren RepositoriesNode (Some RepositoriesNode) failingView)
    = Throw "git failed" /\
  View.logged (snd (View.getChildren RepositoriesNode (Some RepositoriesNode) failingView))
    = [] /\
  View.fired (snd (View.getChildren RepositoriesNode (Some RepositoriesNode) failingView))
    = [].
Proof.
  split; [reflexivity|].
  apply (ViewFacts.getChildren_failure_propagates RepositoriesNode
           (Some RepositoriesNode) failingView "git failed"
           {| container := emit FetchRepositories unloaded;
              git := Throw "git failed" |}).
  reflexivity.
Defined.

(** C8 as stated fails: the children computation of the container throws
    (the data source fails), and the tree-level [getChildren] does not answer
    with empty children. *)
Lemma getChildren_failure_counterexample :
  ~ (forall (node : Node) (v : View.ViewBase Node Store) (e : string) (s' : Store),
       View.node_getChildren node (View.nodes v) = (Throw e, s') ->
       fst (View.getChildren RepositoriesNode (Some node) v) = Normal []).
Proof.
  intros Hclaim.
  specialize (Hclaim RepositoriesNode failingView "git failed"
                {| container := emit FetchRepositories unloaded;
                   git := Throw "git failed" |} eq_refl).
  discriminate Hclaim.
Qed.

Lemma refresh_placeholder (reason : option RefreshReason) (st : State)
    (o : nat) (m : string) :
  _children st = Some [MessageNode o m] ->
  refresh reason (Normal []) st
    = (Normal tt,
       setChildren (Some [MessageNode (nextObj st) "No repositories found"])
         (snd (newMessageNode "No repositories found"
                 (emit FetchRepositories st)))).
Proof. intros Hc. unfold refresh. rewrite Hc. reflexivity. Qed.

Lemma refreshNode_placeholder (reset : bool) (v : View.ViewBase Node Store) :
  showsPlaceholder (View.nodes v) ->
  git (View.nodes v) = Normal [] ->
  exists v1,
    View.refreshNode RepositoriesNode reset v = (Normal tt, v1) /\
    showsPlaceholder (View.nodes v1) /\
    git (View.nodes v1) = Normal [] /\
    length (View.fired v1) = S (length (View.fired v)) /\
    exists es, effects (container (View.nodes v1))
                 = effects (container (View.nodes v)) ++ es
               /\ Forall touchesNoRepository es.
Proof.
  intros (o & m & Hc) Hgit.
  unfold View.refreshNode. simpl. unfold containerRefresh.
  rewrite Hgit, (refresh_placeholder None _ o m Hc).
  eexists. split; [reflexivity|].
  destruct (decide (Some RepositoriesNode = View._root v)); simpl.
  all: repeat split.
  all: try (unfold showsPlaceholder; simpl; eauto; fail).
  all: try (rewrite length_app; simpl; lia).
  all: exists [FetchRepositories;
               Construct (MessageNode (nextObj (container (View.nodes v)))
                            "No repositories found")].
  all: split; [now rewrite <- app_assoc|].
  all: constructor; [now left|].
  all: constructor; [right; eauto | constructor].
Qed.

(** C2 (as the code has it). On a container showing the placeholder, a
    refresh against a still empty collection touches no repository node and
    leaves the container showing a single placeholder; the refresh never
    signals its caller to skip, so [refreshNode] emits one change
    notification each time: two consecutive refreshes emit exactly two. *)
Theorem refreshNode_placeholder_notifies_each_time
    (reset1 reset2 : bool) (v : View.ViewBase Node Store) :
  showsPlaceholder (View.nodes v) ->
  git (View.nodes v) = Normal [] ->
  exists v1 v2,
    View.refreshNode RepositoriesNode reset1 v = (Normal tt, v1) /\
    View.refreshNode RepositoriesNode reset2 v1 = (Normal tt, v2) /\
    showsPlaceholder (View.nodes v1) /\
    showsPlaceholder (View.nodes v2) /\
    length (View.fired v1) = S (length (View.fired v)) /\
    length (View.fired v2) = S (S (length (View.fired v))) /\
    exists es, effects (container (View.nodes v2))
                 = effects (container (View.nodes v)) ++ es
               /\ Forall touchesNoRepository es.
Proof.
  intros Hp Hgit.
  destruct (refreshNode_placeholder reset1 v Hp Hgit)
    as (v1 & Hr1 & Hp1 & Hgit1 & Hf1 & es1 & He1 & Hes1).
  destruct (refreshNode_placeholder reset2 v1 Hp1 Hgit1)
    as (v2 & Hr2 & Hp2 & Hgit2 & Hf2 & es2 & He2 & Hes2).
  exists v1, v2. repeat split; auto.
  - lia.
  - exists (es1 ++ es2). split.
    + rewrite He2, He1. now rewrite app_assoc.
    + apply Forall_app. auto.
Qed.

Lemma refreshNode_placeholder_notifies_each_time_witness :
  showsPlaceholder (View.nodes placeholderView) /\
  git (View.nodes placeholderView) = Normal [] /\
  exists v1 v2,
    View.refreshNode RepositoriesNode false placeholderView = (Normal tt, v1) /\
    View.refreshNode RepositoriesNode false v1 = (Normal tt, v2) /\
    showsPlaceholder (View.nodes v1) /\
    showsPlaceholder (View.nodes v2) /\
    length (View.fired v1) = S (length (View.fired placeholderView)) /\
    length (View.fired v2) = S (S (length (View.fired placeholderView))) /\
    exists es, effects (container (View.nodes v2))
                 = effects (container (View.nodes placeholderView)) ++ es
               /\ Forall touchesNoRepository es.
Proof.
  assert (Hp : showsPlaceholder (View.nodes placeholderView)).
  { exists 2, "No repositories found". reflexivity. }
  split; [exact Hp|]. split; [reflexivity|].
  apply (refreshNode_placeholder_notifies_each_time false false
           placeholderView Hp).
  reflexivity.
Defined.

(** C2 as stated fails: on the container showing the placeholder, with the
    collection still empty, the refresh replaces the cached placeholder by a
    new object and a notification is emitted; after two refreshes two
    notifications have been emitted. *)
Lemma refreshNode_placeholder_counterexample :
  let v1 := snd (View.refreshNode RepositoriesNode false placeholderView) in
  let v2 := snd (View.refreshNode RepositoriesNode false v1) in
  _children (container (View.nodes placeholderView))
    = Some [MessageNode 2 "No repositories found"] /\
  git (View.nodes placeholderView) = Normal [] /\
  _children (container (View.nodes v1))
    = Some [MessageNode 3 "No repositories found"] /\
  View.fired placeholderView = [] /\
  View.fired v1 = [None] /\
  View.fired v2 = [None; None] /\
  ~ (length (View.fired v2) <= length (View.fired placeholderView) + 1).
Proof.
  repeat split. vm_compute. lia.
Qed.

End RepositoriesViewFacts.

(** ** The bounded search *)

Module SearchFacts.
Import View.

Section Loops.
Context {N St : Type} {ops : ViewNodeOps N St}.
Variable defaultPageSize : nat.
Variable predicate : N -> bool.
Variable allowPaging_ : bool.
Variable canTraverse_ : option (N -> bool).
Variable maxDepth_ : nat.
Variable token_ : option CancellationToken.

Abbreviation paging := (pagingLoop defaultPageSize predicate token_).
Abbreviation bfs :=
  (bfsLoop defaultPageSize predicate allowPaging_ canTraverse_ maxDepth_ token_).

(** *** What every run preserves *)

Section Preserved.
Variable R : ViewBase N St -> ViewBase N St -> Prop.
Hypothesis R_refl : forall v, R v v.
Hypothesis R_trans : forall a b c, R a b -> R b c -> R a c.
Hypothesis R_look : forall v, R v (snd (look token_ v)).
Hypothesis R_visit : forall n v, R v (record (Visit n) v).
Hypothesis R_getChildren : forall n v, R v (snd (callGetChildren n v)).
Hypothesis R_showMore :
  forall n v, allowPaging_ = true ->
    R v (showMoreNodeChildren n defaultPageSize v).

Lemma pagingLoop_preserves (fuel : nat) (n : N) (v : ViewBase N St) :
  allowPaging_ = true ->
  R v (snd (paging fuel n v)).
Proof.
  intros Hallow. revert v.
  induction fuel as [|fuel IH]; intros v; cbn [pagingLoop]; [apply R_refl|].
  destruct (look token_ v) as [c v1] eqn:Hl1.
  assert (R1 : R v v1) by (generalize (R_look v); now rewrite Hl1).
  destruct c; [exact R1|].
  assert (R2 : R v1 (showMoreNodeChildren n defaultPageSize v1))
    by now apply R_showMore.
  destruct (callGetChildren n (showMoreNodeChildren n defaultPageSize v1))
    as [r v3] eqn:Hg.
  assert (R3 : R (showMoreNodeChildren n defaultPageSize v1) v3)
    by (generalize (R_getChildren n (showMoreNodeChildren n defaultPageSize v1));
        now rewrite Hg).
  destruct (look token_ v3) as [c2 v4] eqn:Hl2.
  assert (R4 : R v3 v4) by (generalize (R_look v3); now rewrite Hl2).
  assert (R04 : R v v4) by eauto.
  destruct (if c2 then Normal [] else r) as [paged|e]; [|exact R04].
  destruct (List.find predicate paged); [exact R04|].
  destruct (negb (hasMore n (nodes v4))); [exact R04|].
  eapply R_trans; [exact R04 | apply IH].
Qed.

Lemma bfsLoop_preserves (fuel : nat) (queue : list (option N)) (depth : nat)
    (v : ViewBase N St) :
  R v (snd (bfs fuel queue depth v)).
Proof.
  revert queue depth v.
  induction fuel as [|fuel IH]; intros queue depth v; cbn [bfsLoop];
    [apply R_refl|].
  destruct (length queue <=? 1); [apply R_refl|].
  destruct (look token_ v) as [c v1] eqn:Hl1.
  assert (R1 : R v v1) by (generalize (R_look v); now rewrite Hl1).
  destruct c; [exact R1|].
  destruct queue as [|[node|] rest]; [exact R1| |].
  - assert (Rv : R v (record (Visit node) v1)) by eauto.
    destruct (predicate node); [exact Rv|].
    destruct (negb (traversable canTraverse_ node)).
    { eapply R_trans; [exact Rv | apply IH]. }
    destruct (callGetChildren node (record (Visit node) v1)) as [r v2] eqn:Hg.
    assert (R2 : R v v2).
    { eapply R_trans; [exact Rv|].
      generalize (R_getChildren node (record (Visit node) v1)).
      now rewrite Hg. }
    destruct r as [children|e]; [|exact R2].
    destruct (length children =? 0).
    { eapply R_trans; [exact R2 | apply IH]. }
    destruct (isPageable node) eqn:Hpg.
    + destruct (List.find predicate children); [exact R2|].
      destruct (allowPaging_ && hasMore node (nodes v2)) eqn:Hpage.
      * apply andb_true_iff in Hpage as [Hallow _].
        generalize (pagingLoop_preserves fuel node v2 Hallow).
        destruct (paging fuel node v2) as [[[r'|]|e|] v3]; simpl; intros R3.
        -- eauto.
        -- eapply R_trans; [eapply R_trans; [exact R2 | exact R3] | apply IH].
        -- eauto.
        -- eauto.
      * eapply R_trans; [exact R2 | apply IH].
    + eapply R_trans; [exact R2 | apply IH].
  - destruct (maxDepth_ <? S depth); [exact R1|].
    eapply R_trans; [exact R1 | apply IH].
Qed.
End Preserved.

(** *** More iterations than needed change nothing *)

Lemma pagingLoop_fuel_mono (fuel fuel' : nat) (n : N) (v : ViewBase N St) :
  fuel <= fuel' ->
  fst (paging fuel n v) <> OutOfFuel ->
  paging fuel' n v = paging fuel n v.
Proof.
  revert fuel' v.
  induction fuel as [|fuel IH]; intros fuel' v Hle Hret;
    [now contradict Hret|].
  destruct fuel' as [|fuel']; [lia|].
  cbn [pagingLoop] in *.
  destruct (look token_ v) as [c v1]. destruct c; [reflexivity|].
  destruct (callGetChildren n (showMoreNodeChildren n defaultPageSize v1))
    as [r v3].
  destruct (look token_ v3) as [c2 v4].
  destruct (if c2 then Normal [] else r) as [paged|e]; [|reflexivity].
  destruct (List.find predicate paged); [reflexivity|].
  destruct (negb (hasMore n (nodes v4))); [reflexivity|].
  apply IH; [lia | exact Hret].
Qed.

Lemma bfsLoop_fuel_mono (fuel fuel' : nat) (queue : list (option N))
    (depth : nat) (v : ViewBase N St) :
  fuel <= fuel' ->
  fst (bfs fuel queue depth v) <> OutOfFuel ->
  bfs fuel' queue depth v = bfs fuel queue depth v.
Proof.
  revert fuel' queue depth v.
  induction fuel as [|fuel IH]; intros fuel' queue depth v Hle Hret;
    [now contradict Hret|].
  destruct fuel' as [|fuel']; [lia|].
  assert (Hle' : fuel <= fuel') by lia.
  cbn [bfsLoop] in *.
  destruct (length queue <=? 1); [reflexivity|].
  destruct (look token_ v) as [c v1]. destruct c; [reflexivity|].
  destruct queue as [|[node|] rest]; [reflexivity| |].
  - destruct (predicate node); [reflexivity|].
    destruct (negb (traversable canTraverse_ node)); [now apply IH|].
    destruct (callGetChildren node (record (Visit node) v1)) as [r v2].
    destruct r as [children|e]; [|reflexivity].
    destruct (length children =? 0); [now apply IH|].
    destruct (isPageable node); [|now apply IH].
    destruct (List.find predicate children); [reflexivity|].
    destruct (allowPaging_ && hasMore node (nodes v2)); [|now apply IH].
    assert (Hp : fst (paging fuel node v2) <> OutOfFuel).
    { intros Hout. apply Hret.
      destruct (paging fuel node v2) as [[] ?]; simpl in Hout;
        try discriminate. reflexivity. }
    rewrite (pagingLoop_fuel_mono fuel fuel' node v2 Hle' Hp).
    destruct (paging fuel node v2) as [[[r'|]|e|] v3]; try reflexivity.
    now apply IH.
  - destruct (maxDepth_ <? S depth); [reflexivity|].
    now apply IH.
Qed.

(** *** The steps of a run *)

Lemma callGetChildren_steps (n : N) (v : ViewBase N St) :
  steps (snd (callGetChildren n v)) = steps v ++ [GetChildrenOf n].
Proof.
  unfold callGetChildren. now destruct (node_getChildren n (nodes v)).
Qed.

Lemma callGetChildren_looks (n : N) (v : ViewBase N St) :
  looks (snd (callGetChildren n v)) = looks v.
Proof.
  unfold callGetChildren. now destruct (node_getChildren n (nodes v)).
Qed.

Lemma callGetChildren_result (n : N) (v : ViewBase N St) :
  fst (callGetChildren n v) = fst (node_getChildren n (nodes v)).
Proof.
  unfold callGetChildren. now destruct (node_getChildren n (nodes v)).
Qed.

Lemma pagingLoop_steps (fuel : nat) (n : N) (v : ViewBase N St) :
  exists evs,
    steps (snd (paging fuel n v)) = steps v ++ evs /\
    Forall (fun e => e = ShowMoreOf n defaultPageSize \/ e = GetChildrenOf n) evs.
Proof.
  revert v. induction fuel as [|fuel IH]; intros v; cbn [pagingLoop].
  { exists []. now rewrite app_nil_r. }
  destruct (look token_ v) as [c v1] eqn:Hl1.
  assert (H1 : steps v1 = steps v) by (inversion Hl1; reflexivity).
  destruct c. { exists []. simpl. now rewrite app_nil_r. }
  pose proof (callGetChildren_steps n
                (showMoreNodeChildren n defaultPageSize v1)) as Hg.
  destruct (callGetChildren n (showMoreNodeChildren n defaultPageSize v1))
    as [r v3]. simpl in Hg. rewrite H1 in Hg.
  destruct (look token_ v3) as [c2 v4] eqn:Hl2.
  assert (H4 : steps v4 = steps v ++ [ShowMoreOf n defaultPageSize;
                                      GetChildrenOf n]).
  { inversion Hl2; subst; simpl. rewrite Hg. now rewrite <- app_assoc. }
  assert (Hdone : exists evs,
    steps v4 = steps v ++ evs /\
    Forall (fun e => e = ShowMoreOf n defaultPageSize \/ e = GetChildrenOf n)
      evs).
  { eexists. split; [exact H4|].
    constructor; [now left|]. constructor; [now right | constructor]. }
  destruct (if c2 then Normal [] else r) as [paged|e]; [|exact Hdone].
  destruct (List.find predicate paged); [exact Hdone|].
  destruct (negb (hasMore n (nodes v4))); [exact Hdone|].
  destruct (IH v4) as (evs & He & Hall).
  exists ([ShowMoreOf n defaultPageSize; GetChildrenOf n] ++ evs). split.
  - rewrite He, H4. now rewrite <- app_assoc.
  - apply Forall_app. split; [|exact Hall].
    constructor; [now left|]. constructor; [now right | constructor].
Qed.

(** How the paging loop leaves, and after how many rounds. *)
Lemma pagingLoop_rounds (fuel : nat) (n : N) (v : ViewBase N St) :
  exists rounds,
    steps (snd (paging fuel n v))
      = steps v ++ roundSteps n defaultPageSize rounds /\
    match fst (paging fuel n v) with
    | Done (Return (Some c)) => predicate c = true /\ 1 <= rounds
    | Done (Return None) =>
        looks v < looks (snd (paging fuel n v)) /\
        isCancellationRequested token_ (looks (snd (paging fuel n v)) - 1) = true
    | Done Break =>
        hasMore n (nodes (snd (paging fuel n v))) = false /\ 1 <= rounds
    | _ => True
    end.
Proof.
  revert v. induction fuel as [|fuel IH]; intros v; cbn [pagingLoop].
  { exists 0. simpl. now rewrite app_nil_r. }
  destruct (look token_ v) as [c v1] eqn:Hl1.
  assert (H1 : steps v1 = steps v /\ looks v1 = S (looks v)
               /\ c = isCancellationRequested token_ (looks v))
    by (inversion Hl1; auto).
  destruct H1 as (H1 & Hk1 & Hc1).
  destruct c.
  { exists 0. simpl. rewrite H1, app_nil_r, Hk1. simpl.
    rewrite Nat.sub_0_r. auto with lia. }
  pose proof (callGetChildren_steps n
                (showMoreNodeChildren n defaultPageSize v1)) as Hg.
  pose proof (callGetChildren_looks n
                (showMoreNodeChildren n defaultPageSize v1)) as Hgl.
  destruct (callGetChildren n (showMoreNodeChildren n defaultPageSize v1))
    as [r v3]. simpl in Hg, Hgl. rewrite H1 in Hg.
  destruct (look token_ v3) as [c2 v4] eqn:Hl2.
  assert (H4 : steps v4 = steps v ++ roundSteps n defaultPageSize 1
               /\ looks v4 = S (looks v3) /\ nodes v4 = nodes v3).
  { inversion Hl2; subst; simpl. rewrite Hg. now rewrite <- app_assoc. }
  destruct H4 as (H4 & Hk4 & Hn4).
  destruct (if c2 then Normal [] else r) as [paged|e].
  2: { exists 1. simpl. split; [exact H4 | exact I]. }
  destruct (List.find predicate paged) as [child|] eqn:Hfind.
  { exists 1. simpl. split; [exact H4|].
    apply find_some in Hfind. intuition. }
  destruct (negb (hasMore n (nodes v4))) eqn:Hmore.
  { exists 1. simpl. split; [exact H4|].
    apply negb_true_iff in Hmore. auto. }
  destruct (IH v4) as (rounds & He & Hexit).
  exists (S rounds). split.
  - rewrite He, H4. unfold roundSteps. simpl. now rewrite <- app_assoc.
  - destruct (paging fuel n v4) as [[[[c'|]|]|e|] v5]; simpl in *; auto.
    + intuition.
    + intuition. lia.
    + intuition.
Qed.

(** *** Cancellation *)

Lemma cancelled_later (tok : option CancellationToken) (l l' : nat) :
  isCancellationRequested tok l = true -> l <= l' ->
  isCancellationRequested tok l' = true.
Proof.
  unfold isCancellationRequested.
  destruct tok as [[[k|]]|]; try discriminate.
  intros Hk Hle. apply Nat.leb_le in Hk. apply Nat.leb_le. lia.
Qed.

Lemma pagingLoop_looks (fuel : nat) (n : N) (v : ViewBase N St) :
  looks v <= looks (snd (paging fuel n v)).
Proof.
  revert v. induction fuel as [|fuel IH]; intros v; cbn [pagingLoop];
    [reflexivity|].
  destruct (look token_ v) as [c v1] eqn:Hl1.
  assert (Hk1 : looks v1 = S (looks v)) by (inversion Hl1; reflexivity).
  destruct c; [simpl; lia|].
  pose proof (callGetChildren_looks n
                (showMoreNodeChildren n defaultPageSize v1)) as Hgl.
  destruct (callGetChildren n (showMoreNodeChildren n defaultPageSize v1))
    as [r v3]. simpl in Hgl.
  destruct (look token_ v3) as [c2 v4] eqn:Hl2.
  assert (Hk4 : looks v4 = S (looks v3)) by (inversion Hl2; reflexivity).
  destruct (if c2 then Normal [] else r) as [paged|e]; [|simpl; lia].
  destruct (List.find predicate paged); [simpl; lia|].
  destruct (negb (hasMore n (nodes v4))); [simpl; lia|].
  specialize (IH v4). lia.
Qed.

(** The latest look at the token found it cancelled. *)
Abbreviation seenCancelled v :=
  (0 < looks v /\ isCancellationRequested token_ (looks v - 1) = true).

Lemma pagingLoop_seen (fuel : nat) (n : N) (v : ViewBase N St) :
  seenCancelled (snd (paging fuel n v)) ->
  match fst (paging fuel n v) with
  | Done (Return (Some _)) | Thrown _ => False
  | _ => True
  end.
Proof.
  revert v. induction fuel as [|fuel IH]; intros v; cbn [pagingLoop];
    [now simpl|].
  destruct (look token_ v) as [c v1] eqn:Hl1.
  destruct c; [now simpl|].
  destruct (callGetChildren n (showMoreNodeChildren n defaultPageSize v1))
    as [r v3].
  destruct (look token_ v3) as [c2 v4] eqn:Hl2.
  assert (H4 : looks v4 = S (looks v3)
               /\ c2 = isCancellationRequested token_ (looks v3))
    by (inversion Hl2; auto).
  destruct H4 as (Hk4 & Hc2).
  destruct c2.
  - simpl. destruct (negb (hasMore n (nodes v4))); [now simpl | apply IH].
  - destruct r as [paged|e]; simpl.
    + destruct (List.find predicate paged).
      * simpl. rewrite Hk4. simpl. rewrite Nat.sub_0_r.
        intros [_ Hseen]. congruence.
      * destruct (negb (hasMore n (nodes v4))); [now simpl | apply IH].
    + rewrite Hk4. simpl. rewrite Nat.sub_0_r.
      intros [_ Hseen]. congruence.
Qed.

(** A run that saw the token cancelled answers [undefined]. *)
Lemma bfsLoop_seen (fuel : nat) (queue : list (option N)) (depth : nat)
    (v : ViewBase N St) :
  seenCancelled (snd (bfs fuel queue depth v)) ->
  fst (bfs fuel queue depth v) = Done None \/
  fst (bfs fuel queue depth v) = OutOfFuel.
Proof.
  revert queue depth v.
  induction fuel as [|fuel IH]; intros queue depth v; cbn [bfsLoop];
    [now right|].
  destruct (length queue <=? 1); [now left|].
  destruct (look token_ v) as [c v1] eqn:Hl1.
  assert (H1 : looks v1 = S (looks v)
               /\ c = isCancellationRequested token_ (looks v))
    by (inversion Hl1; auto).
  destruct H1 as (Hk1 & Hc).
  destruct c; [now left|].
  assert (Hnot : forall v' : ViewBase N St,
            looks v' = looks v1 -> seenCancelled v' -> False).
  { intros v' Hk [_ Hseen]. rewrite Hk, Hk1 in Hseen. simpl in Hseen.
    rewrite Nat.sub_0_r in Hseen. congruence. }
  destruct queue as [|[node|] rest]; [now left| |].
  - destruct (predicate node).
    { intros Hseen. exfalso. eapply Hnot; [|exact Hseen]. reflexivity. }
    destruct (negb (traversable canTraverse_ node)); [apply IH|].
    pose proof (callGetChildren_looks node (record (Visit node) v1)) as Hgl.
    destruct (callGetChildren node (record (Visit node) v1)) as [r v2].
    simpl in Hgl.
    destruct r as [children|e].
    2: { intros Hseen. exfalso. eapply Hnot; [|exact Hseen]. exact Hgl. }
    destruct (length children =? 0); [apply IH|].
    destruct (isPageable node); [|apply IH].
    destruct (List.find predicate children).
    { intros Hseen. exfalso. eapply Hnot; [|exact Hseen]. exact Hgl. }
    destruct (allowPaging_ && hasMore node (nodes v2)); [|apply IH].
    pose proof (pagingLoop_seen fuel node v2) as Hp.
    destruct (paging fuel node v2) as [[[[c'|]|]|e|] v3]; simpl in *.
    + intros Hseen. now destruct (Hp Hseen).
    + now left.
    + apply IH.
    + intros Hseen. now destruct (Hp Hseen).
    + now right.
  - destruct (maxDepth_ <? S depth); [now left | apply IH].
Qed.

(** A run whose token is cancelled from the look numbered [c] on returns
    within [c] more iterations than looks already made. *)
Lemma pagingLoop_returns_cancelled (c fuel : nat) (n : N) (v : ViewBase N St) :
  isCancellationRequested token_ c = true ->
  c - looks v < fuel ->
  fst (paging fuel n v) <> OutOfFuel.
Proof.
  intros Hc. revert v.
  induction fuel as [|fuel IH]; intros v Hfuel; [lia|]. cbn [pagingLoop].
  destruct (look token_ v) as [b v1] eqn:Hl1.
  assert (H1 : looks v1 = S (looks v)
               /\ b = isCancellationRequested token_ (looks v))
    by (inversion Hl1; auto).
  destruct H1 as (Hk1 & Hb).
  destruct b; [discriminate|].
  assert (Hlt : looks v < c).
  { destruct (Nat.lt_ge_cases (looks v) c) as [?|Hge]; [assumption|].
    rewrite (cancelled_later _ _ _ Hc Hge) in Hb. discriminate. }
  pose proof (callGetChildren_looks n
                (showMoreNodeChildren n defaultPageSize v1)) as Hgl.
  destruct (callGetChildren n (showMoreNodeChildren n defaultPageSize v1))
    as [r v3]. simpl in Hgl.
  destruct (look token_ v3) as [c2 v4] eqn:Hl2.
  assert (Hk4 : looks v4 = S (looks v3)) by (inversion Hl2; reflexivity).
  destruct (if c2 then Normal [] else r) as [paged|e]; [|discriminate].
  destruct (List.find predicate paged); [discriminate|].
  destruct (negb (hasMore n (nodes v4))); [discriminate|].
  apply IH. lia.
Qed.

Lemma bfsLoop_returns_cancelled (c fuel : nat) (queue : list (option N))
    (depth : nat) (v : ViewBase N St) :
  isCancellationRequested token_ c = true ->
  c - looks v < fuel ->
  fst (bfs fuel queue depth v) <> OutOfFuel.
Proof.
  intros Hc. revert queue depth v.
  induction fuel as [|fuel IH]; intros queue depth v Hfuel; [lia|].
  cbn [bfsLoop].
  destruct (length queue <=? 1); [discriminate|].
  destruct (look token_ v) as [b v1] eqn:Hl1.
  assert (H1 : looks v1 = S (looks v)
               /\ b = isCancellationRequested token_ (looks v))
    by (inversion Hl1; auto).
  destruct H1 as (Hk1 & Hb).
  destruct b; [discriminate|].
  assert (Hlt : looks v < c).
  { destruct (Nat.lt_ge_cases (looks v) c) as [?|Hge]; [assumption|].
    rewrite (cancelled_later _ _ _ Hc Hge) in Hb. discriminate. }
  destruct queue as [|[node|] rest]; [discriminate| |].
  - destruct (predicate node); [discriminate|].
    destruct (negb (traversable canTraverse_ node)).
    { apply IH. simpl. lia. }
    pose proof (callGetChildren_looks node (record (Visit node) v1)) as Hgl.
    destruct (callGetChildren node (record (Visit node) v1)) as [r v2].
    simpl in Hgl.
    destruct r as [children|e]; [|discriminate].
    destruct (length children =? 0); [apply IH; lia|].
    destruct (isPageable node); [|apply IH; lia].
    destruct (List.find predicate children); [discriminate|].
    destruct (allowPaging_ && hasMore node (nodes v2)); [|apply IH; lia].
    pose proof (pagingLoop_returns_cancelled c fuel node v2 Hc) as Hp.
    pose proof (pagingLoop_looks fuel node v2) as Hpl.
    destruct (paging fuel node v2) as [[[r'|]|e|] v3]; simpl in *;
      try discriminate.
    + apply IH. lia.
    + exfalso. apply Hp; [lia | reflexivity].
  - destruct (maxDepth_ <? S depth); [discriminate|].
    apply IH. lia.
Qed.

Section DepthBound.
Variable child_of : N -> N -> Prop.
Hypothesis sound :
  forall n s cs s',
    node_getChildren n s = (Normal cs, s') -> forall c, In c cs -> child_of n c.
Variable root : N.

Abbreviation within := (reachedWithin child_of isPageable root maxDepth_).
Abbreviation below := (descends child_of isPageable root).

Lemma bfsLoop_within (fuel : nat) (front back : list N) (depth : nat)
    (v : ViewBase N St) :
  Forall (below depth) front ->
  Forall (below (S depth)) back ->
  depth <= maxDepth_ ->
  exists evs,
    steps (snd (bfs fuel (map Some front ++ None :: map Some back) depth v))
      = steps v ++ evs /\
    Forall within evs.
Proof.
  revert front back depth v.
  induction fuel as [|fuel IH]; intros front back depth v Hf Hb Hd;
    cbn [bfsLoop].
  { exists []. now rewrite app_nil_r. }
  destruct (length _ <=? 1). { exists []. now rewrite app_nil_r. }
  destruct (look token_ v) as [c v1] eqn:Hl1.
  assert (H1 : steps v1 = steps v) by (inversion Hl1; reflexivity).
  destruct c. { exists []. simpl. now rewrite H1, app_nil_r. }
  destruct front as [|node front]; simpl.
  - (* the level marker *)
    destruct (maxDepth_ <? S depth) eqn:Hm.
    { exists []. simpl. now rewrite H1, app_nil_r. }
    apply Nat.ltb_ge in Hm.
    destruct (IH back [] (S depth) v1 Hb (List.Forall_nil _) Hm)
      as (evs & He & Hall).
    exists evs. simpl in He. rewrite He, H1. auto.
  - (* a node takes its turn *)
    apply Forall_cons in Hf as [Hnode Hf].
    assert (Hw : forall e, stepNode e = node -> within e).
    { intros e <-. exists depth. auto. }
    assert (Hv : steps (record (Visit node) v1) = steps v ++ [Visit node])
      by (simpl; now rewrite H1).
    assert (Hvisit : Forall within [Visit node]).
    { constructor; [now apply Hw | constructor]. }
    destruct (predicate node). { eauto. }
    destruct (negb (traversable canTraverse_ node)).
    { destruct (IH front back depth (record (Visit node) v1) Hf Hb Hd)
        as (evs & He & Hall).
      exists ([Visit node] ++ evs). split.
      - rewrite He, Hv. now rewrite <- app_assoc.
      - apply Forall_app. auto. }
    pose proof (callGetChildren_steps node (record (Visit node) v1)) as Hg.
    pose proof (callGetChildren_result node (record (Visit node) v1)) as Hr.
    destruct (callGetChildren node (record (Visit node) v1)) as [r v2].
    simpl in Hg, Hr. rewrite H1 in Hg.
    assert (H2 : steps v2 = steps v ++ [Visit node; GetChildrenOf node])
      by (rewrite Hg; now rewrite <- app_assoc).
    assert (Hhere : Forall within [Visit node; GetChildrenOf node]).
    { constructor; [now apply Hw|]. constructor; [now apply Hw | constructor]. }
    assert (Hcont : forall front' back' v',
      Forall (below depth) front' -> Forall (below (S depth)) back' ->
      (exists evs', steps v' = steps v2 ++ evs' /\ Forall within evs') ->
      exists evs,
        steps (snd (bfs fuel (map Some front' ++ None :: map Some back')
                      depth v')) = steps v ++ evs /\ Forall within evs).
    { intros front' back' v' Hf' Hb' (evs' & He' & Hall').
      destruct (IH front' back' depth v' Hf' Hb' Hd) as (evs & He & Hall).
      exists ([Visit node; GetChildrenOf node] ++ evs' ++ evs). split.
      - rewrite He, He', H2. now rewrite <- !app_assoc.
      - apply Forall_app. split; [exact Hhere|]. apply Forall_app. auto. }
    assert (Hsame : exists evs', steps v2 = steps v2 ++ evs' /\ Forall within evs').
    { exists []. now rewrite app_nil_r. }
    destruct r as [children|e]. 2: { eauto. }
    destruct (length children =? 0). { now apply Hcont. }
    destruct (isPageable node) eqn:Hpg.
    + destruct (List.find predicate children). { eauto. }
      destruct (allowPaging_ && hasMore node (nodes v2)).
      2: { now apply Hcont. }
      destruct (pagingLoop_steps fuel node v2) as (evs' & He' & Hall').
      assert (Hall'' : Forall within evs').
      { eapply Forall_impl; [exact Hall'|].
        intros e [-> | ->]; apply Hw; reflexivity. }
      destruct (paging fuel node v2) as [[[r'|]|e|] v3]; simpl in He'.
      2: { apply Hcont; eauto. }
      all: exists ([Visit node; GetChildrenOf node] ++ evs').
      all: split; [simpl; rewrite He', H2; now rewrite <- !app_assoc|].
      all: apply Forall_app; auto.
    + rewrite <- app_assoc. simpl. rewrite <- map_app.
      apply Hcont; auto.
      apply Forall_app. split; [exact Hb|].
      apply Forall_forall. intros c Hc.
      apply descends_child with (p := node); auto.
      destruct (node_getChildren node (nodes v1)) as [r0 s0] eqn:Hgc.
      simpl in Hr. subst r0.
      eapply sound; [exact Hgc|]. now apply list_elem_of_In.
Qed.

End DepthBound.

End Loops.

Section FindNode.
Context {N St : Type} {ops : ViewNodeOps N St}.
Variable getRoot : N.
Variable defaultPageSize : nat.

Lemma ensureRoot_frame (force : bool) (v : ViewBase N St) :
  let v1 := snd (ensureRoot getRoot force v) in
  steps v1 = steps v /\ nodes v1 = nodes v /\ looks v1 = looks v /\
  _lastKnownLimits v1 = _lastKnownLimits v /\ fired v1 = fired v /\
  logged v1 = logged v.
Proof.
  unfold ensureRoot. destruct (_root v); destruct force; simpl; auto 10.
Qed.

Lemma findNode_unfold (fuel : nat) (predicate : string + (N -> bool))
    (options : option (FindOptions N)) (v : ViewBase N St) :
  let o := default noOptions options in
  findNode getRoot defaultPageSize fuel predicate options v
  = match
      bfsLoop defaultPageSize (asPredicate predicate)
        (default false (allowPaging o)) (canTraverse o)
        (default 2 (maxDepth o)) (token o) fuel
        [Some (fst (ensureRoot getRoot false v)); None] 0
        (snd (ensureRoot getRoot false v))
    with
    | (Thrown e, v2) => (Done None, logError e v2)
    | r => r
    end.
Proof.
  unfold findNode, findNodeCoreBFS.
  now destruct (ensureRoot getRoot false v).
Qed.

Lemma newSteps_app (v v' : ViewBase N St) (evs : list (Step N)) :
  steps v' = steps v ++ evs -> newSteps v v' = evs.
Proof. intros He. unfold newSteps. rewrite He. apply drop_app_length. Qed.

Lemma descends_atDepth (child_of : N -> N -> Prop) (pg : N -> bool)
    (root : N) (d : nat) (n : N) :
  descends child_of pg root d n -> atDepth child_of root d n.
Proof. induction 1; econstructor; eauto. Qed.

Section Reached.
Variable child_of : N -> N -> Prop.
Hypothesis sound :
  forall n s cs s',
    node_getChildren n s = (Normal cs, s') -> forall c, In c cs -> child_of n c.

(** Every step of a search is on a node reached through ancestors that do
    not page, at most [maxDepth] levels below the root. *)
Lemma findNode_reached (fuel : nat) (predicate : string + (N -> bool))
    (options : option (FindOptions N)) (v : ViewBase N St) :
  Forall
    (reachedWithin child_of isPageable (fst (ensureRoot getRoot false v))
       (default 2 (maxDepth (default noOptions options))))
    (newSteps v
       (snd (findNode getRoot defaultPageSize fuel predicate options v))).
Proof.
  rewrite findNode_unfold. cbv zeta.
  set (o := default noOptions options).
  set (root := fst (ensureRoot getRoot false v)).
  set (v1 := snd (ensureRoot getRoot false v)).
  destruct (ensureRoot_frame false v) as (Hs & _).
  fold v1 in Hs.
  destruct (bfsLoop_within defaultPageSize (asPredicate predicate)
              (default false (allowPaging o)) (canTraverse o)
              (default 2 (maxDepth o)) (token o) child_of sound root
              fuel [root] [] 0 v1) as (evs & He & Hall).
  - constructor; [constructor | constructor].
  - constructor.
  - lia.
  - simpl in He. rewrite Hs in He.
    destruct (bfsLoop _ _ _ _ _ _ _ _ _ _) as [[r|e|] v2]; simpl in *.
    all: now rewrite (newSteps_app _ _ evs).
Qed.

Lemma deeper_not_reached (root : N) (m : nat) (n : N) (d : nat)
    (evs : list (Step N)) :
  (forall n' d1 d2,
     atDepth child_of root d1 n' -> atDepth child_of root d2 n' -> d1 = d2) ->
  atDepth child_of root d n -> m < d ->
  Forall (reachedWithin child_of isPageable root m) evs ->
  forall e, In e evs -> stepNode e <> n.
Proof.
  intros Htree Hd Hlt Hall e He Hn.
  rewrite Forall_forall in Hall.
  destruct (Hall e) as (d0 & Hle & Hdesc); [now apply list_elem_of_In|].
  apply descends_atDepth in Hdesc. rewrite Hn in Hdesc.
  specialize (Htree n d0 d Hdesc Hd). lia.
Qed.

(** The children of a Pageable node get no turn of their own: a node whose
    only parent pages is not the node of any step of a search, unless it is
    the root. *)
Lemma pageable_children_skipped (fuel : nat)
    (predicate : string + (N -> bool)) (options : option (FindOptions N))
    (v : ViewBase N St) (p c : N) :
  isPageable p = true ->
  (forall p', child_of p' c -> p' = p) ->
  c <> fst (ensureRoot getRoot false v) ->
  forall e,
    In e (newSteps v
            (snd (findNode getRoot defaultPageSize fuel predicate options v))) ->
    stepNode e <> c.
Proof.
  intros Hpg Honly Hroot e He Hc.
  pose proof (findNode_reached fuel predicate options v) as Hall.
  rewrite Forall_forall in Hall.
  destruct (Hall e) as (d & _ & Hdesc); [now apply list_elem_of_In|].
  rewrite Hc in Hdesc. inversion Hdesc as [|d' p' c' _ Hnp Hchild]; subst.
  - now apply Hroot.
  - apply Honly in Hchild. subst p'. congruence.
Qed.

(** C4. In a tree (every node lies at one depth below the root) a search
    with [maxDepth = m] takes no node at depth [m + 1] or deeper from the
    queue and calls [getChildren] on none, however long it runs. *)
Theorem findNode_depth_bound (fuel : nat) (predicate : string + (N -> bool))
    (o : FindOptions N) (m : nat) (v : ViewBase N St) :
  (forall n d1 d2,
     atDepth child_of (fst (ensureRoot getRoot false v)) d1 n ->
     atDepth child_of (fst (ensureRoot getRoot false v)) d2 n -> d1 = d2) ->
  maxDepth o = Some m ->
  forall n d,
    atDepth child_of (fst (ensureRoot getRoot false v)) d n -> m < d ->
    ~ In (GetChildrenOf n)
        (newSteps v
           (snd (findNode getRoot defaultPageSize fuel predicate (Some o) v)))
    /\
    ~ In (Visit n)
        (newSteps v
           (snd (findNode getRoot defaultPageSize fuel predicate (Some o) v))).
Proof.
  intros Htree Hm n d Hd Hlt.
  pose proof (findNode_reached fuel predicate (Some o) v) as Hall.
  simpl in Hall. rewrite Hm in Hall. simpl in Hall.
  split; intros Hin.
  - now apply (deeper_not_reached _ m n d _ Htree Hd Hlt Hall
                 (GetChildrenOf n) Hin).
  - now apply (deeper_not_reached _ m n d _ Htree Hd Hlt Hall
                 (Visit n) Hin).
Qed.

End Reached.

(** C6. A search whose token is already cancelled answers [undefined] at the
    first look at the token: no node is taken from the queue, [getChildren]
    and [showMore] are called on no node, and the node store and the
    last-known limits are as before. *)
Theorem findNode_precancelled (fuel : nat) (predicate : string + (N -> bool))
    (o : FindOptions N) (v : ViewBase N St) :
  isCancellationRequested (token o) (looks v) = true ->
  fst (findNode getRoot defaultPageSize (S fuel) predicate (Some o) v)
    = Done None /\
  newSteps v (snd (findNode getRoot defaultPageSize (S fuel) predicate (Some o) v))
    = [] /\
  nodes (snd (findNode getRoot defaultPageSize (S fuel) predicate (Some o) v))
    = nodes v /\
  _lastKnownLimits
    (snd (findNode getRoot defaultPageSize (S fuel) predicate (Some o) v))
    = _lastKnownLimits v.
Proof.
  intros Hc. rewrite findNode_unfold. cbv zeta.
  change (default noOptions (Some o)) with o. cbn [bfsLoop].
  destruct (ensureRoot_frame false v) as (Hs & Hn & Hl & Hk & _).
  change (length [Some (fst (ensureRoot getRoot false v)); None] <=? 1)
    with false. cbv iota.
  unfold look. rewrite Hl, Hc. simpl.
  repeat split; auto.
  unfold newSteps. rewrite Hs. apply drop_all.
Qed.

(** A search whose token is cancelled from the look numbered [c] on
    returns, and it answers [undefined] when its latest look at the token
    found it cancelled. *)
Lemma findNode_cancelled (c fuel : nat) (predicate : string + (N -> bool))
    (o : FindOptions N) (v : ViewBase N St) :
  isCancellationRequested (token o) c = true ->
  c - looks v < fuel ->
  fst (findNode getRoot defaultPageSize fuel predicate (Some o) v)
    <> OutOfFuel /\
  (0 < looks (snd (findNode getRoot defaultPageSize fuel predicate (Some o) v)) ->
   isCancellationRequested (token o)
     (looks (snd (findNode getRoot defaultPageSize fuel predicate (Some o) v))
      - 1) = true ->
   fst (findNode getRoot defaultPageSize fuel predicate (Some o) v)
     = Done None).
Proof.
  intros Hc Hfuel. rewrite findNode_unfold. cbv zeta.
  change (default noOptions (Some o)) with o.
  destruct (ensureRoot_frame false v) as (_ & _ & Hl & _).
  set (root := fst (ensureRoot getRoot false v)) in *.
  set (v1 := snd (ensureRoot getRoot false v)) in *.
  pose proof (bfsLoop_returns_cancelled defaultPageSize
                (asPredicate predicate) (default false (allowPaging o))
                (canTraverse o) (default 2 (maxDepth o)) (token o)
                c fuel [Some root; None] 0 v1 Hc) as Hret.
  pose proof (bfsLoop_seen defaultPageSize
                (asPredicate predicate) (default false (allowPaging o))
                (canTraverse o) (default 2 (maxDepth o)) (token o)
                fuel [Some root; None] 0 v1) as Hseen.
  rewrite Hl in Hret. specialize (Hret Hfuel).
  destruct (bfsLoop _ _ _ _ _ _ _ _ _ _) as [[r|e|] v2]; simpl in *.
  - split; [discriminate|]. intros Hpos Hlast.
    destruct Hseen as [Hs|Hs]; auto; discriminate.
  - split; [discriminate | reflexivity].
  - now contradict Hret.
Qed.

End FindNode.

End SearchFacts.

(** ** Searches over trees of paged nodes *)

Module PagedFacts.
Import View Paged.

Lemma paged_sound (T : Tree) (n : nat) (s : gmap nat nat) (cs : list nat)
    (s' : gmap nat nat) :
  node_getChildren (ViewNodeOps := paged_ops T) n s = (Normal cs, s') ->
  forall c, In c cs -> itemOf T n c.
Proof.
  simpl. intros Heq c Hc. inversion Heq; subst. unfold itemOf.
  unfold childrenOf in Hc. destruct (pageable T n); [|exact Hc].
  apply list_elem_of_In. apply list_elem_of_In in Hc.
  eapply subseteq_take, Hc.
Qed.

Lemma chain_depth (d n : nat) : atDepth (itemOf chain) 0 d n -> n = d.
Proof.
  induction 1 as [|d p c _ IH Hc]; [reflexivity|].
  unfold itemOf in Hc. simpl in Hc. destruct Hc as [<-|[]]. now subst.
Qed.

Lemma chain_is_tree (n d1 d2 : nat) :
  atDepth (itemOf chain) 0 d1 n -> atDepth (itemOf chain) 0 d2 n -> d1 = d2.
Proof. intros H1 H2. apply chain_depth in H1, H2. congruence. Qed.

Lemma chain_diagonal (n : nat) : atDepth (itemOf chain) 0 n n.
Proof.
  induction n as [|n IH]; [constructor|].
  apply atDepth_child with (p := n); [exact IH | now left].
Qed.

(** On the endless chain a search with [maxDepth = 2] stops after the nodes
    0, 1 and 2. *)
Example chain_search_steps :
  findNode (ops := paged_ops chain) 0 10 50 noMatch
    (Some (withMaxDepth 2 noOptions)) chainView
  = (Done None,
     {| _root := Some 0; _lastKnownLimits := ∅; nodes := ∅; fired := [];
        logged := [];
        steps := [Visit 0; GetChildrenOf 0; Visit 1; GetChildrenOf 1;
                  Visit 2; GetChildrenOf 2];
        looks := 6 |}).
Proof. vm_compute. reflexivity. Qed.

Lemma findNode_depth_bound_witness :
  ~ In (GetChildrenOf 3)
      (newSteps chainView
         (snd (findNode (ops := paged_ops chain) 0 10 50 noMatch
                 (Some (withMaxDepth 2 noOptions)) chainView)))
  /\
  ~ In (Visit 3)
      (newSteps chainView
         (snd (findNode (ops := paged_ops chain) 0 10 50 noMatch
                 (Some (withMaxDepth 2 noOptions)) chainView))).
Proof.
  apply (SearchFacts.findNode_depth_bound (ops := paged_ops chain) 0 10
           (itemOf chain) (paged_sound chain) 50 noMatch
           (withMaxDepth 2 noOptions) 2 chainView chain_is_tree eq_refl
           3 3 (chain_diagonal 3)).
  lia.
Defined.

Lemma findNode_precancelled_witness :
  fst (findNode (ops := paged_ops chain) 0 10 1 noMatch
         (Some {| allowPaging := Some true; canTraverse := None;
                  maxDepth := None; token := Some cancelledToken |})
         chainView)
    = Done None /\
  newSteps chainView
    (snd (findNode (ops := paged_ops chain) 0 10 1 noMatch
            (Some {| allowPaging := Some true; canTraverse := None;
                     maxDepth := None; token := Some cancelledToken |})
            chainView))
    = [] /\
  nodes
    (snd (findNode (ops := paged_ops chain) 0 10 1 noMatch
            (Some {| allowPaging := Some true; canTraverse := None;
                     maxDepth := None; token := Some cancelledToken |})
            chainView))
    = nodes chainView /\
  _lastKnownLimits
    (snd (findNode (ops := paged_ops chain) 0 10 1 noMatch
            (Some {| allowPaging := Some true; canTraverse := None;
                     maxDepth := None; token := Some cancelledToken |})
            chainView))
    = _lastKnownLimits chainView.
Proof.
  apply (SearchFacts.findNode_precancelled (ops := paged_ops chain) 0 10 0
           noMatch
           {| allowPaging := Some true; canTraverse := None;
              maxDepth := None; token := Some cancelledToken |}
           chainView).
  reflexivity.
Defined.

(** *** The paging loop on a prefix window *)

Lemma find_take_none (predicate : nat -> bool) (l : list nat) (n : nat) :
  (forall i y, i < n -> l !! i = Some y -> predicate y = false) ->
  List.find predicate (take n l) = None.
Proof.
  revert n. induction l as [|a l IH]; intros n Hnone.
  - now rewrite take_nil.
  - destruct n as [|n]; [reflexivity|]. simpl.
    rewrite (Hnone 0 a); [|lia|reflexivity].
    apply IH. intros i y Hi Hy. apply (Hnone (S i) y); [lia | exact Hy].
Qed.

Lemma find_take_first (predicate : nat -> bool) (l : list nat) (n i x : nat) :
  l !! i = Some x -> predicate x = true ->
  (forall i' y, i' < i -> l !! i' = Some y -> predicate y = false) ->
  i < n ->
  List.find predicate (take n l) = Some x.
Proof.
  revert n i. induction l as [|a l IH]; intros n i Hx Hp Hfirst Hlt.
  - discriminate.
  - destruct n as [|n]; [lia|]. simpl. destruct i as [|i].
    + simpl in Hx. inversion Hx; subst. now rewrite Hp.
    + rewrite (Hfirst 0 a); [|lia|reflexivity].
      apply (IH n i); [exact Hx | exact Hp | | lia].
      intros i' y Hi' Hy. apply (Hfirst (S i') y); [lia | exact Hy].
Qed.

Section PagedLoops.
Variable T : Tree.
Variable pageSize : nat.
Variable predicate : nat -> bool.
Variable allowPaging_ : bool.
Variable canTraverse_ : option (nat -> bool).
Variable maxDepth_ : nat.
Variable token_ : option CancellationToken.

Abbreviation paging :=
  (pagingLoop (ops := paged_ops T) pageSize predicate token_).
Abbreviation bfs :=
  (bfsLoop (ops := paged_ops T) pageSize predicate allowPaging_ canTraverse_
     maxDepth_ token_).

Lemma showMore_window (p : nat) (v : ViewBase nat (gmap nat nat)) :
  windowOf T p (nodes (showMoreNodeChildren (ops := paged_ops T) p pageSize v))
  = windowOf T p (nodes v) + pageSize.
Proof.
  unfold showMoreNodeChildren, windowOf. simpl. now rewrite lookup_insert_eq.
Qed.

(** Without cancellation, the first match of the items, at index [i] beyond
    the window, is returned by round [(i - window) / pageSize + 1] of the
    paging loop, the first round whose window holds it. *)
Lemma paging_finds (p i x : nat) :
  pageable T p = true ->
  (forall l, isCancellationRequested token_ l = false) ->
  items T p !! i = Some x -> predicate x = true ->
  (forall i' y, i' < i -> items T p !! i' = Some y -> predicate y = false) ->
  forall j fuel v,
    windowOf T p (nodes v) + j * pageSize <= i ->
    i < windowOf T p (nodes v) + S j * pageSize ->
    j < fuel ->
    exists v',
      paging fuel p v = (Done (Return (Some x)), v') /\
      steps v' = steps v ++ roundSteps p pageSize (S j) /\
      windowOf T p (nodes v') = windowOf T p (nodes v) + S j * pageSize.
Proof.
  intros Hpg Hnever Hx Hp Hfirst.
  induction j as [|j IH]; intros fuel v Hlo Hhi Hfuel.
  - destruct fuel as [|fuel]; [lia|]. cbn [pagingLoop].
    unfold look at 1. rewrite Hnever.
    set (v1 := {| _root := _root v; looks := S (looks v);
                  _lastKnownLimits := _lastKnownLimits v; nodes := nodes v;
                  fired := fired v; logged := logged v; steps := steps v |}).
    pose proof (showMore_window p v1) as Hw.
    set (v2 := showMoreNodeChildren p pageSize v1) in *.
    unfold callGetChildren. cbn [node_getChildren paged_ops].
    unfold look. rewrite Hnever.
    unfold childrenOf. rewrite Hpg, Hw.
    rewrite (find_take_first predicate (items T p) _ i x Hx Hp Hfirst)
      by (simpl; simpl in Hhi; lia).
    eexists. split; [reflexivity|]. simpl. split.
    + now rewrite <- app_assoc.
    + unfold windowOf. rewrite lookup_insert_eq. simpl. lia.
  - destruct fuel as [|fuel]; [lia|]. cbn [pagingLoop].
    unfold look at 1. rewrite Hnever.
    set (v1 := {| _root := _root v; looks := S (looks v);
                  _lastKnownLimits := _lastKnownLimits v; nodes := nodes v;
                  fired := fired v; logged := logged v; steps := steps v |}).
    pose proof (showMore_window p v1) as Hw.
    set (v2 := showMoreNodeChildren p pageSize v1) in *.
    unfold callGetChildren. cbn [node_getChildren paged_ops].
    unfold look. rewrite Hnever.
    unfold childrenOf. rewrite Hpg, Hw.
    rewrite find_take_none.
    2: { intros i' y Hi' Hy. apply (Hfirst i' y); [|exact Hy].
         simpl in Hi', Hlo. lia. }
    cbn [hasMore paged_ops nodes].
    assert (Hlen : i < length (items T p)) by (eapply lookup_lt_Some; eauto).
    rewrite Hpg.
    match goal with
    | |- context [negb (true && (?a <? ?b))] =>
        replace (a <? b) with true
    end.
    2: { symmetry. apply Nat.ltb_lt. cbn [nodes setNodes]. rewrite Hw.
         simpl in Hlo. simpl. lia. }
    simpl negb. cbv iota.
    match goal with
    | |- context [paging fuel p ?v4] =>
        destruct (IH fuel v4) as (v' & Hrun & Hsteps & Hwin)
    end.
    + cbn [nodes setNodes]. rewrite Hw. simpl in Hlo. simpl. lia.
    + cbn [nodes setNodes]. rewrite Hw. simpl in Hhi. simpl. lia.
    + lia.
    + exists v'. split; [exact Hrun|]. split.
      * rewrite Hsteps. simpl. unfold roundSteps. simpl.
        now rewrite <- !app_assoc.
      * rewrite Hwin. cbn [nodes setNodes]. rewrite Hw. simpl. lia.
Qed.

(** With a positive page size the paging loop leaves, and not by an
    exception, within as many rounds as items lie beyond the window. *)
Lemma paging_terminates (p : nat) :
  0 < pageSize ->
  forall fuel v,
    length (items T p) - windowOf T p (nodes v) < fuel ->
    exists exit, fst (paging fuel p v) = Done exit.
Proof.
  intros Hk. induction fuel as [|fuel IH]; intros v Hfuel; [lia|].
  cbn [pagingLoop]. unfold look at 1.
  destruct (isCancellationRequested token_ (looks v)); [simpl; eauto|].
  set (v1 := {| _root := _root v; looks := S (looks v);
                _lastKnownLimits := _lastKnownLimits v; nodes := nodes v;
                fired := fired v; logged := logged v; steps := steps v |}).
  pose proof (showMore_window p v1) as Hw.
  set (v2 := showMoreNodeChildren p pageSize v1) in *.
  unfold callGetChildren. cbn [node_getChildren paged_ops]. unfold look.
  destruct (isCancellationRequested token_ _).
  - cbn [List.find hasMore paged_ops nodes setNodes].
    destruct (negb _) eqn:Hmore; [simpl; eauto|].
    apply negb_false_iff, andb_true_iff in Hmore as [_ Hlt].
    apply Nat.ltb_lt in Hlt. rewrite Hw in Hlt. simpl in Hlt.
    apply IH. cbn [nodes setNodes]. rewrite Hw. simpl. lia.
  - destruct (List.find predicate _); [simpl; eauto|].
    cbn [hasMore paged_ops nodes setNodes].
    destruct (negb _) eqn:Hmore; [simpl; eauto|].
    apply negb_false_iff, andb_true_iff in Hmore as [_ Hlt].
    apply Nat.ltb_lt in Hlt. rewrite Hw in Hlt. simpl in Hlt.
    apply IH. cbn [nodes setNodes]. rewrite Hw. simpl. lia.
Qed.

(** The turn of a Pageable node whose window is not empty and holds no
    match, with paging allowed and more to show: after the visit and the
    reading of the children the paging loop runs; when it leaves by [break]
    the queue goes on with what stood behind the node. *)
Lemma visit_pageable (p : nat) (rest : list (option nat)) (depth fuel : nat)
    (v : ViewBase nat (gmap nat nat)) :
  pageable T p = true ->
  rest <> [] ->
  predicate p = false ->
  traversable canTraverse_ p = true ->
  allowPaging_ = true ->
  isCancellationRequested token_ (looks v) = false ->
  0 < windowOf T p (nodes v) ->
  windowOf T p (nodes v) < length (items T p) ->
  List.find predicate (take (windowOf T p (nodes v)) (items T p)) = None ->
  bfs (S fuel) (Some p :: rest) depth v
  = match
      paging fuel p
        (snd (callGetChildren (ops := paged_ops T) p
                (record (Visit p) (snd (look token_ v)))))
    with
    | (Done (Return r), v3) => (Done r, v3)
    | (Done Break, v3) => bfs fuel rest depth v3
    | (Thrown e, v3) => (Thrown e, v3)
    | (OutOfFuel, v3) => (OutOfFuel, v3)
    end.
Proof.
  intros Hpg Hrest Hnotp Htrav Hallow Hlook Hwin Hmore Hnone.
  cbn [bfsLoop].
  destruct rest as [|r0 rest]; [congruence|].
  change (length (Some p :: r0 :: rest) <=? 1) with false. cbv iota.
  destruct (look token_ v) as [c v1] eqn:Hl.
  assert (H1 : c = false /\ nodes v1 = nodes v).
  { unfold look in Hl. inversion Hl; subst. auto. }
  destruct H1 as [-> Hn1]. cbn [snd].
  rewrite Hnotp, Htrav. simpl negb. cbv iota.
  destruct (callGetChildren p (record (Visit p) v1)) as [r v2] eqn:Hg.
  assert (H2 : r = Normal (take (windowOf T p (nodes v)) (items T p))
               /\ nodes v2 = nodes v).
  { unfold callGetChildren in Hg. simpl in Hg. unfold childrenOf in Hg.
    rewrite Hpg, Hn1 in Hg. inversion Hg; subst. auto. }
  destruct H2 as [-> Hn2]. cbn [snd].
  assert (Hlen : (length (take (windowOf T p (nodes v)) (items T p)) =? 0)
                 = false).
  { apply Nat.eqb_neq. rewrite length_take. lia. }
  rewrite Hlen. cbn [isPageable paged_ops]. rewrite Hpg, Hnone, Hallow.
  cbn [hasMore paged_ops]. rewrite Hpg, Hn2.
  apply Nat.ltb_lt in Hmore. rewrite Hmore. reflexivity.
Qed.

End PagedLoops.

(** On the shelf, two of five items shown and one more per round, the
    search for item 5 pages three times. *)
Example shelf_search_steps :
  findNode (ops := paged_ops shelf) 0 1 50 (isNode 5) (Some pagingOptions)
    shelfView
  = (Done (Some 5),
     {| _root := Some 0; _lastKnownLimits := {[ "0" := Some 5 ]};
        nodes := {[ 0 := 5 ]}; fired := []; logged := [];
        steps := [Visit 0; GetChildrenOf 0; ShowMoreOf 0 1; GetChildrenOf 0;
                  ShowMoreOf 0 1; GetChildrenOf 0; ShowMoreOf 0 1;
                  GetChildrenOf 0];
        looks := 7 |}).
Proof. vm_compute. reflexivity. Qed.

Lemma shelf_first_match (i' y : nat) :
  i' < 4 -> items shelf 0 !! i' = Some y -> Nat.eqb 5 y = false.
Proof.
  intros Hlt Hy. destruct i' as [|[|[|[|i']]]]; simpl in Hy; try lia.
  all: inversion Hy; reflexivity.
Qed.


End PagedFacts.

(** ** More on the repositories container *)

Module RepositoriesMoreFacts.
Import Repositories RepositoriesMore RepositoriesFacts.

(** *** Loading *)

Lemma buildChildren_closed_form (repos : list Repository)
    (acc : list ChildNode) (st : State) :
  let opens := List.filter isOpen repos in
  fst (buildChildren repos acc st) = acc ++ freshNodes (nextObj st) opens /\
  _children (snd (buildChildren repos acc st)) = _children st /\
  nextObj (snd (buildChildren repos acc st)) = nextObj st + length opens /\
  effects (snd (buildChildren repos acc st))
    = effects st ++ map Construct (freshNodes (nextObj st) opens).
Proof.
  revert acc st. induction repos as [|r repos IH]; intros acc st;
    cbn [buildChildren List.filter].
  - simpl. rewrite !app_nil_r. auto.
  - change (isOpen r) with (negb (closed r)).
    destruct (closed r); cbn [negb]; cbv iota zeta; [apply IH|].
    destruct (IH (acc ++ [RepositoryNode (nextObj st) (path r) r])
                (snd (newRepositoryNode r st))) as (H1 & H2 & H3 & H4).
    unfold newRepositoryNode in *. cbn [fst snd] in *.
    rewrite H1, H2, H3, H4. cbn [freshNodes map length].
    cbn [emit _children nextObj effects].
    rewrite <- !app_assoc. cbn [app].
    split; [reflexivity|]. split; [reflexivity|]. split; [lia | reflexivity].
Qed.

Lemma freshNodes_repositories (o : nat) (repos : list Repository) :
  allRepositoryNodes (freshNodes o repos).
Proof.
  revert o. induction repos as [|r repos IH]; intros o; simpl;
    constructor; [reflexivity | apply IH].
Qed.

Lemma freshNodes_objects (o : nat) (repos : list Repository) :
  map objOf (freshNodes o repos) = seq o (length repos).
Proof.
  revert o. induction repos as [|r repos IH]; intros o; simpl;
    [reflexivity | now rewrite IH].
Qed.

Lemma sortByIndex_nonempty (repos : list Repository) :
  repos <> [] -> sortByIndex repos <> [].
Proof.
  intros Hne Hnil. apply Hne. apply length_zero_iff_nil.
  rewrite <- sortByIndex_length, Hnil. reflexivity.
Qed.

Lemma filter_sorted (f : Repository -> bool) (l : list Repository) :
  StronglySorted indexLe l -> StronglySorted indexLe (List.filter f l).
Proof.
  induction 1 as [|r l Hs IH Hall]; simpl; [constructor|].
  destruct (f r); [|exact IH].
  constructor; [exact IH|].
  apply Forall_forall. intros x Hx. apply list_elem_of_In in Hx.
  apply filter_In in Hx as [Hx _].
  rewrite Forall_forall in Hall. apply Hall. now apply list_elem_of_In.
Qed.

(** X1. On an unloaded container with a non-empty collection,
    [getChildren] fetches once and lists one newly constructed node per
    open repository, in non-decreasing index order, with object identities
    never given out before; that list, possibly empty when every repository
    is closed, is what it caches. *)
Theorem getChildren_loads_open_repositories
    (repos : list Repository) (st : State) :
  _children st = None ->
  repos <> [] ->
  let opens := List.filter isOpen (sortByIndex repos) in
  let cs := freshNodes (nextObj st) opens in
  fst (getChildren (Normal repos) st) = Normal cs /\
  _children (snd (getChildren (Normal repos) st)) = Some cs /\
  effects (snd (getChildren (Normal repos) st))
    = effects st ++ FetchRepositories :: map Construct cs /\
  nextObj (snd (getChildren (Normal repos) st)) = nextObj st + length opens /\
  map objOf cs = seq (nextObj st) (length opens) /\
  StronglySorted indexLe opens /\
  (forall r, In r opens <-> In r repos /\ closed r = false).
Proof.
  intros Hc Hne opens cs. unfold getChildren. rewrite Hc.
  assert (Hlen : (length repos =? 0) = false).
  { apply Nat.eqb_neq. destruct repos; [congruence | discriminate]. }
  rewrite Hlen.
  destruct (buildChildren_closed_form (sortByIndex repos) []
              (emit FetchRepositories st)) as (H1 & H2 & H3 & H4).
  destruct (buildChildren (sortByIndex repos) [] (emit FetchRepositories st))
    as [children st2]. simpl in *. subst children.
  fold opens in H3, H4. fold opens. fold cs in H4. fold cs.
  split; [reflexivity|]. split; [reflexivity|].
  split; [rewrite H4; now rewrite <- app_assoc|].
  split; [exact H3|]. split; [apply freshNodes_objects|].
  split; [apply filter_sorted, sortByIndex_sorted|].
  intros r. unfold opens. rewrite filter_In. unfold isOpen.
  rewrite negb_true_iff. split; intros [Hin Hopen]; split; auto.
  - eapply Permutation_in; [symmetry; apply sortByIndex_perm | exact Hin].
  - eapply Permutation_in; [apply sortByIndex_perm | exact Hin].
Qed.

Lemma getChildren_loads_open_repositories_witness :
  fst (getChildren
         (Normal [repoAt "/r2" 1 false; repoAt "/r0" 2 true;
                  repoAt "/r1" 0 false]) unloaded)
    = Normal [RepositoryNode 0 "/r1" (repoAt "/r1" 0 false);
              RepositoryNode 1 "/r2" (repoAt "/r2" 1 false)].
Proof.
  destruct (getChildren_loads_open_repositories
              [repoAt "/r2" 1 false; repoAt "/r0" 2 true;
               repoAt "/r1" 0 false] unloaded) as [Hresult _].
  - reflexivity.
  - discriminate.
  - exact Hresult.
Defined.

(** X2. With an empty collection [getChildren] hands out a placeholder
    without caching it: the container stays unloaded, the next call fetches
    again and hands out another placeholder object, and a [refresh] in
    between does nothing at all, whatever the data source holds by then. *)
Theorem getChildren_empty_is_not_cached (st : State) :
  _children st = None ->
  let st1 := snd (getChildren (Normal []) st) in
  fst (getChildren (Normal []) st)
    = Normal [MessageNode (nextObj st) "No repositories found"] /\
  _children st1 = None /\
  fst (getChildren (Normal []) st1)
    = Normal [MessageNode (S (nextObj st)) "No repositories found"] /\
  effects (snd (getChildren (Normal []) st1))
    = effects st
      ++ [FetchRepositories;
          Construct (MessageNode (nextObj st) "No repositories found");
          FetchRepositories;
          Construct (MessageNode (S (nextObj st)) "No repositories found")] /\
  forall reason git, refresh reason git st1 = (Normal tt, st1).
Proof.
  intros Hc. unfold getChildren. rewrite Hc. simpl. rewrite Hc. simpl.
  split; [reflexivity|]. split; [reflexivity|]. split; [reflexivity|].
  split; [now rewrite <- !app_assoc|].
  intros reason git. reflexivity.
Qed.

Lemma getChildren_empty_is_not_cached_witness :
  fst (getChildren (Normal []) unloaded)
    = Normal [MessageNode 0 "No repositories found"] /\
  _children (snd (getChildren (Normal []) unloaded)) = None /\
  fst (getChildren (Normal []) (snd (getChildren (Normal []) unloaded)))
    = Normal [MessageNode 1 "No repositories found"] /\
  effects (snd (getChildren (Normal [])
                  (snd (getChildren (Normal []) unloaded))))
    = effects unloaded
      ++ [FetchRepositories;
          Construct (MessageNode 0 "No repositories found");
          FetchRepositories;
          Construct (MessageNode 1 "No repositories found")] /\
  forall reason git,
    refresh reason git (snd (getChildren (Normal []) unloaded))
    = (Normal tt, snd (getChildren (Normal []) unloaded)).
Proof.
  apply (getChildren_empty_is_not_cached unloaded). reflexivity.
Defined.

(** *** Reconciling *)

(** X3. Refreshing a cache of repository nodes (distinct objects, given out
    by this container) against a non-empty collection returns normally and
    caches one child per repository, closed ones included, in non-decreasing
    index order: the cached child of the same key, kept and refreshed, or a
    newly constructed node when no cached child has the key. A cached child
    whose key no repository carries is disposed exactly once, a kept child
    never; and [getChildren] afterwards answers the new list without
    fetching. *)
Theorem refresh_reconciles_and_caches (reason : option RefreshReason)
    (repos : list Repository) (st : State) (cached : list ChildNode) :
  _children st = Some cached ->
  allRepositoryNodes cached ->
  repos <> [] ->
  Forall (fun c => objOf c < nextObj st) cached ->
  NoDup (map objOf cached) ->
  exists children evs st',
    refresh reason (Normal repos) st = (Normal tt, st') /\
    effects st' = effects st ++ evs /\
    Permutation repos (sortByIndex repos) /\
    StronglySorted indexLe (sortByIndex repos) /\
    Forall2 (placed cached (nextObj st) evs) (sortByIndex repos) children /\
    (forall c, In c cached ->
       ((forall r, In r repos -> ~ keyed r c) ->
        count_occ Effect_eq_dec evs (ChildDispose (objOf c)) = 1) /\
       (In c children ->
        count_occ Effect_eq_dec evs (ChildDispose (objOf c)) = 0)) /\
    forall git, getChildren git st' = (Normal children, st').
Proof.
  intros Hc Hrepo Hne Hold Hnd.
  destruct (refresh_reconciles reason repos st cached Hc Hrepo Hne Hold Hnd)
    as (children & evs & st' & Hrun & Hch & He & Hall & Hdisp).
  exists children, evs, st'.
  split; [exact Hrun|]. split; [exact He|].
  split; [apply sortByIndex_perm|]. split; [apply sortByIndex_sorted|].
  split; [exact Hall|]. split; [exact Hdisp|].
  intros git. unfold getChildren. now rewrite Hch.
Qed.

Lemma refresh_reconciles_and_caches_witness :
  exists children evs st',
    refresh None (Normal [repoAt "/r3" 1 false; repoAt "/r2" 0 true]) loaded12
      = (Normal tt, st') /\
    effects st' = effects loaded12 ++ evs /\
    Permutation [repoAt "/r3" 1 false; repoAt "/r2" 0 true]
      (sortByIndex [repoAt "/r3" 1 false; repoAt "/r2" 0 true]) /\
    StronglySorted indexLe
      (sortByIndex [repoAt "/r3" 1 false; repoAt "/r2" 0 true]) /\
    Forall2
      (placed [RepositoryNode 0 "/r1" (repoAt "/r1" 0 false);
               RepositoryNode 1 "/r2" (repoAt "/r2" 1 false)]
         (nextObj loaded12) evs)
      (sortByIndex [repoAt "/r3" 1 false; repoAt "/r2" 0 true]) children /\
    (forall c,
       In c [RepositoryNode 0 "/r1" (repoAt "/r1" 0 false);
             RepositoryNode 1 "/r2" (repoAt "/r2" 1 false)] ->
       ((forall r, In r [repoAt "/r3" 1 false; repoAt "/r2" 0 true] ->
                   ~ keyed r c) ->
        count_occ Effect_eq_dec evs (ChildDispose (objOf c)) = 1) /\
       (In c children ->
        count_occ Effect_eq_dec evs (ChildDispose (objOf c)) = 0)) /\
    forall git, getChildren git st' = (Normal children, st').
Proof.
  apply (refresh_reconciles_and_caches None
           [repoAt "/r3" 1 false; repoAt "/r2" 0 true] loaded12
           [RepositoryNode 0 "/r1" (repoAt "/r1" 0 false);
            RepositoryNode 1 "/r2" (repoAt "/r2" 1 false)]).
  - reflexivity.
  - constructor; [reflexivity|]. constructor; [reflexivity | constructor].
  - discriminate.
  - constructor; [vm_compute; lia|]. constructor; [vm_compute; lia | constructor].
  - simpl. compute_done.
Defined.

(** X4. When no repository of a non-empty collection is closed, a refresh
    of a cache of repository nodes and a first [getChildren] of an unloaded
    container list the same repositories in the same order: in both, the
    keys of the children are the normalized paths of the collection in
    non-decreasing index order. *)
Theorem refresh_lists_what_getChildren_lists (reason : option RefreshReason)
    (repos : list Repository) (st st0 : State) (cached : list ChildNode) :
  _children st = Some cached ->
  allRepositoryNodes cached ->
  Forall (fun c => objOf c < nextObj st) cached ->
  NoDup (map objOf cached) ->
  repos <> [] ->
  Forall (fun r => closed r = false) repos ->
  _children st0 = None ->
  exists refreshed loaded,
    _children (snd (refresh reason (Normal repos) st)) = Some refreshed /\
    fst (getChildren (Normal repos) st0) = Normal loaded /\
    map keyOf refreshed
      = map (fun r => Some (normalizedPath r)) (sortByIndex repos) /\
    map keyOf loaded
      = map (fun r => Some (normalizedPath r)) (sortByIndex repos) /\
    length refreshed = length repos.
Proof.
  intros Hc Hrepo Hold Hnd Hne Hopen H0.
  destruct (refresh_reconciles reason repos st cached Hc Hrepo Hne Hold Hnd)
    as (children & evs & st' & Hrun & Hch & _ & Hall & _).
  assert (Hlen : (length repos =? 0) = false).
  { apply Nat.eqb_neq. destruct repos; [congruence | discriminate]. }
  pose proof (buildChildren_keys (sortByIndex repos) []
                (emit FetchRepositories st0)) as Hkeys.
  exists children, (fst (buildChildren (sortByIndex repos) []
                           (emit FetchRepositories st0))).
  rewrite Hrun. cbn [snd]. split; [exact Hch|]. split; [|split; [|split]].
  - unfold getChildren. rewrite H0, Hlen.
    now destruct (buildChildren (sortByIndex repos) []
                    (emit FetchRepositories st0)).
  - apply (placed_keys _ _ _ _ _ Hall).
  - rewrite Hkeys. cbn [map app]. f_equal.
    apply forallb_filter_id. apply forallb_forall.
    intros r Hr. apply negb_true_iff.
    rewrite Forall_forall in Hopen. apply Hopen, list_elem_of_In.
    eapply Permutation_in; [symmetry; apply sortByIndex_perm | exact Hr].
  - rewrite <- (sortByIndex_length repos). symmetry.
    eapply Forall2_length. exact Hall.
Qed.

Lemma refresh_lists_what_getChildren_lists_witness :
  exists refreshed loaded,
    _children
      (snd (refresh None (Normal [repoAt "/r3" 1 false; repoAt "/r2" 0 false])
              loaded12)) = Some refreshed /\
    fst (getChildren (Normal [repoAt "/r3" 1 false; repoAt "/r2" 0 false])
           unloaded) = Normal loaded /\
    map keyOf refreshed
      = map (fun r => Some (normalizedPath r))
          (sortByIndex [repoAt "/r3" 1 false; repoAt "/r2" 0 false]) /\
    map keyOf loaded
      = map (fun r => Some (normalizedPath r))
          (sortByIndex [repoAt "/r3" 1 false; repoAt "/r2" 0 false]) /\
    length refreshed = length [repoAt "/r3" 1 false; repoAt "/r2" 0 false].
Proof.
  apply (refresh_lists_what_getChildren_lists None
           [repoAt "/r3" 1 false; repoAt "/r2" 0 false] loaded12 unloaded
           [RepositoryNode 0 "/r1" (repoAt "/r1" 0 false);
            RepositoryNode 1 "/r2" (repoAt "/r2" 1 false)]).
  - reflexivity.
  - constructor; [reflexivity|]. constructor; [reflexivity | constructor].
  - constructor; [vm_compute; lia|]. constructor; [vm_compute; lia | constructor].
  - simpl. compute_done.
  - discriminate.
  - constructor; [reflexivity|]. constructor; [reflexivity | constructor].
  - reflexivity.
Defined.

(** X5. While the placeholder is cached, a refresh against a non-empty
    collection fails at the lookup of line 76, which reads [repo] of the
    [MessageNode]: the collection has been fetched, nothing else is done,
    the cache is left as it is. So [getChildren] keeps answering the
    placeholder and every later refresh against a non-empty collection fails
    the same way. *)
Theorem refresh_over_placeholder_fails (reason : option RefreshReason)
    (repos : list Repository) (st : State) (o : nat) (m : string)
    (rest : list ChildNode) :
  _children st = Some (MessageNode o m :: rest) ->
  repos <> [] ->
  refresh reason (Normal repos) st
    = (Throw "TypeError", emit FetchRepositories st) /\
  (forall git,
     getChildren git (emit FetchRepositories st)
     = (Normal (MessageNode o m :: rest), emit FetchRepositories st)) /\
  (forall reason' repos', repos' <> [] ->
     fst (refresh reason' (Normal repos') (emit FetchRepositories st))
     = Throw "TypeError").
Proof.
  intros Hc Hne.
  assert (Hfail : forall reason0 repos0 st0,
            _children st0 = Some (MessageNode o m :: rest) -> repos0 <> [] ->
            refresh reason0 (Normal repos0) st0
            = (Throw "TypeError", emit FetchRepositories st0)).
  { intros reason0 repos0 st0 Hc0 Hne0. unfold refresh. rewrite Hc0.
    assert (Hlen : (length repos0 =? 0) = false).
    { apply Nat.eqb_neq. destruct repos0; [congruence | discriminate]. }
    rewrite Hlen. cbn [andb].
    pose proof (sortByIndex_nonempty repos0 Hne0) as Hs.
    destruct (sortByIndex repos0) as [|r sorted]; [congruence|].
    reflexivity. }
  split; [now apply Hfail|]. split.
  - intros git. unfold getChildren. cbn [emit _children]. now rewrite Hc.
  - intros reason' repos' Hne'. rewrite Hfail; [reflexivity | exact Hc | exact Hne'].
Qed.

Lemma refresh_over_placeholder_fails_witness :
  refresh None (Normal [repoAt "/r3" 0 false]) placeholder12
    = (Throw "TypeError", emit FetchRepositories placeholder12) /\
  (forall git,
     getChildren git (emit FetchRepositories placeholder12)
     = (Normal [MessageNode 2 "No repositories found"],
        emit FetchRepositories placeholder12)) /\
  (forall reason' repos', repos' <> [] ->
     fst (refresh reason' (Normal repos') (emit FetchRepositories placeholder12))
     = Throw "TypeError").
Proof.
  apply (refresh_over_placeholder_fails None [repoAt "/r3" 0 false]
           placeholder12 2 "No repositories found" []).
  - reflexivity.
  - discriminate.
Defined.

(** *** The shape of the cache *)

Lemma disposeDropped_frame (cached children : list ChildNode) (st : State) :
  _children (disposeDropped cached children st) = _children st /\
  nextObj (disposeDropped cached children st) = nextObj st.
Proof. destruct (disposeDropped_spec cached children st) as (_ & H1 & H2). auto. Qed.

Lemma reconcile_distinct (cached : list ChildNode) (n0 : nat) :
  allRepositoryNodes cached ->
  Forall (fun c => objOf c < n0) cached ->
  NoDup (map objOf cached) ->
  forall repos acc st,
    n0 <= nextObj st ->
    NoDup (map normalizedPath repos) ->
    allRepositoryNodes acc ->
    NoDup (map objOf acc) ->
    Forall (fun c => objOf c < nextObj st) acc ->
    (forall c, In c acc -> In c cached ->
       forall r, In r repos -> ~ keyed r c) ->
    (forall c, In c acc -> objOf c < n0 -> In c cached) ->
    exists cs st',
      reconcile cached repos acc st = (Normal cs, st') /\
      allRepositoryNodes cs /\
      NoDup (map objOf cs) /\
      Forall (fun c => objOf c < nextObj st') cs.
Proof.
  intros Hrepo Hold Hnd.
  induction repos as [|repo rest IH];
    intros acc st Hn0 Hkeys Hacc Hnda Hbound Hgone Hfrom; cbn [reconcile].
  { exists acc, st. auto. }
  simpl in Hkeys. apply NoDup_cons in Hkeys as [Hnew Hkeys].
  pose proof (findByPath_spec cached (normalizedPath repo) Hrepo) as Hfind.
  destruct (findByPath cached (normalizedPath repo)) as [[child|]|e];
    [| |destruct Hfind].
  - destruct Hfind as [Hin Hkey].
    assert (Hlt : objOf child < n0).
    { rewrite Forall_forall in Hold. apply Hold. now apply list_elem_of_In. }
    apply IH; clear IH.
    + exact Hn0.
    + exact Hkeys.
    + apply Forall_app. split; [exact Hacc|].
      constructor; [|constructor].
      unfold allRepositoryNodes in Hrepo. rewrite Forall_forall in Hrepo.
      apply Hrepo. now apply list_elem_of_In.
    + rewrite map_app. simpl. apply NoDup_app. split; [exact Hnda|]. split.
      * intros x Hx Hx'. apply list_elem_of_In in Hx, Hx'.
        destruct Hx' as [<-|[]].
        apply in_map_iff in Hx as (c & Hobj & Hc).
        assert (Hcc : In c cached) by (apply Hfrom; [exact Hc | lia]).
        assert (c = child) by (apply (objOf_inj_in cached); auto). subst c.
        apply (Hgone child Hc Hin repo); [now left | exact Hkey].
      * apply NoDup_singleton.
    + apply Forall_app. split; [exact Hbound|].
      constructor; [|constructor]. cbn [emit nextObj]. lia.
    + intros c Hc Hcc r Hr Hk. apply in_app_or in Hc as [Hc|[<-|[]]].
      * apply (Hgone c Hc Hcc r); [now right | exact Hk].
      * apply Hnew. apply list_elem_of_In. apply in_map_iff. exists r.
        split; [|exact Hr]. unfold keyed in Hk. congruence.
    + intros c Hc Hlt'. apply in_app_or in Hc as [Hc|[<-|[]]];
        [now apply Hfrom | exact Hin].
  - unfold newRepositoryNode. cbv zeta.
    apply IH; clear IH; cbn [emit nextObj].
    + lia.
    + exact Hkeys.
    + apply Forall_app. split; [exact Hacc|].
      constructor; [reflexivity | constructor].
    + rewrite map_app. simpl. apply NoDup_app. split; [exact Hnda|]. split.
      * intros x Hx Hx'. apply list_elem_of_In in Hx, Hx'.
        destruct Hx' as [<-|[]].
        apply in_map_iff in Hx as (c & Hobj & Hc).
        rewrite Forall_forall in Hbound.
        apply list_elem_of_In, Hbound in Hc. lia.
      * apply NoDup_singleton.
    + apply Forall_app. split.
      * eapply Forall_impl; [exact Hbound|]. intros c Hc. simpl in Hc. lia.
      * constructor; [simpl; lia | constructor].
    + intros c Hc Hcc r Hr Hk. apply in_app_or in Hc as [Hc|[<-|[]]].
      * apply (Hgone c Hc Hcc r); [now right | exact Hk].
      * rewrite Forall_forall in Hold.
        apply list_elem_of_In, Hold in Hcc. simpl in Hcc. lia.
    + intros c Hc Hlt'. apply in_app_or in Hc as [Hc|[<-|[]]];
        [now apply Hfrom | simpl in Hlt'; lia].
Qed.

(** X6. The cache keeps its shape: starting from a cache that is either all
    repository nodes or the placeholder alone, with distinct objects given
    out by this container, [getChildren] leaves such a cache whatever the
    data source answers, and so does [refresh], whether it returns or
    throws, as long as no two repositories of the collection share a
    normalized path. *)
Theorem cache_stays_well_formed (reason : option RefreshReason)
    (git : Completion (list Repository)) (st : State) :
  wellFormed st ->
  wellFormed (snd (getChildren git st)) /\
  ((forall repos, git = Normal repos -> NoDup (map normalizedPath repos)) ->
   wellFormed (snd (refresh reason git st))).
Proof.
  intros Hwf. split.
  - unfold getChildren. destruct (_children st) as [cs|] eqn:Hc; [exact Hwf|].
    destruct git as [repos|e].
    2: { unfold wellFormed. simpl. now rewrite Hc. }
    destruct (length repos =? 0) eqn:Hlen.
    { unfold wellFormed. simpl. now rewrite Hc. }
    destruct (buildChildren_closed_form (sortByIndex repos) []
                (emit FetchRepositories st)) as (H1 & _ & H3 & _).
    destruct (buildChildren (sortByIndex repos) [] (emit FetchRepositories st))
      as [children st2]. simpl in H1, H3. subst children.
    unfold wellFormed. simpl. split; [left; apply freshNodes_repositories|].
    assert (Hobjs := freshNodes_objects (nextObj st)
                       (List.filter isOpen (sortByIndex repos))).
    split.
    + apply Forall_forall. intros c Hin.
      assert (Hin' : In (objOf c)
                (seq (nextObj st)
                   (length (List.filter isOpen (sortByIndex repos))))).
      { rewrite <- Hobjs. apply in_map. now apply list_elem_of_In. }
      apply in_seq in Hin'. lia.
    + rewrite Hobjs. apply NoDup_seq.
  - intros Hkeys. unfold refresh.
    destruct (_children st) as [cached|] eqn:Hc; [|exact Hwf].
    assert (Hsame : forall st', _children st' = _children st ->
              nextObj st' = nextObj st -> wellFormed st').
    { intros st' H1 H2. unfold wellFormed in *. now rewrite H1, H2. }
    destruct git as [repos|e]; [|now apply Hsame].
    destruct (length repos =? 0) eqn:Hlen.
    { destruct (length cached =? 0) eqn:Hlen'; cbn [andb].
      - now apply Hsame.
      - unfold wellFormed. simpl. split; [right; eauto|].
        split; [constructor; [simpl; lia | constructor]|].
        apply NoDup_singleton. }
    cbn [andb].
    assert (Hne : repos <> []) by (intros ->; discriminate).
    unfold wellFormed in Hwf. rewrite Hc in Hwf.
    destruct Hwf as ([Hrepo|(o & m & ->)] & Hold & Hnd).
    + destruct (reconcile_distinct cached (nextObj st) Hrepo Hold Hnd
                  (sortByIndex repos) [] (emit FetchRepositories st))
        as (cs & st2 & Hrun & Hkind & Hnd' & Hbound).
      * simpl. lia.
      * rewrite <- (Permutation_map normalizedPath (sortByIndex_perm repos)).
        now apply Hkeys.
      * constructor.
      * constructor.
      * constructor.
      * intros c [].
      * intros c [].
      * rewrite Hrun.
        destruct (disposeDropped_frame cached cs st2) as [_ Hn3].
        unfold wellFormed.
        destruct (isConfigurationChanged reason); simpl; rewrite Hn3; auto.
    + pose proof (sortByIndex_nonempty repos Hne) as Hs.
      destruct (sortByIndex repos) as [|r sorted]; [congruence|].
      simpl. unfold wellFormed. simpl. rewrite Hc.
      split; [right; eauto|]. split; [exact Hold | exact Hnd].
Qed.

Lemma cache_stays_well_formed_witness :
  wellFormed
    (snd (getChildren (Normal [repoAt "/r3" 1 false; repoAt "/r2" 0 true])
            loaded12)) /\
  wellFormed
    (snd (refresh None (Normal [repoAt "/r3" 1 false; repoAt "/r2" 0 true])
            loaded12)).
Proof.
  destruct (cache_stays_well_formed None
              (Normal [repoAt "/r3" 1 false; repoAt "/r2" 0 true]) loaded12)
    as [Hget Hrefresh].
  - unfold wellFormed. simpl. split; [left|split].
    + constructor; [reflexivity|]. constructor; [reflexivity | constructor].
    + constructor; [simpl; lia|]. constructor; [simpl; lia | constructor].
    + simpl. compute_done.
  - split; [exact Hget|]. apply Hrefresh.
    intros repos Heq. inversion Heq; subst. simpl. compute_done.
Defined.

(** *** Disposing *)

Lemma disposeChildren_spec (children : list ChildNode) (st : State) :
  effects (disposeChildren children st)
    = effects st
      ++ map (fun c => ChildDispose (objOf c))
           (List.filter isRepositoryNode children) /\
  _children (disposeChildren children st) = _children st /\
  nextObj (disposeChildren children st) = nextObj st.
Proof.
  revert st. induction children as [|c children IH]; intros st; simpl.
  - now rewrite app_nil_r.
  - destruct (isRepositoryNode c); [|apply IH].
    destruct (IH (emit (ChildDispose (objOf c)) st)) as (H1 & H2 & H3).
    rewrite H1, H2, H3. simpl. now rewrite <- app_assoc.
Qed.

(** X7. [dispose] on top of a [super.dispose()] that leaves the cache
    alone: every cached repository node is disposed, once per listing and
    in cache order, a cached placeholder is not; the cache is dropped, so a
    second [dispose] disposes no child and the next [getChildren] fetches
    the collection again. *)
Theorem dispose_releases_children (superDispose : State -> State)
    (st : State) :
  (forall s, _children (superDispose s) = _children s) ->
  let st' := dispose superDispose st in
  _children st' = None /\
  effects st'
    = effects (superDispose st)
      ++ map (fun c => ChildDispose (objOf c))
           (List.filter isRepositoryNode (default [] (_children st))) /\
  nextObj st' = nextObj (superDispose st) /\
  dispose superDispose st' = superDispose st' /\
  forall git, exists evs,
    effects (snd (getChildren git st'))
      = effects st' ++ FetchRepositories :: evs.
Proof.
  intros Hsuper st'.
  assert (Hnone : _children st' = None).
  { unfold st', dispose. destruct (_children (superDispose st)) eqn:Hc;
      [reflexivity | exact Hc]. }
  split; [exact Hnone|]. split; [|split; [|split]].
  - unfold st', dispose. rewrite (Hsuper st).
    destruct (_children st) as [children|]; simpl.
    + now destruct (disposeChildren_spec children (superDispose st)) as (-> & _).
    + now rewrite app_nil_r.
  - unfold st', dispose.
    destruct (_children (superDispose st)) as [children|]; [|reflexivity].
    cbn [setChildren nextObj].
    now destruct (disposeChildren_spec children (superDispose st)) as (_ & _ & ->).
  - unfold dispose at 1. now rewrite Hsuper, Hnone.
  - intros git. unfold getChildren. rewrite Hnone.
    destruct git as [repos|e]; [|exists []; reflexivity].
    destruct (length repos =? 0).
    + eexists. simpl. rewrite <- app_assoc. reflexivity.
    + destruct (buildChildren_closed_form (sortByIndex repos) []
                  (emit FetchRepositories st')) as (_ & _ & _ & H4).
      destruct (buildChildren (sortByIndex repos) []
                  (emit FetchRepositories st')) as [children st2].
      simpl in *. rewrite H4, <- app_assoc. eexists. reflexivity.
Qed.

Lemma dispose_releases_children_witness :
  _children (dispose (emit Unsubscribe) loaded12) = None /\
  effects (dispose (emit Unsubscribe) loaded12)
    = effects (emit Unsubscribe loaded12) ++ [ChildDispose 0; ChildDispose 1] /\
  effects (dispose (emit Unsubscribe) placeholder12)
    = effects (emit Unsubscribe placeholder12).
Proof.
  destruct (dispose_releases_children (emit Unsubscribe) loaded12)
    as (H1 & H2 & _); [reflexivity|].
  destruct (dispose_releases_children (emit Unsubscribe) placeholder12)
    as (_ & H3 & _); [reflexivity|].
  split; [exact H1|]. split; [exact H2|].
  rewrite H3. apply app_nil_r.
Defined.

(** *** Revealing the repository of the active editor *)

Lemma selectionInside_below (target : nat) (n : Selected) :
  selectionInside target n = true <-> below target n.
Proof.
  induction n as [o|o parent IH]; simpl.
  - rewrite Nat.eqb_eq. split.
    + intros <-. now constructor.
    + intros H. inversion H; subst. reflexivity.
  - destruct (o =? target) eqn:Ho.
    + apply Nat.eqb_eq in Ho. split; [|reflexivity].
      intros _. now constructor.
    + apply Nat.eqb_neq in Ho. rewrite IH. split.
      * intros H. now apply below_parent.
      * intros H. inversion H; subst; [|assumption]. simpl in Ho. congruence.
Qed.

(** X8. [onActiveEditorChanged] either does nothing at all, or expands one
    repository node of the cache: there is an active editor, the cache is
    loaded and does not consist of exactly one child, the node is a cached
    repository node whose repository contains the document, and the first
    selected node is neither that node nor below it. It then reveals the
    first child of that node, or the node itself when it has no children;
    when reading the children fails, nothing is revealed and the failure is
    logged. *)
Theorem onActiveEditorChanged_reveals_unselected_repository
    (containsUri : Repository -> string -> bool)
    (repositoryChildren : ChildNode -> Completion (list nat))
    (editor : option string) (selection : list Selected) (st : State) :
  let done :=
    onActiveEditorChanged containsUri repositoryChildren editor selection st in
  (expanded done = None -> done = nothingDone) /\
  forall o, expanded done = Some o ->
    exists uri children u r,
      editor = Some uri /\
      _children st = Some children /\
      length children <> 1 /\
      In (RepositoryNode o u r) children /\
      containsUri r uri = true /\
      (forall first rest, selection = first :: rest -> ~ below o first) /\
      match repositoryChildren (RepositoryNode o u r) with
      | Normal (first :: _) => revealed done = Some first /\ logged done = []
      | Normal [] => revealed done = Some o /\ logged done = []
      | Throw ex => revealed done = None /\ logged done = [ex]
      end.
Proof.
  unfold onActiveEditorChanged.
  destruct editor as [uri|]; [|split; [reflexivity | discriminate]].
  destruct (_children st) as [children|]; [|split; [reflexivity | discriminate]].
  destruct (length children =? 1) eqn:Hlen;
    [split; [reflexivity | discriminate]|].
  apply Nat.eqb_neq in Hlen.
  destruct (List.find (holdsUri containsUri uri) children) as [node|] eqn:Hfind;
    [|split; [reflexivity | discriminate]].
  apply find_some in Hfind as [Hin Hholds].
  destruct node as [o' u r|o' m]; [|discriminate]. simpl in Hholds.
  destruct (match selection with
            | [] => false
            | first :: _ => selectionInside (objOf (RepositoryNode o' u r)) first
            end) eqn:Hsel; [split; [reflexivity | discriminate]|].
  assert (Hnot : forall first rest, selection = first :: rest -> ~ below o' first).
  { intros first rest -> Hb. apply selectionInside_below in Hb.
    simpl in Hsel. congruence. }
  destruct (repositoryChildren (RepositoryNode o' u r)) as [nodes|ex] eqn:Hkids;
    cbv zeta; simpl; (split; [discriminate|]).
  - intros o Ho. inversion Ho; subst o.
    exists uri, children, u, r. rewrite Hkids.
    repeat (split; [assumption || reflexivity|]).
    destruct nodes; auto.
  - intros o Ho. inversion Ho; subst o.
    exists uri, children, u, r. rewrite Hkids.
    repeat (split; [assumption || reflexivity|]). auto.
Qed.

Lemma onActiveEditorChanged_reveals_unselected_repository_witness :
  exists uri children u r,
    Some "/r2/src/a.ts" = Some uri /\
    _children loaded12 = Some children /\
    length children <> 1 /\
    In (RepositoryNode 1 u r) children /\
    String.prefix (path r) uri = true /\
    (forall first rest, [TopNode 0] = first :: rest -> ~ below 1 first) /\
    match (fun _ : ChildNode => Normal [7; 8]) (RepositoryNode 1 u r) with
    | Normal (first :: _) =>
        revealed
          (onActiveEditorChanged (fun r uri => String.prefix (path r) uri)
             (fun _ => Normal [7; 8]) (Some "/r2/src/a.ts") [TopNode 0]
             loaded12) = Some first /\
        logged
          (onActiveEditorChanged (fun r uri => String.prefix (path r) uri)
             (fun _ => Normal [7; 8]) (Some "/r2/src/a.ts") [TopNode 0]
             loaded12) = []
    | Normal [] =>
        revealed
          (onActiveEditorChanged (fun r uri => String.prefix (path r) uri)
             (fun _ => Normal [7; 8]) (Some "/r2/src/a.ts") [TopNode 0]
             loaded12) = Some 1 /\
        logged
          (onActiveEditorChanged (fun r uri => String.prefix (path r) uri)
             (fun _ => Normal [7; 8]) (Some "/r2/src/a.ts") [TopNode 0]
             loaded12) = []
    | Throw ex =>
        revealed
          (onActiveEditorChanged (fun r uri => String.prefix (path r) uri)
             (fun _ => Normal [7; 8]) (Some "/r2/src/a.ts") [TopNode 0]
             loaded12) = None /\
        logged
          (onActiveEditorChanged (fun r uri => String.prefix (path r) uri)
             (fun _ => Normal [7; 8]) (Some "/r2/src/a.ts") [TopNode 0]
             loaded12) = [ex]
    end.
Proof.
  apply (onActiveEditorChanged_reveals_unselected_repository
           (fun r uri => String.prefix (path r) uri)
           (fun _ => Normal [7; 8]) (Some "/r2/src/a.ts") [TopNode 0]
           loaded12).
  reflexivity.
Defined.

(** *** The subscription *)

Lemma reconcile_effects (cached : list ChildNode) (repos : list Repository)
    (acc : list ChildNode) (st : State) :
  exists evs,
    effects (snd (reconcile cached repos acc st)) = effects st ++ evs /\
    Forall notSubscription evs.
Proof.
  revert acc st. induction repos as [|repo rest IH]; intros acc st;
    cbn [reconcile].
  - exists []. simpl. now rewrite app_nil_r.
  - destruct (findByPath cached (normalizedPath repo)) as [[child|]|e].
    + destruct (IH (acc ++ [child]) (emit (ChildRefresh (objOf child)) st))
        as (evs & He & Hall).
      exists (ChildRefresh (objOf child) :: evs). split.
      * rewrite He. simpl. now rewrite <- app_assoc.
      * constructor; [split; discriminate | exact Hall].
    + unfold newRepositoryNode. cbv zeta.
      match goal with
      | |- context [reconcile cached rest ?acc' ?st'] =>
          destruct (IH acc' st') as (evs & He & Hall)
      end.
      exists (Construct (RepositoryNode (nextObj st) (path repo) repo) :: evs).
      split.
      * rewrite He. simpl. now rewrite <- app_assoc.
      * constructor; [split; discriminate | exact Hall].
    + exists []. simpl. now rewrite app_nil_r.
Qed.

Lemma refresh_effects_shape (reason : option RefreshReason)
    (git : Completion (list Repository)) (st : State) :
  exists evs,
    Forall notSubscription evs /\
    ((reconciles reason git st /\
      effects (snd (refresh reason git st))
        = effects st ++ evs
          ++ (if isConfigurationChanged reason then [Unsubscribe] else [])
          ++ [EnsureSubscription])
     \/
     (~ reconciles reason git st /\
      effects (snd (refresh reason git st)) = effects st ++ evs)).
Proof.
  unfold reconciles, refresh.
  destruct (_children st) as [cached|] eqn:Hc.
  2: { exists []. split; [constructor|]. right. split.
       - intros (c & r & H & _). discriminate.
       - now rewrite app_nil_r. }
  destruct git as [repos|e].
  2: { exists [FetchRepositories]. split.
       - constructor; [split; discriminate | constructor].
       - right. split; [|reflexivity].
         intros (c & r & _ & H & _). discriminate. }
  destruct (length repos =? 0) eqn:Hlen.
  { apply Nat.eqb_eq, length_zero_iff_nil in Hlen. subst repos.
    destruct (length cached =? 0); cbn [andb].
    - exists [FetchRepositories]. split.
      + constructor; [split; discriminate | constructor].
      + right. split; [|reflexivity].
        intros (c & r & _ & H & Hne & _). inversion H; subst. congruence.
    - exists [FetchRepositories;
              Construct (MessageNode (nextObj st) "No repositories found")].
      split.
      + constructor; [split; discriminate|].
        constructor; [split; discriminate | constructor].
      + right. split; [|simpl; now rewrite <- app_assoc].
        intros (c & r & _ & H & Hne & _). inversion H; subst. congruence. }
  cbn [andb].
  assert (Hne : repos <> []) by (intros ->; discriminate).
  destruct (reconcile_effects cached (sortByIndex repos) []
              (emit FetchRepositories st)) as (evs1 & He1 & Hall1).
  destruct (reconcile cached (sortByIndex repos) [] (emit FetchRepositories st))
    as [[children|e] st2]; simpl in He1.
  - destruct (disposeDropped_spec cached children st2) as (He3 & _).
    exists ([FetchRepositories] ++ evs1
            ++ map (fun c => ChildDispose (objOf c))
                 (List.filter (fun c => negb (includes children c)) cached)).
    split.
    + apply Forall_app. split; [constructor; [split; discriminate | constructor]|].
      apply Forall_app. split; [exact Hall1|].
      apply Forall_forall. intros x Hx. apply list_elem_of_In in Hx.
      apply in_map_iff in Hx as (c & <- & _). split; discriminate.
    + left. split; [exists cached, repos; auto|].
      destruct (isConfigurationChanged reason); simpl; rewrite He3, He1;
        rewrite <- !app_assoc; reflexivity.
  - exists ([FetchRepositories] ++ evs1). split.
    + apply Forall_app. split; [constructor; [split; discriminate | constructor]|].
      exact Hall1.
    + right. split; [|simpl; rewrite He1; now rewrite <- app_assoc].
      intros (c & r & _ & _ & _ & H). discriminate.
Qed.

Lemma isConfigurationChanged_true (reason : option RefreshReason) :
  isConfigurationChanged reason = true <-> reason = Some ConfigurationChanged.
Proof.
  destruct reason as [[|name]|]; simpl; split; intros H;
    congruence || discriminate.
Qed.

(** X15. A refresh touches the subscription only when it runs the
    reconciliation to its end (the cache loaded, the collection not empty,
    nothing thrown): exactly then it renews the subscription, as its last
    effect, and it drops the subscription first if and only if, besides,
    the reason is a configuration change. On every other path, the early
    returns for an unloaded container or an empty collection and the
    failures included, the subscription is neither dropped nor renewed. *)
Theorem refresh_renews_subscription (reason : option RefreshReason)
    (git : Completion (list Repository)) (st : State) :
  let new := drop (length (effects st))
               (effects (snd (refresh reason git st))) in
  (In EnsureSubscription new <-> reconciles reason git st) /\
  (In Unsubscribe new <->
   reconciles reason git st /\ reason = Some ConfigurationChanged) /\
  (reconciles reason git st -> last new = Some EnsureSubscription).
Proof.
  cbv zeta.
  destruct (refresh_effects_shape reason git st)
    as (evs & Hall & [[Hrec He]|[Hnrec He]]); rewrite He, drop_app_length.
  - assert (Hnot : forall e, In e evs -> notSubscription e).
    { intros e Hin. rewrite Forall_forall in Hall.
      apply Hall. now apply list_elem_of_In. }
    split; [|split].
    + split; [auto|]. intros _. apply in_or_app. right.
      apply in_or_app. right. now left.
    + split.
      * intros Hin. split; [exact Hrec|].
        apply in_app_or in Hin as [Hin|Hin].
        { destruct (Hnot _ Hin) as [Hne _]. congruence. }
        apply in_app_or in Hin as [Hin|[Hin|[]]]; [|discriminate].
        destruct (isConfigurationChanged reason) eqn:Hcc; [|destruct Hin].
        now apply isConfigurationChanged_true.
      * intros [_ Hcc]. apply isConfigurationChanged_true in Hcc.
        rewrite Hcc. apply in_or_app. right. now left.
    + intros _. rewrite !app_assoc. apply last_snoc.
  - assert (Hnot : forall e, In e evs -> notSubscription e).
    { intros e Hin. rewrite Forall_forall in Hall.
      apply Hall. now apply list_elem_of_In. }
    split; [|split].
    + split; [|tauto]. intros Hin. destruct (Hnot _ Hin) as [_ Hne].
      congruence.
    + split; [|tauto]. intros Hin. destruct (Hnot _ Hin) as [Hne _].
      congruence.
    + tauto.
Qed.

End RepositoriesMoreFacts.

(** ** More on the search *)

Module SearchMoreFacts.
Import View SearchMore SearchFacts.

Section Loops.
Context {N St : Type} {ops : ViewNodeOps N St}.
Variable defaultPageSize : nat.
Variable predicate : N -> bool.
Variable allowPaging_ : bool.
Variable canTraverse_ : option (N -> bool).
Variable maxDepth_ : nat.
Variable token_ : option CancellationToken.

Abbreviation paging := (pagingLoop defaultPageSize predicate token_).
Abbreviation bfs :=
  (bfsLoop defaultPageSize predicate allowPaging_ canTraverse_ maxDepth_ token_).

(** One iteration of the queue loop, by what stands first in the queue. *)
Lemma bfs_marker (fuel : nat) (rest : list (option N)) (depth : nat)
    (v : ViewBase N St) :
  rest <> [] ->
  bfs (S fuel) (None :: rest) depth v
  = if fst (look token_ v) then (Done None, snd (look token_ v))
    else if maxDepth_ <? S depth then (Done None, snd (look token_ v))
    else bfs fuel (rest ++ [None]) (S depth) (snd (look token_ v)).
Proof.
  intros Hrest. cbn [bfsLoop]. destruct rest as [|r0 rest]; [congruence|].
  reflexivity.
Qed.

Lemma bfs_node (fuel : nat) (node : N) (rest : list (option N)) (depth : nat)
    (v : ViewBase N St) :
  rest <> [] ->
  bfs (S fuel) (Some node :: rest) depth v
  = if fst (look token_ v) then (Done None, snd (look token_ v))
    else
      let v1 := record (Visit node) (snd (look token_ v)) in
      if predicate node then (Done (Some node), v1)
      else if negb (traversable canTraverse_ node) then bfs fuel rest depth v1
      else
        match fst (callGetChildren node v1) with
        | Throw e => (Thrown e, snd (callGetChildren node v1))
        | Normal children =>
            let v2 := snd (callGetChildren node v1) in
            if length children =? 0 then bfs fuel rest depth v2
            else if isPageable node then
              match List.find predicate children with
              | Some child => (Done (Some child), v2)
              | None =>
                  if allowPaging_ && hasMore node (nodes v2) then
                    match paging fuel node v2 with
                    | (Done (Return r'), v3) => (Done r', v3)
                    | (Done Break, v3) => bfs fuel rest depth v3
                    | (Thrown e, v3) => (Thrown e, v3)
                    | (OutOfFuel, v3) => (OutOfFuel, v3)
                    end
                  else bfs fuel rest depth v2
              end
            else bfs fuel (rest ++ map Some children) depth v2
        end.
Proof.
  intros Hrest. cbn [bfsLoop]. destruct rest as [|r0 rest]; [congruence|].
  change (length (Some node :: r0 :: rest) <=? 1) with false. cbv iota.
  unfold look. cbn [fst snd].
  destruct (isCancellationRequested token_ (looks v)); [reflexivity|].
  cbv zeta. destruct (predicate node); [reflexivity|].
  destruct (negb (traversable canTraverse_ node)); [reflexivity|].
  destruct (callGetChildren node _) as [[children|e] v2]; reflexivity.
Qed.

Lemma marked_nonempty (front back : list N) :
  map Some front ++ None :: map Some back <> [].
Proof. destruct front; discriminate. Qed.

(** *** A search catches what its nodes throw *)

Lemma bfsLoop_quiet (fuel : nat) (queue : list (option N)) (depth : nat)
    (v : ViewBase N St) :
  fired (snd (bfs fuel queue depth v)) = fired v /\
  logged (snd (bfs fuel queue depth v)) = logged v /\
  _root (snd (bfs fuel queue depth v)) = _root v.
Proof.
  apply (bfsLoop_preserves defaultPageSize predicate allowPaging_ canTraverse_
           maxDepth_ token_
           (fun a b => fired b = fired a /\ logged b = logged a
                       /\ _root b = _root a)).
  - auto.
  - intros a b c (H1 & H2 & H3) (H4 & H5 & H6). repeat split; congruence.
  - intros v0. simpl. auto.
  - intros n v0. simpl. auto.
  - intros n v0. unfold callGetChildren.
    destruct (node_getChildren n (nodes v0)); simpl. auto.
  - intros n v0 _. simpl. auto.
Qed.

(** *** What a search does to a node *)

Section Steps.
Variable P : Step N -> Prop.
Hypothesis P_visit : forall n, P (Visit n).
Hypothesis P_getChildren :
  forall n, predicate n = false -> traversable canTraverse_ n = true ->
    P (GetChildrenOf n).
Hypothesis P_showMore :
  forall n, predicate n = false -> traversable canTraverse_ n = true ->
    isPageable n = true -> allowPaging_ = true ->
    P (ShowMoreOf n defaultPageSize).

Lemma bfsLoop_steps (fuel : nat) (queue : list (option N)) (depth : nat)
    (v : ViewBase N St) :
  exists evs,
    steps (snd (bfs fuel queue depth v)) = steps v ++ evs /\ Forall P evs.
Proof.
  revert queue depth v.
  induction fuel as [|fuel IH]; intros queue depth v; cbn [bfsLoop].
  { exists []. now rewrite app_nil_r. }
  destruct (length _ <=? 1). { exists []. now rewrite app_nil_r. }
  destruct (look token_ v) as [c v1] eqn:Hl1.
  assert (H1 : steps v1 = steps v) by (inversion Hl1; reflexivity).
  destruct c. { exists []. simpl. now rewrite H1, app_nil_r. }
  destruct queue as [|[node|] rest].
  { exists []. simpl. now rewrite H1, app_nil_r. }
  2: { destruct (maxDepth_ <? S depth).
       { exists []. simpl. now rewrite H1, app_nil_r. }
       destruct (IH (rest ++ [None]) (S depth) v1) as (evs & He & Hall).
       exists evs. rewrite He, H1. auto. }
  assert (Hv : steps (record (Visit node) v1) = steps v ++ [Visit node])
    by (simpl; now rewrite H1).
  assert (Hvisit : Forall P [Visit node]).
  { constructor; [apply P_visit | constructor]. }
  destruct (predicate node) eqn:Hp. { eauto. }
  destruct (negb (traversable canTraverse_ node)) eqn:Ht.
  { destruct (IH rest depth (record (Visit node) v1)) as (evs & He & Hall).
    exists ([Visit node] ++ evs). split.
    - rewrite He, Hv. now rewrite <- app_assoc.
    - apply Forall_app. auto. }
  apply negb_false_iff in Ht.
  pose proof (callGetChildren_steps node (record (Visit node) v1)) as Hg.
  destruct (callGetChildren node (record (Visit node) v1)) as [r v2].
  simpl in Hg. rewrite H1 in Hg.
  assert (H2 : steps v2 = steps v ++ [Visit node; GetChildrenOf node])
    by (rewrite Hg; now rewrite <- app_assoc).
  assert (Hhere : Forall P [Visit node; GetChildrenOf node]).
  { constructor; [apply P_visit|].
    constructor; [now apply P_getChildren | constructor]. }
  assert (Hcont : forall queue' v',
    (exists evs', steps v' = steps v2 ++ evs' /\ Forall P evs') ->
    exists evs,
      steps (snd (bfs fuel queue' depth v')) = steps v ++ evs /\ Forall P evs).
  { intros queue' v' (evs' & He' & Hall').
    destruct (IH queue' depth v') as (evs & He & Hall).
    exists ([Visit node; GetChildrenOf node] ++ evs' ++ evs). split.
    - rewrite He, He', H2. now rewrite <- !app_assoc.
    - apply Forall_app. split; [exact Hhere|]. apply Forall_app. auto. }
  assert (Hsame : exists evs', steps v2 = steps v2 ++ evs' /\ Forall P evs').
  { exists []. now rewrite app_nil_r. }
  destruct r as [children|e]. 2: { eauto. }
  destruct (length children =? 0). { now apply Hcont. }
  destruct (isPageable node) eqn:Hpg; [|now apply Hcont].
  destruct (List.find predicate children). { eauto. }
  destruct (allowPaging_ && hasMore node (nodes v2)) eqn:Hallow;
    [|now apply Hcont].
  apply andb_true_iff in Hallow as [Hallow _].
  destruct (pagingLoop_steps defaultPageSize predicate token_ fuel node v2)
    as (evs' & He' & Hall').
  assert (Hall'' : Forall P evs').
  { eapply Forall_impl; [exact Hall'|].
    intros e [-> | ->]; [now apply P_showMore | now apply P_getChildren]. }
  destruct (paging fuel node v2) as [[[r'|]|e|] v3]; simpl in He'.
  2: { apply Hcont; eauto. }
  all: exists ([Visit node; GetChildrenOf node] ++ evs').
  all: split; [simpl; rewrite He', H2; now rewrite <- !app_assoc|].
  all: apply Forall_app; auto.
Qed.
End Steps.

(** *** The store follows the calls *)

Lemma replay_app (evs1 evs2 : list (Step N)) (s : St) :
  replay (evs1 ++ evs2) s = replay evs2 (replay evs1 s).
Proof. apply fold_left_app. Qed.

Lemma ranFrom_refl (allow : bool) (v : ViewBase N St) : ranFrom allow v v.
Proof.
  exists []. rewrite app_nil_r. split; [reflexivity|].
  split; [reflexivity|]. split; [reflexivity|].
  intros _. split; [intros n count [] | reflexivity].
Qed.

Lemma ranFrom_trans (allow : bool) (a b c : ViewBase N St) :
  ranFrom allow a b -> ranFrom allow b c -> ranFrom allow a c.
Proof.
  intros (e1 & Hs1 & Hn1 & Hk1 & Ha1) (e2 & Hs2 & Hn2 & Hk2 & Ha2).
  exists (e1 ++ e2). split; [rewrite Hs2, Hs1; now rewrite app_assoc|].
  split; [rewrite Hn2, Hn1; symmetry; apply replay_app|]. split.
  - intros key Hno.
    transitivity (_lastKnownLimits b !! key); [apply Hk2 | apply Hk1].
    + intros n count Hin. apply (Hno n count), in_or_app. now right.
    + intros n count Hin. apply (Hno n count), in_or_app. now left.
  - intros Hoff. destruct (Ha1 Hoff) as [Hx Hy], (Ha2 Hoff) as [Hx' Hy'].
    split; [|congruence].
    intros n count Hin. apply in_app_or in Hin as [Hin|Hin].
    + now apply (Hx n count).
    + now apply (Hx' n count).
Qed.

Lemma ranFrom_quiet (allow : bool) (v v' : ViewBase N St)
    (evs : list (Step N)) :
  steps v' = steps v ++ evs ->
  nodes v' = replay evs (nodes v) ->
  (forall n count, ~ In (ShowMoreOf n count) evs) ->
  _lastKnownLimits v' = _lastKnownLimits v ->
  ranFrom allow v v'.
Proof.
  intros Hs Hn Hno Hl. exists evs. split; [exact Hs|]. split; [exact Hn|].
  split; [intros key _; now rewrite Hl | auto].
Qed.

Lemma callGetChildren_nodes (n : N) (v : ViewBase N St) :
  nodes (snd (callGetChildren n v)) = snd (node_getChildren n (nodes v)) /\
  _lastKnownLimits (snd (callGetChildren n v)) = _lastKnownLimits v.
Proof.
  unfold callGetChildren. now destruct (node_getChildren n (nodes v)).
Qed.

Lemma bfs_ranFrom (fuel : nat) (queue : list (option N)) (depth : nat)
    (v : ViewBase N St) :
  ranFrom allowPaging_ v (snd (bfs fuel queue depth v)).
Proof.
  apply (bfsLoop_preserves defaultPageSize predicate allowPaging_ canTraverse_
           maxDepth_ token_ (ranFrom allowPaging_)).
  - apply ranFrom_refl.
  - apply ranFrom_trans.
  - intros v0. apply (ranFrom_quiet _ _ _ []); auto.
    simpl. now rewrite app_nil_r.
  - intros n v0. apply (ranFrom_quiet _ _ _ [Visit n]); auto.
    intros m count [Heq|[]]. discriminate.
  - intros n v0. destruct (callGetChildren_nodes n v0) as [Hn Hl].
    apply (ranFrom_quiet _ _ _ [GetChildrenOf n]); auto.
    + apply callGetChildren_steps.
    + intros m count [Heq|[]]. discriminate.
  - intros n v0 Hallow. exists [ShowMoreOf n defaultPageSize].
    split; [reflexivity|]. split; [reflexivity|]. split.
    + intros key Hno. simpl. apply lookup_insert_ne.
      apply (Hno n defaultPageSize). now left.
    + intros Hoff. congruence.
Qed.

Lemma paging_ranFrom (fuel : nat) (n : N) (v : ViewBase N St) :
  allowPaging_ = true ->
  ranFrom allowPaging_ v (snd (paging fuel n v)).
Proof.
  apply (pagingLoop_preserves defaultPageSize predicate allowPaging_ token_
           (ranFrom allowPaging_)).
  - apply ranFrom_refl.
  - apply ranFrom_trans.
  - intros v0. apply (ranFrom_quiet _ _ _ []); auto.
    simpl. now rewrite app_nil_r.
  - intros m v0. destruct (callGetChildren_nodes m v0) as [Hn Hl].
    apply (ranFrom_quiet _ _ _ [GetChildrenOf m]); auto.
    + apply callGetChildren_steps.
    + intros m' count [Heq|[]]. discriminate.
  - intros m v0 Hallow. exists [ShowMoreOf m defaultPageSize].
    split; [reflexivity|]. split; [reflexivity|]. split.
    + intros key Hno. simpl. apply lookup_insert_ne.
      apply (Hno m defaultPageSize). now left.
    + intros Hoff. congruence.
Qed.

(** *** What a search logs *)

(** The run ended with the call [getChildren] on [n], made after the calls
    [evs], which threw [e]. *)
Abbreviation threwAt v v' e :=
  (exists n evs,
     steps v' = steps v ++ evs ++ [GetChildrenOf n] /\
     fst (node_getChildren n (replay evs (nodes v))) = Throw e).

Lemma threw_later (v v1 v' : ViewBase N St) (e : string)
    (pre : list (Step N)) :
  steps v1 = steps v ++ pre ->
  nodes v1 = replay pre (nodes v) ->
  threwAt v1 v' e -> threwAt v v' e.
Proof.
  intros Hs Hn (n & evs & Hs' & Hthrow).
  exists n, (pre ++ evs). split.
  - rewrite Hs', Hs. now rewrite <- !app_assoc.
  - now rewrite replay_app, <- Hn.
Qed.

Lemma paging_thrown (fuel : nat) (node : N) (v : ViewBase N St) (e : string) :
  fst (paging fuel node v) = Thrown e ->
  threwAt v (snd (paging fuel node v)) e.
Proof.
  revert v. induction fuel as [|fuel IH]; intros v; cbn [pagingLoop];
    [discriminate|].
  destruct (look token_ v) as [c v1] eqn:Hl1.
  assert (H1 : steps v1 = steps v /\ nodes v1 = nodes v)
    by (inversion Hl1; auto).
  destruct H1 as [Hs1 Hn1].
  destruct c; [discriminate|].
  pose proof (callGetChildren_steps node
                (showMoreNodeChildren node defaultPageSize v1)) as Hg.
  pose proof (callGetChildren_result node
                (showMoreNodeChildren node defaultPageSize v1)) as Hr.
  destruct (callGetChildren_nodes node
              (showMoreNodeChildren node defaultPageSize v1)) as [Hgn _].
  destruct (callGetChildren node (showMoreNodeChildren node defaultPageSize v1))
    as [r v3]. cbn [fst snd] in Hg, Hr, Hgn.
  cbn [showMoreNodeChildren setLastKnownLimits setNodes record steps nodes]
    in Hg, Hr, Hgn.
  rewrite Hs1 in Hg. rewrite Hn1 in Hr, Hgn.
  destruct (look token_ v3) as [c2 v4] eqn:Hl2.
  assert (H4 : steps v4 = steps v3 /\ nodes v4 = nodes v3)
    by (inversion Hl2; auto).
  destruct H4 as [Hs4 Hn4].
  destruct c2.
  - cbv iota. destruct (List.find predicate []); [discriminate|].
    destruct (negb (hasMore node (nodes v4))); [discriminate|].
    intros Hthrown. specialize (IH v4 Hthrown).
    apply (threw_later v v4 _ e
             [ShowMoreOf node defaultPageSize; GetChildrenOf node]); auto.
    + rewrite Hs4, Hg. now rewrite <- app_assoc.
    + rewrite Hn4, Hgn. reflexivity.
  - destruct r as [paged|e'].
    + destruct (List.find predicate paged); [discriminate|].
      destruct (negb (hasMore node (nodes v4))); [discriminate|].
      intros Hthrown. specialize (IH v4 Hthrown).
      apply (threw_later v v4 _ e
               [ShowMoreOf node defaultPageSize; GetChildrenOf node]); auto.
      * rewrite Hs4, Hg. now rewrite <- app_assoc.
      * rewrite Hn4, Hgn. reflexivity.
    + cbn [fst snd]. intros Heq. inversion Heq; subst e'.
      exists node, [ShowMoreOf node defaultPageSize]. split.
      * rewrite Hs4, Hg. now rewrite <- app_assoc.
      * symmetry. exact Hr.
Qed.

Lemma bfs_thrown (fuel : nat) (queue : list (option N)) (depth : nat)
    (v : ViewBase N St) (e : string) :
  fst (bfs fuel queue depth v) = Thrown e ->
  threwAt v (snd (bfs fuel queue depth v)) e.
Proof.
  revert queue depth v.
  induction fuel as [|fuel IH]; intros queue depth v; cbn [bfsLoop];
    [discriminate|].
  destruct (length queue <=? 1); [discriminate|].
  destruct (look token_ v) as [c v1] eqn:Hl1.
  assert (H1 : steps v1 = steps v /\ nodes v1 = nodes v)
    by (inversion Hl1; auto).
  destruct H1 as [Hs1 Hn1].
  destruct c; [discriminate|].
  destruct queue as [|[node|] rest]; [discriminate| |].
  2: { destruct (maxDepth_ <? S depth); [discriminate|].
       intros Hthrown. specialize (IH _ _ _ Hthrown).
       apply (threw_later v v1 _ e []); auto.
       now rewrite app_nil_r. }
  destruct (predicate node); [discriminate|].
  destruct (negb (traversable canTraverse_ node)).
  { intros Hthrown. specialize (IH _ _ _ Hthrown).
    apply (threw_later v (record (Visit node) v1) _ e [Visit node]); auto.
    simpl. now rewrite Hs1. }
  pose proof (callGetChildren_steps node (record (Visit node) v1)) as Hg.
  pose proof (callGetChildren_result node (record (Visit node) v1)) as Hr.
  destruct (callGetChildren_nodes node (record (Visit node) v1)) as [Hgn _].
  destruct (callGetChildren node (record (Visit node) v1)) as [r v2].
  cbn [fst snd record steps nodes] in Hg, Hr, Hgn.
  rewrite Hs1 in Hg. rewrite Hn1 in Hr, Hgn.
  assert (Hs2 : steps v2 = steps v ++ [Visit node; GetChildrenOf node])
    by (rewrite Hg; now rewrite <- app_assoc).
  assert (Hn2 : nodes v2 = replay [Visit node; GetChildrenOf node] (nodes v))
    by (rewrite Hgn; reflexivity).
  destruct r as [children|e'].
  2: { cbn [fst snd]. intros Heq. inversion Heq; subst e'.
       exists node, [Visit node]. split; [exact Hs2 | symmetry; exact Hr]. }
  assert (Hcont : forall queue',
            fst (bfs fuel queue' depth v2) = Thrown e ->
            threwAt v (snd (bfs fuel queue' depth v2)) e).
  { intros queue' Hthrown. specialize (IH _ _ _ Hthrown).
    now apply (threw_later v v2 _ e [Visit node; GetChildrenOf node]). }
  destruct (length children =? 0); [apply Hcont|].
  destruct (isPageable node); [|apply Hcont].
  destruct (List.find predicate children); [discriminate|].
  destruct (allowPaging_ && hasMore node (nodes v2)) eqn:Hallow;
    [|apply Hcont].
  apply andb_true_iff in Hallow as [Hallow _].
  pose proof (paging_thrown fuel node v2 e) as Hpt.
  destruct (paging_ranFrom fuel node v2 Hallow) as (evs & Hs3 & Hn3 & _).
  destruct (paging fuel node v2) as [[[r'|]|e'|] v3]; cbn [fst snd] in *.
  - discriminate.
  - intros Hthrown. specialize (IH _ _ _ Hthrown).
    apply (threw_later v v3 _ e ([Visit node; GetChildrenOf node] ++ evs));
      auto.
    + rewrite Hs3, Hs2. now rewrite <- !app_assoc.
    + rewrite Hn3, Hn2. symmetry. apply replay_app.
  - intros Heq. inversion Heq; subst e'.
    now apply (threw_later v v2 _ e [Visit node; GetChildrenOf node]); auto.
  - discriminate.
Qed.

(** *** Where a found node lies *)

Section Found.
Variable child_of : N -> N -> Prop.
Hypothesis sound :
  forall n s cs s',
    node_getChildren n s = (Normal cs, s') -> forall c, In c cs -> child_of n c.
Variable root : N.

Abbreviation below := (descends child_of isPageable root).

Lemma pagingLoop_found (fuel : nat) (node : N) (v : ViewBase N St) (c : N) :
  fst (paging fuel node v) = Done (Return (Some c)) ->
  predicate c = true /\ child_of node c.
Proof.
  revert v. induction fuel as [|fuel IH]; intros v; cbn [pagingLoop];
    [discriminate|].
  destruct (look token_ v) as [b v1]. destruct b; [discriminate|].
  pose proof (callGetChildren_result node
                (showMoreNodeChildren node defaultPageSize v1)) as Hr.
  destruct (callGetChildren node (showMoreNodeChildren node defaultPageSize v1))
    as [r v3]. simpl in Hr.
  destruct (node_getChildren node
              (showMore node defaultPageSize (nodes v1))) as [r0 s0] eqn:Hgc.
  simpl in Hr. subst r0.
  destruct (look token_ v3) as [c2 v4].
  assert (Hkids : forall paged, (if c2 then Normal [] else r) = Normal paged ->
            forall x, In x paged -> child_of node x).
  { intros paged Heq x Hx. destruct c2.
    - inversion Heq; subst. destruct Hx.
    - subst r. eapply sound; eauto. }
  destruct (if c2 then Normal [] else r) as [paged|e]; [|discriminate].
  destruct (List.find predicate paged) as [child|] eqn:Hfind.
  { simpl. intros Heq. inversion Heq; subst.
    apply find_some in Hfind as [Hin Hp]. split; [exact Hp|].
    now apply (Hkids paged eq_refl). }
  destruct (negb (hasMore node (nodes v4))); [discriminate|].
  apply IH.
Qed.

Lemma bfsLoop_found (fuel : nat) (front back : list N) (depth : nat)
    (v : ViewBase N St) (n : N) :
  Forall (below depth) front ->
  Forall (below (S depth)) back ->
  depth <= maxDepth_ ->
  fst (bfs fuel (map Some front ++ None :: map Some back) depth v)
    = Done (Some n) ->
  predicate n = true /\ foundWithin child_of root maxDepth_ n.
Proof.
  revert front back depth v.
  induction fuel as [|fuel IH]; intros front back depth v Hf Hb Hd;
    cbn [bfsLoop]; [discriminate|].
  destruct (length _ <=? 1); [discriminate|].
  destruct (look token_ v) as [c v1]. destruct c; [discriminate|].
  destruct front as [|node front]; simpl.
  - destruct (maxDepth_ <? S depth) eqn:Hm; [discriminate|].
    apply Nat.ltb_ge in Hm.
    apply (IH back [] (S depth) v1 Hb (List.Forall_nil _) Hm).
  - apply Forall_cons in Hf as [Hnode Hf].
    destruct (predicate node) eqn:Hp.
    { simpl. intros Heq. inversion Heq; subst. split; [exact Hp|].
      left. exists depth. auto. }
    destruct (negb (traversable canTraverse_ node)); [now apply IH|].
    pose proof (callGetChildren_result node (record (Visit node) v1)) as Hr.
    destruct (callGetChildren node (record (Visit node) v1)) as [r v2].
    simpl in Hr.
    destruct (node_getChildren node (nodes v1)) as [r0 s0] eqn:Hgc.
    simpl in Hr. subst r0.
    destruct r as [children|e]; [|discriminate].
    destruct (length children =? 0); [now apply IH|].
    destruct (isPageable node) eqn:Hpg.
    + assert (Hunder : forall x, child_of node x ->
                foundWithin child_of root maxDepth_ x).
      { intros x Hx. right. exists node, depth. auto. }
      destruct (List.find predicate children) as [child|] eqn:Hfind.
      { simpl. intros Heq. inversion Heq; subst.
        apply find_some in Hfind as [Hin Hpc]. split; [exact Hpc|].
        apply Hunder. eapply sound; eauto. }
      destruct (allowPaging_ && hasMore node (nodes v2)); [|now apply IH].
      pose proof (pagingLoop_found fuel node v2 n) as Hpf.
      destruct (paging fuel node v2) as [[[r'|]|e|] v3]; simpl in *.
      * intros Heq. inversion Heq; subst.
        destruct (Hpf eq_refl) as [H1 H2]. auto.
      * now apply IH.
      * discriminate.
      * discriminate.
    + rewrite <- app_assoc. simpl. rewrite <- map_app.
      apply IH; auto.
      apply Forall_app. split; [exact Hb|].
      apply Forall_forall. intros c Hc.
      apply descends_child with (p := node); auto.
      eapply sound; [exact Hgc|]. now apply list_elem_of_In.
Qed.
End Found.

(** *** A run returns *)

Abbreviation visited node v := (record (Visit node) (snd (look token_ v))).
Abbreviation expanded node v := (snd (callGetChildren node (visited node v))).
Abbreviation returnsAt depth :=
  (forall front back v, exists fuel,
     fst (bfs fuel (map Some front ++ None :: map Some back) depth v)
     <> OutOfFuel).

Section Returns.
Hypothesis paging_returns :
  allowPaging_ = true ->
  forall node v, isPageable node = true ->
    exists fuel, fst (paging fuel node v) <> OutOfFuel.

Lemma bfs_returns_step (depth : nat) :
  maxDepth_ <= depth \/ returnsAt (S depth) -> returnsAt depth.
Proof.
  intros Hnext front. induction front as [|node front IH]; intros back v.
  - cbn [map app].
    destruct back as [|b back]. { exists 1. simpl. discriminate. }
    destruct (fst (look token_ v)) eqn:Hc.
    { exists 1. rewrite bfs_marker by discriminate. rewrite Hc. discriminate. }
    destruct (maxDepth_ <? S depth) eqn:Hm.
    { exists 1. rewrite bfs_marker by discriminate. rewrite Hc, Hm.
      discriminate. }
    destruct Hnext as [Hle|Hnext]; [apply Nat.ltb_ge in Hm; lia|].
    destruct (Hnext (b :: back) [] (snd (look token_ v))) as [fuel Hfuel].
    exists (S fuel). rewrite bfs_marker by discriminate. rewrite Hc, Hm.
    exact Hfuel.
  - pose proof (marked_nonempty front back) as Hrest.
    change (map Some (node :: front) ++ None :: map Some back)
      with (Some node :: (map Some front ++ None :: map Some back)).
    destruct (fst (look token_ v)) eqn:Hc.
    { exists 1. rewrite bfs_node by exact Hrest. rewrite Hc. discriminate. }
    destruct (predicate node) eqn:Hp.
    { exists 1. rewrite bfs_node by exact Hrest. rewrite Hc. cbv zeta.
      rewrite Hp. discriminate. }
    destruct (negb (traversable canTraverse_ node)) eqn:Ht.
    { destruct (IH back (visited node v)) as [fuel Hfuel].
      exists (S fuel). rewrite bfs_node by exact Hrest. rewrite Hc. cbv zeta.
      rewrite Hp, Ht. exact Hfuel. }
    destruct (fst (callGetChildren node (visited node v)))
      as [children|e] eqn:Hg.
    2: { exists 1. rewrite bfs_node by exact Hrest. rewrite Hc. cbv zeta.
         rewrite Hp, Ht, Hg. discriminate. }
    destruct (length children =? 0) eqn:Hlen.
    { destruct (IH back (expanded node v)) as [fuel Hfuel].
      exists (S fuel). rewrite bfs_node by exact Hrest. rewrite Hc. cbv zeta.
      rewrite Hp, Ht, Hg, Hlen. exact Hfuel. }
    destruct (isPageable node) eqn:Hpg.
    + destruct (List.find predicate children) as [child|] eqn:Hfind.
      { exists 1. rewrite bfs_node by exact Hrest. rewrite Hc. cbv zeta.
        rewrite Hp, Ht, Hg, Hlen, Hpg, Hfind. discriminate. }
      destruct (allowPaging_ && hasMore node (nodes (expanded node v)))
        eqn:Hallow.
      2: { destruct (IH back (expanded node v)) as [fuel Hfuel].
           exists (S fuel). rewrite bfs_node by exact Hrest. rewrite Hc.
           cbv zeta. rewrite Hp, Ht, Hg, Hlen, Hpg, Hfind, Hallow.
           exact Hfuel. }
      assert (Ha : allowPaging_ = true)
        by (apply andb_true_iff in Hallow; tauto).
      destruct (paging_returns Ha node (expanded node v) Hpg) as [fp Hfp].
      destruct (paging fp node (expanded node v)) as [[[r'|]|e|] v3] eqn:Hrun.
      * exists (S fp). rewrite bfs_node by exact Hrest. rewrite Hc. cbv zeta.
        rewrite Hp, Ht, Hg, Hlen, Hpg, Hfind, Hallow, Hrun. discriminate.
      * destruct (IH back v3) as [fb Hfb].
        exists (S (Nat.max fp fb)).
        rewrite bfs_node by exact Hrest. rewrite Hc. cbv zeta.
        rewrite Hp, Ht, Hg, Hlen, Hpg, Hfind, Hallow.
        rewrite (pagingLoop_fuel_mono defaultPageSize predicate token_
                   fp (Nat.max fp fb) node (expanded node v));
          [|lia|rewrite Hrun; discriminate].
        rewrite Hrun.
        rewrite (bfsLoop_fuel_mono defaultPageSize predicate allowPaging_
                   canTraverse_ maxDepth_ token_ fb (Nat.max fp fb));
          [exact Hfb | lia | exact Hfb].
      * exists (S fp). rewrite bfs_node by exact Hrest. rewrite Hc. cbv zeta.
        rewrite Hp, Ht, Hg, Hlen, Hpg, Hfind, Hallow, Hrun. discriminate.
      * now contradict Hfp.
    + destruct (IH (back ++ children) (expanded node v)) as [fuel Hfuel].
      exists (S fuel). rewrite bfs_node by exact Hrest. rewrite Hc. cbv zeta.
      rewrite Hp, Ht, Hg, Hlen, Hpg.
      rewrite <- app_assoc. cbn [app]. rewrite <- map_app. exact Hfuel.
Qed.

Lemma bfs_returns (depth : nat) : returnsAt depth.
Proof.
  remember (maxDepth_ - depth) as k eqn:Hk. revert depth Hk.
  induction k as [|k IH]; intros depth Hk; apply bfs_returns_step.
  - left. lia.
  - destruct (Nat.le_gt_cases maxDepth_ depth); [now left|].
    right. apply IH. lia.
Qed.
End Returns.

(** *** The order of a search without paging nodes *)

Section Order.
Variable kids : N -> list N.
Hypothesis pure : forall n s, node_getChildren n s = (Normal (kids n), s).
Hypothesis no_paging_nodes : forall n, isPageable n = false.
Hypothesis no_token : token_ = None.

Abbreviation trav := (traversable canTraverse_).
Abbreviation rest_ := (behind kids trav maxDepth_).

Lemma levels_nil (k : nat) : levels kids trav [] k = [].
Proof. induction k as [|k IH]; simpl; [reflexivity | exact IH]. Qed.

Lemma behind_last (front back : list N) (depth : nat) :
  maxDepth_ <= depth -> rest_ front back depth = [].
Proof.
  intros Hle. unfold behind.
  replace (maxDepth_ - depth) with 0 by lia. reflexivity.
Qed.

Lemma behind_next (back : list N) (depth : nat) :
  depth < maxDepth_ ->
  rest_ [] back depth = back ++ rest_ back [] (S depth).
Proof.
  intros Hlt. unfold behind.
  replace (maxDepth_ - depth) with (S (maxDepth_ - S depth)) by lia.
  simpl. rewrite app_nil_r.
  destruct (maxDepth_ - S depth) as [|k]; simpl;
    [now rewrite app_nil_r | reflexivity].
Qed.

Lemma behind_skip (node : N) (front back : list N) (depth : nat) :
  trav node = false ->
  rest_ (node :: front) back depth = rest_ front back depth.
Proof. intros Ht. unfold behind. simpl. now rewrite Ht. Qed.

Lemma behind_push (node : N) (front back : list N) (depth : nat) :
  trav node = true ->
  rest_ (node :: front) back depth = rest_ front (back ++ kids node) depth.
Proof.
  intros Ht. unfold behind. simpl. rewrite Ht. simpl.
  now rewrite app_assoc.
Qed.

Lemma bfsLoop_level_order (fuel : nat) (front back : list N) (depth : nat)
    (v : ViewBase N St) :
  depth <= maxDepth_ ->
  fst (bfs fuel (map Some front ++ None :: map Some back) depth v) = OutOfFuel
  \/
  fst (bfs fuel (map Some front ++ None :: map Some back) depth v)
    = Done (List.find predicate (front ++ rest_ front back depth)).
Proof.
  revert front back depth v.
  induction fuel as [|fuel IH]; intros front back depth v Hd; cbn [bfsLoop];
    [now left|].
  destruct (length _ <=? 1) eqn:Hlen.
  { right. destruct front as [|node front].
    - destruct back as [|b back]; [|simpl in Hlen; discriminate].
      simpl. unfold behind.
      destruct (maxDepth_ - depth); simpl; [reflexivity|].
      now rewrite levels_nil.
    - simpl in Hlen. rewrite length_app in Hlen. simpl in Hlen.
      apply Nat.leb_le in Hlen. lia. }
  destruct (look token_ v) as [c v1] eqn:Hl.
  assert (Hc : c = false).
  { unfold look in Hl. rewrite no_token in Hl. inversion Hl. reflexivity. }
  subst c. clear Hl.
  destruct front as [|node front]; cbn [map app].
  - destruct (maxDepth_ <? S depth) eqn:Hm.
    + right. apply Nat.ltb_lt in Hm. simpl.
      rewrite behind_last by lia. reflexivity.
    + apply Nat.ltb_ge in Hm.
      rewrite behind_next by lia. cbn [app].
      apply (IH back [] (S depth) v1). lia.
  - cbn [List.find]. destruct (predicate node) eqn:Hp; [now right|].
    destruct (trav node) eqn:Ht; cbn [negb].
    2: { rewrite behind_skip by exact Ht. now apply IH. }
    rewrite behind_push by exact Ht.
    unfold callGetChildren. rewrite pure.
    destruct (length (kids node) =? 0) eqn:Hk.
    { apply Nat.eqb_eq, length_zero_iff_nil in Hk. rewrite Hk, app_nil_r.
      now apply IH. }
    rewrite no_paging_nodes.
    rewrite <- app_assoc. cbn [app]. rewrite <- map_app.
    now apply IH.
Qed.
End Order.

End Loops.

Section FindNode.
Context {N St : Type} {ops : ViewNodeOps N St}.
Variable getRoot : N.
Variable defaultPageSize : nat.



(** X10. A search reads the children only of nodes that are not a match and
    that [canTraverse] accepts, asks only such nodes for more, and only
    when they page and paging is allowed, each time by the configured page
    size; it refreshes no node. *)
Theorem findNode_respects_canTraverse (fuel : nat)
    (predicate : string + (N -> bool)) (options : option (FindOptions N))
    (v : ViewBase N St) :
  Forall
    (permitted defaultPageSize (asPredicate predicate)
       (default noOptions options))
    (newSteps v
       (snd (findNode getRoot defaultPageSize fuel predicate options v))).
Proof.
  rewrite findNode_unfold. cbv zeta.
  set (o := default noOptions options).
  destruct (ensureRoot_frame getRoot false v) as (Hs & _).
  destruct (bfsLoop_steps defaultPageSize (asPredicate predicate)
              (default false (allowPaging o)) (canTraverse o)
              (default 2 (maxDepth o)) (token o)
              (permitted defaultPageSize (asPredicate predicate) o))
    with (fuel := fuel)
         (queue := [Some (fst (ensureRoot getRoot false v)); None])
         (depth := 0) (v := snd (ensureRoot getRoot false v))
    as (evs & He & Hall).
  - intros n. exact I.
  - intros n Hp Ht. simpl. auto.
  - intros n Hp Ht Hpg Hallow. simpl.
    destruct (allowPaging o) as [[|]|]; try discriminate. auto.
  - rewrite Hs in He.
    destruct (bfsLoop _ _ _ _ _ _ _ _ _ _) as [[r|e|] v2]; simpl in *.
    all: now rewrite (newSteps_app _ _ evs).
Qed.


Section Reached.
Variable child_of : N -> N -> Prop.
Hypothesis sound :
  forall n s cs s',
    node_getChildren n s = (Normal cs, s') -> forall c, In c cs -> child_of n c.

(** X11. The node a search answers satisfies the predicate (it has the id
    searched for when the predicate is an id), and it lies where the search
    looks: at most [maxDepth] levels below the root, through ancestors that
    do not page, or one level further as a child of a Pageable node reached
    that way. *)
Theorem findNode_found_is_a_match (fuel : nat)
    (predicate : string + (N -> bool)) (options : option (FindOptions N))
    (v : ViewBase N St) (n : N) :
  fst (findNode getRoot defaultPageSize fuel predicate options v)
    = Done (Some n) ->
  asPredicate predicate n = true /\
  (forall s, predicate = inl s -> id n = s) /\
  foundWithin child_of (fst (ensureRoot getRoot false v))
    (default 2 (maxDepth (default noOptions options))) n.
Proof.
  rewrite findNode_unfold. cbv zeta.
  set (o := default noOptions options).
  set (root := fst (ensureRoot getRoot false v)).
  pose proof (bfsLoop_found defaultPageSize (asPredicate predicate)
                (default false (allowPaging o)) (canTraverse o)
                (default 2 (maxDepth o)) (token o) child_of sound root
                fuel [root] [] 0 (snd (ensureRoot getRoot false v)) n) as Hfound.
  simpl in Hfound.
  destruct (bfsLoop _ _ _ _ _ _ _ _ _ _) as [[r|e|] v2]; simpl;
    try discriminate.
  intros Heq. inversion Heq; subst r.
  destruct Hfound as [Hp Hw].
  - constructor; [constructor | constructor].
  - constructor.
  - lia.
  - reflexivity.
  - split; [exact Hp|]. split; [|exact Hw].
    intros s ->. simpl in Hp. now apply bool_decide_eq_true in Hp.
Qed.

(** C10 (as the code has it). A call that gives no [maxDepth] runs exactly
    as the call with [maxDepth = 2]. In a tree it takes no node more than
    two levels below the root from the queue, reads the children of none
    and asks none for more. The children of a Pageable node are tested
    against the predicate when their parent has its turn, without a turn of
    their own: the node answered lies at most two levels below the root, or
    is the child of a Pageable node that does, three levels below the root
    at most. *)
Theorem findNode_default_maxDepth (fuel : nat)
    (predicate : string + (N -> bool)) (options : option (FindOptions N))
    (v : ViewBase N St) :
  maxDepth (default noOptions options) = None ->
  (forall n d1 d2,
     atDepth child_of (fst (ensureRoot getRoot false v)) d1 n ->
     atDepth child_of (fst (ensureRoot getRoot false v)) d2 n -> d1 = d2) ->
  let run := findNode getRoot defaultPageSize fuel predicate options v in
  run = findNode getRoot defaultPageSize fuel predicate
          (Some (withMaxDepth 2 (default noOptions options))) v
  /\
  (forall n d,
     atDepth child_of (fst (ensureRoot getRoot false v)) d n -> 2 < d ->
     forall e, In e (newSteps v (snd run)) -> stepNode e <> n)
  /\
  (forall n,
     fst run = Done (Some n) ->
     asPredicate predicate n = true /\
     foundWithin child_of (fst (ensureRoot getRoot false v)) 2 n /\
     exists d, d <= 3 /\
               atDepth child_of (fst (ensureRoot getRoot false v)) d n).
Proof.
  intros Hnone Htree. cbv zeta. split; [|split].
  - rewrite !findNode_unfold. simpl. now rewrite Hnone.
  - intros n d Hd Hlt e Hin.
    pose proof (findNode_reached getRoot defaultPageSize child_of sound
                  fuel predicate options v) as Hall.
    rewrite Hnone in Hall. simpl in Hall.
    now apply (deeper_not_reached child_of _ 2 n d _ Htree Hd Hlt Hall e Hin).
  - intros n. rewrite findNode_unfold. cbv zeta. rewrite Hnone.
    set (o := default noOptions options).
    set (root := fst (ensureRoot getRoot false v)).
    pose proof (bfsLoop_found defaultPageSize (asPredicate predicate)
                  (default false (allowPaging o)) (canTraverse o)
                  2 (token o) child_of sound root
                  fuel [root] [] 0 (snd (ensureRoot getRoot false v)) n)
      as Hfound.
    simpl in Hfound. simpl.
    destruct (bfsLoop _ _ _ _ _ _ _ _ _ _) as [[r|e|] v2]; simpl;
      try discriminate.
    intros Heq. inversion Heq; subst r.
    destruct Hfound as [Hp Hw].
    + constructor; [constructor | constructor].
    + constructor.
    + lia.
    + reflexivity.
    + split; [exact Hp|]. split; [exact Hw|].
      destruct Hw as [(d & Hle & Hdesc)|(p & d & Hle & Hdesc & _ & Hchild)].
      * exists d. split; [lia|]. now apply descends_atDepth in Hdesc.
      * exists (S d). split; [lia|].
        apply descends_atDepth in Hdesc.
        now apply atDepth_child with (p := p).
Qed.
End Reached.

Lemma findNode_returns (predicate : string + (N -> bool))
    (options : option (FindOptions N)) (v : ViewBase N St) :
  (default false (allowPaging (default noOptions options)) = true ->
   forall node v0, isPageable node = true ->
     exists fuel,
       fst (pagingLoop defaultPageSize (asPredicate predicate)
              (token (default noOptions options)) fuel node v0)
       <> OutOfFuel) ->
  exists fuel, forall fuel', fuel <= fuel' ->
    exists r,
      fst (findNode getRoot defaultPageSize fuel' predicate options v) = Done r.
Proof.
  set (o := default noOptions options). intros Hpaging.
  destruct (bfs_returns defaultPageSize (asPredicate predicate)
              (default false (allowPaging o)) (canTraverse o)
              (default 2 (maxDepth o)) (token o) Hpaging) with
    (depth := 0) (front := [fst (ensureRoot getRoot false v)])
    (back := @nil N) (v := snd (ensureRoot getRoot false v)) as [fuel Hfuel].
  exists fuel. intros fuel' Hle. rewrite findNode_unfold. cbv zeta. fold o.
  simpl in Hfuel.
  rewrite (bfsLoop_fuel_mono defaultPageSize (asPredicate predicate)
             (default false (allowPaging o)) (canTraverse o)
             (default 2 (maxDepth o)) (token o) fuel fuel' _ _ _ Hle Hfuel).
  destruct (bfsLoop _ _ _ _ _ _ fuel _ _ _) as [[r|e|] v2]; simpl in *; eauto.
  now contradict Hfuel.
Qed.

(** X12. Without paging a search always returns, on any tree and whatever
    the nodes answer: from some number of iterations on, the call answers a
    node or [undefined]. The bound on the depth makes this hold even where
    every node has children. *)
Theorem findNode_returns_without_paging
    (predicate : string + (N -> bool)) (options : option (FindOptions N))
    (v : ViewBase N St) :
  allowPaging (default noOptions options) <> Some true ->
  exists fuel, forall fuel', fuel <= fuel' ->
    exists r,
      fst (findNode getRoot defaultPageSize fuel' predicate options v) = Done r.
Proof.
  intros Hoff. apply findNode_returns. intros Hallow.
  destruct (allowPaging (default noOptions options)) as [[|]|];
    simpl in Hallow; congruence.
Qed.

Section Order.
Variable kids : N -> list N.
Hypothesis pure : forall n s, node_getChildren n s = (Normal (kids n), s).
Hypothesis no_paging_nodes : forall n, isPageable n = false.

(** X13. The search is breadth first: over nodes that do not page and
    whose children do not change, and without a token, the call answers the
    first match in level order, the root first, then its children, then
    theirs, down to [maxDepth] levels, the children of nodes that
    [canTraverse] rejects left out; [undefined] when there is none. *)
Theorem findNode_breadth_first (predicate : string + (N -> bool))
    (o : FindOptions N) (v : ViewBase N St) :
  token o = None ->
  exists fuel, forall fuel', fuel <= fuel' ->
    fst (findNode getRoot defaultPageSize fuel' predicate (Some o) v)
    = Done (List.find (asPredicate predicate)
              (levels kids (traversable (canTraverse o))
                 [fst (ensureRoot getRoot false v)]
                 (default 2 (maxDepth o)))).
Proof.
  intros Htoken.
  destruct (bfs_returns defaultPageSize (asPredicate predicate)
              (default false (allowPaging o)) (canTraverse o)
              (default 2 (maxDepth o)) (token o)) with
    (depth := 0) (front := [fst (ensureRoot getRoot false v)])
    (back := @nil N) (v := snd (ensureRoot getRoot false v)) as [fuel Hfuel].
  { intros _ node v0 Hpg. rewrite no_paging_nodes in Hpg. discriminate. }
  exists fuel. intros fuel' Hle. rewrite findNode_unfold. cbv zeta.
  change (default noOptions (Some o)) with o.
  simpl in Hfuel.
  rewrite (bfsLoop_fuel_mono defaultPageSize (asPredicate predicate)
             (default false (allowPaging o)) (canTraverse o)
             (default 2 (maxDepth o)) (token o) fuel fuel' _ _ _ Hle Hfuel).
  destruct (bfsLoop_level_order defaultPageSize (asPredicate predicate)
              (default false (allowPaging o)) (canTraverse o)
              (default 2 (maxDepth o)) (token o) kids pure no_paging_nodes
              Htoken fuel [fst (ensureRoot getRoot false v)] []
              0 (snd (ensureRoot getRoot false v))) as [Hout|Hres];
    [lia | now contradict Hfuel |].
  simpl in Hres.
  assert (Hlevels :
    fst (ensureRoot getRoot false v)
      :: behind kids (traversable (canTraverse o)) (default 2 (maxDepth o))
           [fst (ensureRoot getRoot false v)] [] 0
    = levels kids (traversable (canTraverse o))
        [fst (ensureRoot getRoot false v)] (default 2 (maxDepth o))).
  { unfold behind. rewrite Nat.sub_0_r.
    destruct (default 2 (maxDepth o)); reflexivity. }
  rewrite <- Hlevels.
  destruct (bfsLoop _ _ _ _ _ _ fuel _ _ _) as [[r|e|] v2]; simpl in *;
    congruence.
Qed.
End Order.

(** X14. The last known limit of a node is what the node's limit was after
    its latest [showMore] through the view, and is forgotten by
    [resetNodeLastKnownLimit]; the entries are kept by id, so a node of the
    same id reads and resets the same entry, and the entries of other ids
    are left alone. *)
Theorem lastKnownLimit_round_trip (node other : N) (count : nat)
    (v : ViewBase N St) :
  let v1 := showMoreNodeChildren node count v in
  nodes v1 = showMore node count (nodes v) /\
  getNodeLastKnownLimit node v1 = Some (limit node (nodes v1)) /\
  getNodeLastKnownLimit node (resetNodeLastKnownLimit node v1) = None /\
  (id other = id node ->
   getNodeLastKnownLimit other v1 = Some (limit node (nodes v1)) /\
   getNodeLastKnownLimit node (resetNodeLastKnownLimit other v1) = None) /\
  (id other <> id node ->
   getNodeLastKnownLimit other v1 = getNodeLastKnownLimit other v /\
   getNodeLastKnownLimit node (resetNodeLastKnownLimit other v1)
     = Some (limit node (nodes v1))).
Proof.
  unfold getNodeLastKnownLimit, resetNodeLastKnownLimit, showMoreNodeChildren.
  cbn [setLastKnownLimits setNodes record _lastKnownLimits nodes].
  split; [reflexivity|]. split; [apply lookup_insert_eq|].
  split; [apply lookup_delete_eq|]. split.
  - intros Hid. rewrite Hid. split; [apply lookup_insert_eq|].
    apply lookup_delete_eq.
  - intros Hid. split; [now apply lookup_insert_ne|].
    rewrite lookup_delete_ne by exact Hid. apply lookup_insert_eq.
Qed.

End FindNode.

End SearchMoreFacts.

(** ** More on the view *)

Module ViewMoreFacts.
Import View.

Section Generic.
Context {N St : Type} {ops : ViewNodeOps N St}.

(** X19. [refresh] of the view and [refreshNode] on its root run the same
    refresh of the root and fail alike when it throws; they differ in the
    notification only: [refreshNode] skips it when the refresh of the root
    answers [true], [refresh] notifies whatever the answer is. A
    notification about the root is one about the whole tree. *)
Theorem refresh_ignores_what_refreshNode_honours (root : N) (reset : bool)
    (v : ViewBase N St) :
  _root v = Some root ->
  let whole := refresh reset v in
  let single := refreshNode root reset v in
  fst whole = fst single /\
  nodes (snd whole) = nodes (snd single) /\
  steps (snd whole) = steps (snd single) /\
  match node_refresh root with
  | None =>
      fired (snd whole) = fired v ++ [None] /\
      fired (snd single) = fired v ++ [None]
  | Some f =>
      match fst (f reset (nodes v)) with
      | Throw _ => fired (snd whole) = fired v /\ fired (snd single) = fired v
      | Normal cancel =>
          fired (snd whole) = fired v ++ [None] /\
          fired (snd single) = if cancel then fired v else fired v ++ [None]
      end
  end.
Proof.
  intros Hroot. cbv zeta. unfold refresh, refreshNode. rewrite Hroot.
  destruct (node_refresh root) as [f|].
  - destruct (f reset (nodes v)) as [[cancel|e] s]; cbn [fst snd].
    + unfold triggerNodeChange.
      cbn [setNodes record _root fire nodes steps fired]. rewrite Hroot.
      destruct (decide (Some root = Some root)); [|congruence].
      destruct cancel; auto.
    + auto.
  - unfold triggerNodeChange. rewrite Hroot.
    destruct (decide (Some root = Some root)); [|congruence]. auto.
Qed.
End Generic.

End ViewMoreFacts.

(** ** More on searches over paged nodes *)

Module PagedMoreFacts.
Import View Paged SearchMore.

Lemma findNode_found_is_a_match_witness :
  asPredicate (ops := paged_ops shelf) (isNode 5) 5 = true /\
  (forall s, isNode 5 = inl s -> id (ViewNodeOps := paged_ops shelf) 5 = s) /\
  foundWithin (ops := paged_ops shelf) (itemOf shelf)
    (fst (ensureRoot 0 false shelfView))
    (default 2 (maxDepth (default noOptions (Some pagingOptions)))) 5.
Proof.
  apply (SearchMoreFacts.findNode_found_is_a_match (ops := paged_ops shelf)
           0 1 (itemOf shelf) (PagedFacts.paged_sound shelf) 50 (isNode 5)
           (Some pagingOptions) shelfView 5).
  vm_compute. reflexivity.
Defined.

Lemma findNode_returns_without_paging_witness :
  exists fuel, forall fuel', fuel <= fuel' ->
    exists r,
      fst (findNode (ops := paged_ops chain) 0 10 fuel' noMatch None chainView)
      = Done r.
Proof.
  apply (SearchMoreFacts.findNode_returns_without_paging
           (ops := paged_ops chain) 0 10 noMatch None chainView).
  discriminate.
Defined.

Lemma findNode_breadth_first_witness :
  exists fuel, forall fuel', fuel <= fuel' ->
    fst (findNode (ops := paged_ops fork) 0 10 fuel' (inr (Nat.leb 2))
           (Some (toDepth 2)) forkView)
    = Done (Some 2).
Proof.
  apply (SearchMoreFacts.findNode_breadth_first (ops := paged_ops fork) 0 10
           (items fork) (fun n s => eq_refl) (fun n => eq_refl)
           (inr (Nat.leb 2)) (toDepth 2) forkView).
  reflexivity.
Defined.

(** X16. Over paged nodes with a positive page size a search always
    returns, with paging allowed as well: every round of the paging loop
    widens the window of the node, so the loop leaves once the window holds
    all items, and the bound on the depth does the rest. *)
Theorem findNode_returns_with_paging (T : Tree) (root pageSize : nat)
    (predicate : string + (nat -> bool)) (options : option (FindOptions nat))
    (v : ViewBase nat (gmap nat nat)) :
  0 < pageSize ->
  exists fuel, forall fuel', fuel <= fuel' ->
    exists r,
      fst (findNode (ops := paged_ops T) root pageSize fuel' predicate options v)
      = Done r.
Proof.
  intros Hk. apply SearchMoreFacts.findNode_returns.
  intros _ node v0 _.
  exists (S (length (items T node) - windowOf T node (nodes v0))).
  destruct (PagedFacts.paging_terminates T pageSize
              (asPredicate (ops := paged_ops T) predicate)
              (token (default noOptions options)) node Hk
              (S (length (items T node) - windowOf T node (nodes v0))) v0)
    as [exit Hexit]; [lia|].
  rewrite Hexit. discriminate.
Qed.

Lemma findNode_returns_with_paging_witness :
  exists fuel, forall fuel', fuel <= fuel' ->
    exists r,
      fst (findNode (ops := paged_ops shelf) 0 1 fuel' noMatch
             (Some pagingOptions) shelfView)
      = Done r.
Proof.
  apply (findNode_returns_with_paging shelf 0 1 noMatch (Some pagingOptions)
           shelfView).
  lia.
Defined.

(** *** The last known limits *)

Lemma showMore_dec (evs : list (Step nat)) (n : nat) :
  (exists c, In (ShowMoreOf n c) evs) \/ (forall c, ~ In (ShowMoreOf n c) evs).
Proof.
  induction evs as [|e evs [(c & Hc)|Hno]].
  - right. intros c [].
  - left. exists c. now right.
  - destruct e as [m|m|m c|m b].
    1, 2, 4: right; intros c [Heq|Hin]; [discriminate | now apply (Hno c)].
    destruct (decide (m = n)) as [->|Hne].
    + left. exists c. now left.
    + right. intros c' [Heq|Hin]; [congruence | now apply (Hno c')].
Qed.

Lemma limitsFollow_refl (T : Tree) (v : ViewBase nat (gmap nat nat)) :
  limitsFollow T v v.
Proof.
  exists []. rewrite app_nil_r. split; [reflexivity|].
  intros n. split; [intros (c & []) | auto].
Qed.

Lemma limitsFollow_trans (T : Tree) (a b c : ViewBase nat (gmap nat nat)) :
  limitsFollow T a b -> limitsFollow T b c -> limitsFollow T a c.
Proof.
  intros (e1 & Hs1 & H1) (e2 & Hs2 & H2).
  exists (e1 ++ e2). split; [rewrite Hs2, Hs1; now rewrite app_assoc|].
  intros n. destruct (H1 n) as [Hin1 Hout1], (H2 n) as [Hin2 Hout2]. split.
  - intros (k & Hk).
    destruct (showMore_dec e2 n) as [Hyes|Hno]; [now apply Hin2|].
    destruct (Hout2 Hno) as [Hl Hn]. rewrite Hl, Hn. apply Hin1.
    apply in_app_or in Hk as [Hk|Hk]; [eauto | now destruct (Hno k)].
  - intros Hno.
    destruct Hout1 as [Hl1 Hn1].
    { intros k Hk. apply (Hno k), in_or_app. now left. }
    destruct Hout2 as [Hl2 Hn2].
    { intros k Hk. apply (Hno k), in_or_app. now right. }
    split; congruence.
Qed.

Lemma limitsFollow_quiet (T : Tree) (v v' : ViewBase nat (gmap nat nat))
    (evs : list (Step nat)) :
  steps v' = steps v ++ evs ->
  (forall n c, ~ In (ShowMoreOf n c) evs) ->
  _lastKnownLimits v' = _lastKnownLimits v ->
  nodes v' = nodes v ->
  limitsFollow T v v'.
Proof.
  intros Hs Hno Hl Hn. exists evs. split; [exact Hs|].
  intros n. split.
  - intros (c & Hc). now destruct (Hno n c).
  - intros _. now rewrite Hl, Hn.
Qed.

Lemma bfs_limitsFollow (T : Tree) (pageSize : nat) (predicate : nat -> bool)
    (allow : bool) (canTraverse_ : option (nat -> bool)) (maxDepth_ : nat)
    (token_ : option CancellationToken) (fuel : nat)
    (queue : list (option nat)) (depth : nat)
    (v : ViewBase nat (gmap nat nat)) :
  (forall a b, nodeId T a = nodeId T b -> a = b) ->
  limitsFollow T v
    (snd (bfsLoop (ops := paged_ops T) pageSize predicate allow canTraverse_
            maxDepth_ token_ fuel queue depth v)).
Proof.
  intros Hinj. apply SearchFacts.bfsLoop_preserves.
  - apply limitsFollow_refl.
  - apply limitsFollow_trans.
  - intros v0. apply (limitsFollow_quiet T _ _ []); auto.
    simpl. now rewrite app_nil_r.
  - intros n v0. apply (limitsFollow_quiet T _ _ [Visit n]); auto.
    intros m c [Heq|[]]. discriminate.
  - intros n v0. apply (limitsFollow_quiet T _ _ [GetChildrenOf n]); auto.
    intros m c [Heq|[]]. discriminate.
  - intros n v0 _. exists [ShowMoreOf n pageSize]. split; [reflexivity|].
    intros m. simpl. split.
    + intros (c & [Heq|[]]). inversion Heq; subst m.
      rewrite !lookup_insert_eq. split; [reflexivity | eauto].
    + intros Hno.
      assert (Hne : n <> m).
      { intros ->. apply (Hno pageSize). now left. }
      split.
      * apply lookup_insert_ne. intros Heq. apply Hne. now apply Hinj.
      * now apply lookup_insert_ne.
Qed.

(** X17. Over paged nodes with distinct ids, the last known limits follow
    the paging of a search, however it ends: for every node the search
    asked for more, the entry under its id is the limit the node is left
    with; for every other node, the entry and the node's limit are what
    they were before the call. *)
Theorem findNode_limits_follow_paging (T : Tree) (root pageSize fuel : nat)
    (predicate : string + (nat -> bool)) (options : option (FindOptions nat))
    (v : ViewBase nat (gmap nat nat)) :
  (forall a b, nodeId T a = nodeId T b -> a = b) ->
  let v' := snd (findNode (ops := paged_ops T) root pageSize fuel predicate
                   options v) in
  forall n,
    ((exists c, In (ShowMoreOf n c) (newSteps v v')) ->
     getNodeLastKnownLimit (ops := paged_ops T) n v'
       = Some (limit (ViewNodeOps := paged_ops T) n (nodes v')) /\
     is_Some (limit (ViewNodeOps := paged_ops T) n (nodes v'))) /\
    ((forall c, ~ In (ShowMoreOf n c) (newSteps v v')) ->
     getNodeLastKnownLimit (ops := paged_ops T) n v'
       = getNodeLastKnownLimit (ops := paged_ops T) n v /\
     limit (ViewNodeOps := paged_ops T) n (nodes v')
       = limit (ViewNodeOps := paged_ops T) n (nodes v)).
Proof.
  intros Hinj v'. subst v'. rewrite SearchFacts.findNode_unfold. cbv zeta.
  set (o := default noOptions options).
  destruct (SearchFacts.ensureRoot_frame root false v)
    as (Hs & Hn & _ & Hk & _).
  pose proof (bfs_limitsFollow T pageSize
                (asPredicate (ops := paged_ops T) predicate)
                (default false (allowPaging o)) (canTraverse o)
                (default 2 (maxDepth o)) (token o) fuel
                [Some (fst (ensureRoot root false v)); None] 0
                (snd (ensureRoot root false v)) Hinj)
    as (evs & He & Hall).
  rewrite Hs in He. rewrite Hn, Hk in Hall.
  unfold getNodeLastKnownLimit. cbn [id limit paged_ops].
  destruct (bfsLoop _ _ _ _ _ _ _ _ _ _) as [[r|e|] v2]; simpl in *.
  all: rewrite (SearchFacts.newSteps_app _ _ evs) by exact He.
  all: exact Hall.
Qed.

Lemma findNode_limits_follow_paging_witness :
  getNodeLastKnownLimit (ops := paged_ops shelf) 0
    (snd (findNode (ops := paged_ops shelf) 0 1 50 (isNode 5)
            (Some pagingOptions) shelfView))
  = Some (Some 5) /\
  getNodeLastKnownLimit (ops := paged_ops shelf) 3
    (snd (findNode (ops := paged_ops shelf) 0 1 50 (isNode 5)
            (Some pagingOptions) shelfView))
  = None.
Proof.
  pose proof (findNode_limits_follow_paging shelf 0 1 50 (isNode 5)
                (Some pagingOptions) shelfView
                (fun a b H => inj pretty a b H)) as Hfollow.
  cbv zeta in Hfollow. split.
  - destruct (Hfollow 0) as [[Hlimit _] _].
    + exists 1. vm_compute. auto.
    + rewrite Hlimit. vm_compute. reflexivity.
  - destruct (Hfollow 3) as [_ [Hlimit _]].
    + intros c Hin. vm_compute in Hin. intuition discriminate.
    + rewrite Hlimit. vm_compute. reflexivity.
Defined.

(** *** The turn of a Pageable node, look by look *)

Section PagingOutcome.
Variable T : Tree.
Variable pageSize : nat.
Variable predicate : nat -> bool.
Variable canTraverse_ : option (nat -> bool).
Variable maxDepth_ : nat.
Variable token_ : option CancellationToken.
Variable p : nat.
Variable i : nat.
Variable x : nat.
Hypothesis Hpg : pageable T p = true.
Hypothesis Hx : items T p !! i = Some x.
Hypothesis Hp : predicate x = true.
Hypothesis Hfirst :
  forall i' y, i' < i -> items T p !! i' = Some y -> predicate y = false.

Abbreviation paging :=
  (pagingLoop (ops := paged_ops T) pageSize predicate token_).
Abbreviation bfs :=
  (bfsLoop (ops := paged_ops T) pageSize predicate true canTraverse_
     maxDepth_ token_).
Abbreviation canc l := (isCancellationRequested token_ l).
Abbreviation window u := (windowOf T p (nodes u)).
(** The state after one round: the look, [showMore], [getChildren] and the
    look of the wait. *)
Abbreviation afterRound u :=
  (snd (look token_
          (snd (callGetChildren (ops := paged_ops T) p
                  (showMoreNodeChildren (ops := paged_ops T) p pageSize
                     (snd (look token_ u))))))).

Lemma canc_at (l n : nat) :
  canc (l + n)
  = match cancelsAfter token_ l with
    | Some d => d <=? n
    | None => false
    end.
Proof.
  unfold isCancellationRequested, cancelsAfter.
  destruct token_ as [[[k|]]|]; try reflexivity.
  destruct (Nat.leb_spec k (l + n)), (Nat.leb_spec (k - l) n);
    try reflexivity; lia.
Qed.

Lemma cancelsAfter_shift (l n : nat) :
  cancelsAfter token_ (l + n)
  = option_map (fun d => d - n) (cancelsAfter token_ l).
Proof.
  unfold cancelsAfter. destruct token_ as [[[k|]]|]; try reflexivity.
  simpl. f_equal. lia.
Qed.

Lemma afterRound_facts (u : ViewBase nat (gmap nat nat)) :
  steps (afterRound u) = steps u ++ roundSteps p pageSize 1 /\
  looks (afterRound u) = looks u + 2 /\
  window (afterRound u) = window u + pageSize /\
  hasMore (ViewNodeOps := paged_ops T) p (nodes (afterRound u))
    = (window u + pageSize <? length (items T p)).
Proof.
  unfold callGetChildren, look, showMoreNodeChildren, windowOf. simpl.
  rewrite lookup_insert_eq, Hpg. simpl.
  split; [now rewrite <- app_assoc|]. split; [lia|].
  split; [reflexivity|]. unfold windowOf. now rewrite lookup_insert_eq.
Qed.

Lemma paging_step (fuel : nat) (u : ViewBase nat (gmap nat nat)) :
  paging (S fuel) p u
  = if canc (looks u) then (Done (Return None), snd (look token_ u))
    else
      match
        List.find predicate
          (if canc (S (looks u)) then []
           else take (window u + pageSize) (items T p))
      with
      | Some child => (Done (Return (Some child)), afterRound u)
      | None =>
          if negb (hasMore (ViewNodeOps := paged_ops T) p
                     (nodes (afterRound u)))
          then (Done Break, afterRound u)
          else paging fuel p (afterRound u)
      end.
Proof.
  cbn [pagingLoop].
  destruct (look token_ u) as [c u1] eqn:Hl.
  assert (Hc : c = canc (looks u) /\ looks u1 = S (looks u)
               /\ nodes u1 = nodes u)
    by (unfold look in Hl; inversion Hl; auto).
  destruct Hc as (-> & Hl1 & Hn1). cbn [snd].
  destruct (canc (looks u)); [reflexivity|].
  destruct (callGetChildren p (showMoreNodeChildren p pageSize u1))
    as [r u3] eqn:Hg.
  assert (Hr : r = Normal (take (window u + pageSize) (items T p))
               /\ looks u3 = S (looks u)).
  { unfold callGetChildren in Hg. cbn [node_getChildren paged_ops] in Hg.
    inversion Hg; subst r u3. simpl. unfold childrenOf. rewrite Hpg.
    unfold windowOf. rewrite lookup_insert_eq, Hn1. auto. }
  destruct Hr as [-> Hl3]. cbn [snd].
  destruct (look token_ u3) as [c2 u4] eqn:Hl2.
  assert (Hc2 : c2 = canc (S (looks u)))
    by (unfold look in Hl2; inversion Hl2; now rewrite Hl3).
  subst c2. cbn [snd].
  destruct (canc (S (looks u))); reflexivity.
Qed.

Lemma clean_round (fuel : nat) (u : ViewBase nat (gmap nat nat)) :
  canc (looks u) = false ->
  canc (S (looks u)) = false ->
  (i < window u + pageSize ->
   paging (S fuel) p u = (Done (Return (Some x)), afterRound u)) /\
  (window u + pageSize <= i ->
   paging (S fuel) p u = paging fuel p (afterRound u)).
Proof.
  intros H0 H1. rewrite paging_step, H0, H1.
  assert (Hlen : i < length (items T p)) by (eapply lookup_lt_Some; eauto).
  split; intros Hi.
  - now rewrite (PagedFacts.find_take_first predicate (items T p) _ i x
                   Hx Hp Hfirst Hi).
  - rewrite PagedFacts.find_take_none.
    2: { intros i' y Hi' Hy. apply (Hfirst i' y); [lia | exact Hy]. }
    destruct (afterRound_facts u) as (_ & _ & _ & ->).
    replace (window u + pageSize <? length (items T p)) with true
      by (symmetry; apply Nat.ltb_lt; lia).
    reflexivity.
Qed.

(** The match is answered by round [S j]. *)
Abbreviation foundIn fuel u j :=
  (exists u',
     paging fuel p u = (Done (Return (Some x)), u') /\
     steps u' = steps u ++ roundSteps p pageSize (S j) /\
     window u' = window u + S j * pageSize).

(** The loop is left without a match, the token seen cancelled at its look
    [d]. *)
Abbreviation stoppedIn fuel u d :=
  (exists exit u',
     paging fuel p u = (Done exit, u') /\
     (exit = Return None \/ exit = Break) /\
     steps u' = steps u ++ roundSteps p pageSize (Nat.div2 (S d)) /\
     window u' = window u + Nat.div2 (S d) * pageSize /\
     canc (looks u') = true).

Lemma look_facts (w : ViewBase nat (gmap nat nat)) :
  steps (snd (look token_ w)) = steps w /\
  nodes (snd (look token_ w)) = nodes w /\
  looks (snd (look token_ w)) = S (looks w).
Proof. unfold look. simpl. auto. Qed.

Lemma stopped_at_once (fuel : nat) (u : ViewBase nat (gmap nat nat)) :
  cancelsAfter token_ (looks u) = Some 0 -> stoppedIn (S fuel) u 0.
Proof.
  intros Hc.
  pose proof (canc_at (looks u) 0) as H0. rewrite Nat.add_0_r, Hc in H0.
  pose proof (canc_at (looks u) 1) as H1. rewrite Nat.add_1_r, Hc in H1.
  rewrite paging_step, H0. cbn [Nat.leb].
  exists (Return None), (snd (look token_ u)).
  split; [reflexivity|]. split; [now left|].
  destruct (look_facts u) as (E1 & E2 & E3). rewrite E1, E2, E3.
  cbn [Nat.div2]. unfold roundSteps. cbn [replicate concat].
  split; [now rewrite app_nil_r|]. split; [lia | exact H1].
Qed.

Lemma stopped_at_wait (fuel : nat) (u : ViewBase nat (gmap nat nat)) :
  cancelsAfter token_ (looks u) = Some 1 -> stoppedIn (S (S fuel)) u 1.
Proof.
  intros Hc.
  pose proof (canc_at (looks u) 0) as H0. rewrite Nat.add_0_r, Hc in H0.
  pose proof (canc_at (looks u) 1) as H1. rewrite Nat.add_1_r, Hc in H1.
  pose proof (canc_at (looks u) 2) as H2. rewrite Hc in H2.
  pose proof (canc_at (looks u) 3) as H3. rewrite Hc in H3.
  destruct (afterRound_facts u) as (Hs & Hl & Hw & Hm).
  rewrite <- Hl in H2.
  replace (looks u + 3) with (S (looks (afterRound u))) in H3 by lia.
  rewrite paging_step, H0, H1. cbn [Nat.leb List.find].
  destruct (negb (hasMore p (nodes (afterRound u)))).
  - exists Break, (afterRound u).
    split; [reflexivity|]. split; [now right|].
    cbn [Nat.div2]. split; [exact Hs|]. split; [rewrite Hw; lia | exact H2].
  - rewrite paging_step, H2. cbn [Nat.leb].
    exists (Return None), (snd (look token_ (afterRound u))).
    split; [reflexivity|]. split; [now left|].
    destruct (look_facts (afterRound u)) as (E1 & E2 & E3).
    rewrite E1, E2, E3. cbn [Nat.div2].
    split; [exact Hs|]. split; [rewrite Hw; lia | exact H3].
Qed.

Lemma paging_outcome (j fuel : nat) (u : ViewBase nat (gmap nat nat)) :
  window u + j * pageSize <= i ->
  i < window u + S j * pageSize ->
  S j < fuel ->
  match cancelsAfter token_ (looks u) with
  | Some d => if d <? 2 * S j then stoppedIn fuel u d else foundIn fuel u j
  | None => foundIn fuel u j
  end.
Proof.
  revert fuel u. induction j as [|j IH]; intros fuel u Hlo Hhi Hfuel.
  all: destruct fuel as [|[|fuel]]; [lia | lia |].
  all: pose proof (canc_at (looks u) 0) as H0; rewrite Nat.add_0_r in H0.
  all: pose proof (canc_at (looks u) 1) as H1; rewrite Nat.add_1_r in H1.
  all: pose proof (cancelsAfter_shift (looks u) 2) as Hshift.
  all: destruct (afterRound_facts u) as (Hs & Hl & Hw & Hm).
  all: rewrite <- Hl in Hshift.
  all: cbn [Nat.mul] in Hlo, Hhi.
  all: destruct (cancelsAfter token_ (looks u)) as [[|[|d]]|] eqn:Hc.
  - replace (0 <? 2 * 1) with true by reflexivity.
    now apply stopped_at_once.
  - replace (1 <? 2 * 1) with true by reflexivity.
    now apply stopped_at_wait.
  - replace (S (S d) <? 2 * 1) with false by reflexivity.
    destruct (clean_round (S fuel) u H0 H1) as [Hlast _].
    exists (afterRound u). rewrite Hlast by lia.
    split; [reflexivity|]. split; [exact Hs | rewrite Hw; lia].
  - destruct (clean_round (S fuel) u H0 H1) as [Hlast _].
    exists (afterRound u). rewrite Hlast by lia.
    split; [reflexivity|]. split; [exact Hs | rewrite Hw; lia].
  - replace (0 <? 2 * S (S j)) with true by reflexivity.
    now apply stopped_at_once.
  - replace (1 <? 2 * S (S j)) with true
      by (symmetry; apply Nat.ltb_lt; lia).
    now apply stopped_at_wait.
  - destruct (clean_round (S fuel) u H0 H1) as [_ Hnext].
    rewrite Hnext by lia.
    specialize (IH (S fuel) (afterRound u)). rewrite Hshift in IH.
    cbn [option_map] in IH. replace (S (S d) - 2) with d in IH by lia.
    rewrite Hw in IH.
    destruct (d <? 2 * S j) eqn:Hd.
    + replace (S (S d) <? 2 * S (S j)) with true
        by (symmetry; apply Nat.ltb_lt; apply Nat.ltb_lt in Hd; lia).
      destruct IH as (exit & u' & Hrun & Hexit & Hs' & Hw' & Hseen);
        [lia | cbn [Nat.mul]; lia | lia |].
      exists exit, u'. split; [exact Hrun|]. split; [exact Hexit|].
      change (Nat.div2 (S (S (S d)))) with (S (Nat.div2 (S d))).
      split; [|split; [|exact Hseen]].
      * rewrite Hs', Hs. unfold roundSteps. cbn [replicate concat].
        now rewrite <- !app_assoc.
      * rewrite Hw'. cbn [Nat.mul]. lia.
    + replace (S (S d) <? 2 * S (S j)) with false
        by (symmetry; apply Nat.ltb_ge; apply Nat.ltb_ge in Hd; lia).
      destruct IH as (u' & Hrun & Hs' & Hw');
        [lia | cbn [Nat.mul]; lia | lia |].
      exists u'. split; [exact Hrun|]. split.
      * rewrite Hs', Hs. unfold roundSteps. cbn [replicate concat].
        now rewrite <- !app_assoc.
      * rewrite Hw'. cbn [Nat.mul]. lia.
  - destruct (clean_round (S fuel) u H0 H1) as [_ Hnext].
    rewrite Hnext by lia.
    specialize (IH (S fuel) (afterRound u)). rewrite Hshift in IH.
    cbn [option_map] in IH. rewrite Hw in IH.
    destruct IH as (u' & Hrun & Hs' & Hw');
      [lia | cbn [Nat.mul]; lia | lia |].
    exists u'. split; [exact Hrun|]. split.
    + rewrite Hs', Hs. unfold roundSteps. cbn [replicate concat].
      now rewrite <- !app_assoc.
    + rewrite Hw'. cbn [Nat.mul]. lia.
Qed.

Lemma bfs_seen_cancelled (fuel : nat) (queue : list (option nat))
    (depth : nat) (u : ViewBase nat (gmap nat nat)) :
  canc (looks u) = true ->
  exists u',
    bfs (S fuel) queue depth u = (Done None, u') /\
    steps u' = steps u /\ nodes u' = nodes u.
Proof.
  intros Hseen. cbn [bfsLoop].
  destruct (length queue <=? 1); [exists u; auto|].
  unfold look. rewrite Hseen. eexists. split; [reflexivity|]. simpl. auto.
Qed.

(** The turn of [p], from the queue to the answer, by the look from which
    the token reports cancellation. *)
Lemma turn_outcome (j fuel : nat) (rest : list (option nat)) (depth : nat)
    (v : ViewBase nat (gmap nat nat)) :
  rest <> [] ->
  predicate p = false ->
  traversable canTraverse_ p = true ->
  0 < window v ->
  window v + j * pageSize <= i ->
  i < window v + S j * pageSize ->
  S j + 2 <= fuel ->
  let expected := pagingOutcome x (S j) (cancelsAfter token_ (looks v)) in
  fst (bfs fuel (Some p :: rest) depth v) = Done (fst expected) /\
  newSteps v (snd (bfs fuel (Some p :: rest) depth v))
    = pagingSteps p pageSize (snd expected) /\
  window (snd (bfs fuel (Some p :: rest) depth v))
    = window v + default 0 (snd expected) * pageSize.
Proof.
  intros Hrest Hnotp Htrav Hwin Hlo Hhi Hfuel. cbv zeta.
  destruct fuel as [|[|fuel]]; [lia | lia |].
  pose proof (canc_at (looks v) 0) as H0. rewrite Nat.add_0_r in H0.
  pose proof (cancelsAfter_shift (looks v) 1) as Hshift.
  assert (Hlen : i < length (items T p)) by (eapply lookup_lt_Some; eauto).
  assert (Hle : window v <= i) by lia.
  assert (Hturn : canc (looks v) = false ->
    bfs (S (S fuel)) (Some p :: rest) depth v
    = match
        paging (S fuel) p
          (snd (callGetChildren (ops := paged_ops T) p
                  (record (Visit p) (snd (look token_ v)))))
      with
      | (Done (Return r), v3) => (Done r, v3)
      | (Done Break, v3) => bfs (S fuel) rest depth v3
      | (Thrown e, v3) => (Thrown e, v3)
      | (OutOfFuel, v3) => (OutOfFuel, v3)
      end).
  { intros Hlook.
    apply (PagedFacts.visit_pageable T pageSize predicate true canTraverse_
             maxDepth_ token_ p rest depth (S fuel) v); auto; [lia|].
    apply PagedFacts.find_take_none. intros i' y Hi' Hy.
    apply (Hfirst i' y); [lia | exact Hy]. }
  set (v2 := snd (callGetChildren (ops := paged_ops T) p
                    (record (Visit p) (snd (look token_ v))))) in *.
  assert (Hv2 : steps v2 = steps v ++ [Visit p; GetChildrenOf p]
                /\ looks v2 = looks v + 1 /\ nodes v2 = nodes v).
  { unfold v2, callGetChildren, look. simpl.
    split; [now rewrite <- app_assoc|]. split; [lia | reflexivity]. }
  destruct Hv2 as (Hs2 & Hl2 & Hn2).
  pose proof (paging_outcome j (S fuel) v2) as Hout.
  rewrite Hn2, Hl2, Hshift in Hout.
  assert (Hfound : foundIn (S fuel) v2 j ->
    fst (bfs (S (S fuel)) (Some p :: rest) depth v) = Done (Some x) /\
    newSteps v (snd (bfs (S (S fuel)) (Some p :: rest) depth v))
      = pagingSteps p pageSize (Some (S j)) /\
    window (snd (bfs (S (S fuel)) (Some p :: rest) depth v))
      = window v + S j * pageSize ->
    canc (looks v) = false ->
    fst (bfs (S (S fuel)) (Some p :: rest) depth v) = Done (Some x) /\
    newSteps v (snd (bfs (S (S fuel)) (Some p :: rest) depth v))
      = pagingSteps p pageSize (Some (S j)) /\
    window (snd (bfs (S (S fuel)) (Some p :: rest) depth v))
      = window v + S j * pageSize) by auto.
  clear Hfound.
  assert (Hfind : canc (looks v) = false -> foundIn (S fuel) v2 j ->
    fst (bfs (S (S fuel)) (Some p :: rest) depth v) = Done (Some x) /\
    newSteps v (snd (bfs (S (S fuel)) (Some p :: rest) depth v))
      = pagingSteps p pageSize (Some (S j)) /\
    window (snd (bfs (S (S fuel)) (Some p :: rest) depth v))
      = window v + S j * pageSize).
  { intros Hlook (u' & Hrun & Hs' & Hw'). rewrite (Hturn Hlook), Hrun.
    cbn [fst snd]. split; [reflexivity|]. split.
    - apply SearchFacts.newSteps_app. rewrite Hs', Hs2.
      cbn [pagingSteps]. now rewrite <- app_assoc.
    - rewrite Hw', Hn2. reflexivity. }
  destruct (cancelsAfter token_ (looks v)) as [[|c]|] eqn:Hc.
  - (* cancelled before the node is taken *)
    cbn [Nat.leb] in H0. cbn [pagingOutcome fst snd pagingSteps default].
    rewrite (SearchMoreFacts.bfs_node pageSize predicate true canTraverse_
               maxDepth_ token_ (S fuel) p rest depth v Hrest).
    change (fst (look token_ v)) with (canc (looks v)). rewrite H0.
    destruct (look_facts v) as (E1 & E2 & _). cbn [fst snd].
    split; [reflexivity|]. split.
    + apply SearchFacts.newSteps_app. now rewrite E1, app_nil_r.
    + rewrite E2. lia.
  - (* cancelled during the turn, or after it *)
    cbn [Nat.leb] in H0. cbn [option_map] in Hout.
    replace (S c - 1) with c in Hout by lia.
    unfold pagingOutcome.
    destruct (c <? 2 * S j) eqn:Hd.
    + replace (S c <=? 2 * S j) with true
        by (symmetry; apply Nat.leb_le; apply Nat.ltb_lt in Hd; lia).
      cbn [fst snd pagingSteps default].
      destruct Hout as (exit & u' & Hrun & Hexit & Hs' & Hw' & Hseen);
        [exact Hlo | exact Hhi | lia |].
      rewrite (Hturn H0), Hrun.
      destruct Hexit as [-> | ->].
      * cbn [fst snd]. split; [reflexivity|]. split.
        -- apply SearchFacts.newSteps_app. rewrite Hs', Hs2.
           now rewrite <- app_assoc.
        -- exact Hw'.
      * destruct (bfs_seen_cancelled fuel rest depth u' Hseen)
          as (u'' & Hrun' & Hs'' & Hn'').
        rewrite Hrun'. cbn [fst snd]. split; [reflexivity|]. split.
        -- apply SearchFacts.newSteps_app. rewrite Hs'', Hs', Hs2.
           now rewrite <- app_assoc.
        -- rewrite Hn''. exact Hw'.
    + replace (S c <=? 2 * S j) with false
        by (symmetry; apply Nat.leb_gt; apply Nat.ltb_ge in Hd; lia).
      cbn [fst snd default]. apply (Hfind H0).
      apply Hout; [exact Hlo | exact Hhi | lia].
  - (* never cancelled *)
    cbn [pagingOutcome fst snd default]. apply (Hfind H0).
    cbn [option_map] in Hout. apply Hout; [exact Hlo | exact Hhi | lia].
Qed.

End PagingOutcome.

(** C3 (as the code has it). A search with paging allowed and a positive
    page size takes from its queue a Pageable node [p] that is no match
    and may be traversed, whose window is not empty and whose first match
    [x] lies beyond it, at index [i]: the match comes into the window with
    round [(i - w) / pageSize + 1] of the paging loop. With enough
    iterations the search returns, and what it does is fixed by the look
    of the turn from which the token reports cancellation (look 0 before
    [p] is taken, then two per round: before [showMore] and while waiting
    for the children):
    - never, or only after the round that shows [x]: the search answers
      [x], having taken [p], read its children and run exactly that many
      rounds of [showMore] and [getChildren] on [p]; nothing follows;
    - from look 0: the search answers [undefined] without taking [p];
    - from a later look [c] of these rounds: the search answers
      [undefined] after [c / 2] rounds, the children read while the token
      fired being dropped.
    In all cases the window of [p] has grown by one page per round run.
    This holds wherever [p] stands in the queue, and so for the search
    that starts at [p]. In no search does a node that only [p] holds get a
    step of its own. *)
Theorem paging_search (T : Tree) (pageSize : nat)
    (predicate : string + (nat -> bool)) (o : FindOptions nat)
    (p i x : nat) (v : ViewBase nat (gmap nat nat)) :
  let pred := asPredicate (ops := paged_ops T) predicate in
  let w := windowOf T p (nodes v) in
  let rounds := S ((i - w) / pageSize) in
  let expected := pagingOutcome x rounds (cancelsAfter (token o) (looks v)) in
  pageable T p = true ->
  allowPaging o = Some true ->
  0 < pageSize ->
  0 < w ->
  w <= i ->
  pred p = false ->
  traversable (canTraverse o) p = true ->
  items T p !! i = Some x ->
  pred x = true ->
  (forall i' y, i' < i -> items T p !! i' = Some y -> pred y = false) ->
  forall fuel, rounds + 2 <= fuel ->
  (forall rest depth, rest <> [] ->
     let run := bfsLoop (ops := paged_ops T) pageSize pred true
                  (canTraverse o) (default 2 (maxDepth o)) (token o) fuel
                  (Some p :: rest) depth v in
     fst run = Done (fst expected) /\
     newSteps v (snd run) = pagingSteps p pageSize (snd expected) /\
     windowOf T p (nodes (snd run))
       = w + default 0 (snd expected) * pageSize)
  /\
  (_root v = Some p ->
   let run := findNode (ops := paged_ops T) p pageSize fuel predicate
                (Some o) v in
   fst run = Done (fst expected) /\
   newSteps v (snd run) = pagingSteps p pageSize (snd expected) /\
   windowOf T p (nodes (snd run)) = w + default 0 (snd expected) * pageSize)
  /\
  (forall root fuel' (search : string + (nat -> bool)) options v0 c,
     (forall p', itemOf T p' c -> p' = p) ->
     c <> fst (ensureRoot root false v0) ->
     forall e,
       In e (newSteps v0
               (snd (findNode (ops := paged_ops T) root pageSize fuel' search
                       options v0))) ->
       stepNode e <> c).
Proof.
  intros pred w rounds expected Hpg Hallow Hk Hwin Hbeyond Hnotp Htrav Hx Hp
    Hfirst fuel Hfuel.
  pose proof (Nat.div_mod_eq (i - w) pageSize) as Hdiv.
  pose proof (Nat.mod_upper_bound (i - w) pageSize) as Hmod.
  assert (Hturn : forall rest depth, rest <> [] ->
    let run := bfsLoop (ops := paged_ops T) pageSize pred true
                 (canTraverse o) (default 2 (maxDepth o)) (token o) fuel
                 (Some p :: rest) depth v in
    fst run = Done (fst expected) /\
    newSteps v (snd run) = pagingSteps p pageSize (snd expected) /\
    windowOf T p (nodes (snd run))
      = w + default 0 (snd expected) * pageSize).
  { intros rest depth Hrest.
    apply (turn_outcome T pageSize pred (canTraverse o)
             (default 2 (maxDepth o)) (token o) p i x Hpg Hx Hp Hfirst
             ((i - w) / pageSize) fuel rest depth v); auto.
    - fold w. lia.
    - fold w. cbn [Nat.mul]. lia. }
  split; [exact Hturn|]. split.
  - intros Hroot. cbv zeta. rewrite SearchFacts.findNode_unfold. cbv zeta.
    change (default noOptions (Some o)) with o.
    assert (Hensure : ensureRoot p false v = (p, v))
      by (unfold ensureRoot; now rewrite Hroot).
    rewrite Hensure, Hallow. cbn [fst snd default].
    specialize (Hturn [None] 0). cbv zeta in Hturn.
    fold pred.
    destruct (bfsLoop _ _ _ _ _ _ _ _ _ _) as [[r|e|] v2];
      cbn [fst snd] in *.
    + apply Hturn. discriminate.
    + destruct Hturn as [Hbad _]; [discriminate | discriminate].
    + destruct Hturn as [Hbad _]; [discriminate | discriminate].
  - intros root fuel' search options v0 c Honly Hroot.
    apply (SearchFacts.pageable_children_skipped (ops := paged_ops T)
             root pageSize (itemOf T) (PagedFacts.paged_sound T) fuel' search
             options v0 p c Hpg Honly Hroot).
Qed.

Lemma paging_search_witness :
  (* the token never fires: node 5 is answered after three rounds *)
  (fst (findNode (ops := paged_ops shelf) 0 1 50 (isNode 5)
          (Some pagingOptions) shelfView) = Done (Some 5) /\
   newSteps shelfView
     (snd (findNode (ops := paged_ops shelf) 0 1 50 (isNode 5)
             (Some pagingOptions) shelfView))
     = [Visit 0; GetChildrenOf 0] ++ roundSteps 0 1 3 /\
   windowOf shelf 0
     (nodes (snd (findNode (ops := paged_ops shelf) 0 1 50 (isNode 5)
                    (Some pagingOptions) shelfView))) = 2 + 3 * 1)
  /\
  (* the token fires from look 4, the wait of the second round *)
  (fst (findNode (ops := paged_ops shelf) 0 1 50 (isNode 5)
          (Some (pagingUntil 4)) shelfView) = Done None /\
   newSteps shelfView
     (snd (findNode (ops := paged_ops shelf) 0 1 50 (isNode 5)
             (Some (pagingUntil 4)) shelfView))
     = [Visit 0; GetChildrenOf 0] ++ roundSteps 0 1 2 /\
   windowOf shelf 0
     (nodes (snd (findNode (ops := paged_ops shelf) 0 1 50 (isNode 5)
                    (Some (pagingUntil 4)) shelfView))) = 2 + 2 * 1).
Proof.
  split.
  - destruct (paging_search shelf 1 (isNode 5) pagingOptions 0 4 5 shelfView)
      with (fuel := 50) as (_ & Hfind & _).
    + reflexivity.
    + reflexivity.
    + lia.
    + vm_compute. lia.
    + vm_compute. lia.
    + reflexivity.
    + reflexivity.
    + reflexivity.
    + reflexivity.
    + exact PagedFacts.shelf_first_match.
    + vm_compute. lia.
    + exact (Hfind eq_refl).
  - destruct (paging_search shelf 1 (isNode 5) (pagingUntil 4) 0 4 5 shelfView)
      with (fuel := 50) as (_ & Hfind & _).
    + reflexivity.
    + reflexivity.
    + lia.
    + vm_compute. lia.
    + vm_compute. lia.
    + reflexivity.
    + reflexivity.
    + reflexivity.
    + reflexivity.
    + exact PagedFacts.shelf_first_match.
    + vm_compute. lia.
    + exact (Hfind eq_refl).
Defined.

(** C3 as stated fails for a Pageable node that shows nothing yet: its
    first match lies beyond the (empty) window and [hasMore] is true, but
    the search leaves the node at the test for empty children: with
    paging allowed and no token it calls [showMore] not once and answers
    [undefined], the node still having more to show. *)
Lemma paging_search_counterexample :
  pageable drawer 0 = true /\
  items drawer 0 !! 0 = Some 1 /\
  windowOf drawer 0 (nodes drawerView) = 0 /\
  hasMore (ViewNodeOps := paged_ops drawer) 0 (nodes drawerView) = true /\
  findNode (ops := paged_ops drawer) 0 1 50 (isNode 1) (Some pagingOptions)
    drawerView
  = (Done None,
     {| _root := Some 0; _lastKnownLimits := ∅; nodes := ∅; fired := [];
        logged := []; steps := [Visit 0; GetChildrenOf 0]; looks := 1 |}) /\
  ~ (forall (T : Tree) (pageSize : nat) (predicate : string + (nat -> bool))
            (o : FindOptions nat) (p i x : nat)
            (v : ViewBase nat (gmap nat nat)),
       _root v = Some p ->
       pageable T p = true ->
       allowPaging o = Some true ->
       asPredicate (ops := paged_ops T) predicate p = false ->
       traversable (canTraverse o) p = true ->
       items T p !! i = Some x ->
       asPredicate (ops := paged_ops T) predicate x = true ->
       windowOf T p (nodes v) <= i ->
       hasMore (ViewNodeOps := paged_ops T) p (nodes v) = true ->
       exists fuel,
         let run := findNode (ops := paged_ops T) p pageSize fuel predicate
                      (Some o) v in
         (fst run = Done (Some x) /\
          exists count, In (ShowMoreOf p count) (newSteps v (snd run)))
         \/
         (exists r, fst run = Done r /\
            hasMore (ViewNodeOps := paged_ops T) p (nodes (snd run)) = false)
         \/
         (exists r, fst run = Done r /\
            isCancellationRequested (token o) (looks (snd run) - 1) = true)).
Proof.
  split; [reflexivity|]. split; [reflexivity|]. split; [reflexivity|].
  split; [reflexivity|]. split; [vm_compute; reflexivity|].
  intros Hclaim.
  destruct (Hclaim drawer 1 (isNode 1) pagingOptions 0 0 1 drawerView)
    as [fuel Hrun]; try reflexivity.
  cbv zeta in Hrun.
  destruct fuel as [|[|fuel]]; vm_compute in Hrun.
  all: destruct Hrun as [[Hbad _]|[(r & _ & Hbad)|(r & _ & Hbad)]];
    discriminate.
Qed.

Lemma findNode_default_maxDepth_witness :
  findNode (ops := paged_ops chain) 0 10 50 noMatch None chainView
  = findNode (ops := paged_ops chain) 0 10 50 noMatch
      (Some (withMaxDepth 2 noOptions)) chainView
  /\
  (forall n d,
     atDepth (itemOf chain) 0 d n -> 2 < d ->
     forall e,
       In e (newSteps chainView
               (snd (findNode (ops := paged_ops chain) 0 10 50 noMatch None
                       chainView))) ->
       stepNode e <> n)
  /\
  (forall n,
     fst (findNode (ops := paged_ops chain) 0 10 50 noMatch None chainView)
       = Done (Some n) ->
     asPredicate (ops := paged_ops chain) noMatch n = true /\
     foundWithin (ops := paged_ops chain) (itemOf chain) 0 2 n /\
     exists d, d <= 3 /\ atDepth (itemOf chain) 0 d n).
Proof.
  apply (SearchMoreFacts.findNode_default_maxDepth (ops := paged_ops chain)
           0 10 (itemOf chain) (PagedFacts.paged_sound chain) 50 noMatch None
           chainView eq_refl PagedFacts.chain_is_tree).
Defined.

(** C10 as stated fails: a search that gives no [maxDepth] tests the
    children of a Pageable node two levels below the root and answers one
    of them, a node three levels below the root. *)
Lemma findNode_default_maxDepth_counterexample :
  fst (findNode (ops := paged_ops deep) 0 10 50 (isNode 3) None deepView)
    = Done (Some 3) /\
  atDepth (itemOf deep) 0 3 3 /\
  ~ (forall (T : Tree) (root pageSize fuel : nat)
            (predicate : string + (nat -> bool))
            (v : ViewBase nat (gmap nat nat)) (n d : nat),
       fst (findNode (ops := paged_ops T) root pageSize fuel predicate None v)
         = Done (Some n) ->
       atDepth (itemOf T) (fst (ensureRoot root false v)) d n ->
       d <= 2).
Proof.
  assert (Hdepth : atDepth (itemOf deep) 0 3 3).
  { apply atDepth_child with (p := 2); [|now left].
    apply atDepth_child with (p := 1); [|now left].
    apply atDepth_child with (p := 0); [|now left].
    constructor. }
  split; [vm_compute; reflexivity|]. split; [exact Hdepth|].
  intros Hclaim.
  specialize (Hclaim deep 0 10 50 (isNode 3) deepView 3 3).
  assert (Hle : 3 <= 2); [|lia].
  apply Hclaim; [vm_compute; reflexivity | exact Hdepth].
Qed.


End PagedMoreFacts.

(** ** More on the repositories view *)

Module RepositoriesViewMoreFacts.
Import Repositories RepositoriesMore RepositoriesView.

(** X18. Refreshing the container through the view: [refreshNode] hands the
    work to [refresh] of the container, which never asks to skip the
    notification. When the refresh returns, one change notification
    follows, for the whole tree when the container is the root; when it
    throws, the failure reaches the caller and nothing is notified. The
    [reset] flag handed down is no configuration change, so this path never
    drops the subscription. *)
Theorem refreshNode_container_always_notifies (reset : bool)
    (v : View.ViewBase Node Store) :
  let run := View.refreshNode RepositoriesNode reset v in
  let done := refresh None (git (View.nodes v)) (container (View.nodes v)) in
  View.nodes (snd run) = {| container := snd done; git := git (View.nodes v) |} /\
  View.steps (snd run)
    = View.steps v ++ [View.RefreshOf RepositoriesNode reset] /\
  match fst done with
  | Normal _ =>
      fst run = Normal tt /\
      View.fired (snd run)
        = View.fired v
          ++ [if decide (Some RepositoriesNode = View._root v)
              then None else Some RepositoriesNode]
  | Throw e => fst run = Throw e /\ View.fired (snd run) = View.fired v
  end /\
  ~ In Unsubscribe
      (drop (length (effects (container (View.nodes v)))) (effects (snd done))).
Proof.
  cbv zeta. unfold View.refreshNode. cbn [View.node_refresh repositories_ops].
  unfold containerRefresh.
  destruct (RepositoriesMoreFacts.refresh_effects_shape None
              (git (View.nodes v)) (container (View.nodes v)))
    as (evs & Hall & Hshape).
  destruct (refresh None (git (View.nodes v)) (container (View.nodes v)))
    as [r st] eqn:Hrun.
  cbn [fst snd] in *.
  split; [|split; [|split]].
  - destruct r; [|reflexivity]. unfold View.triggerNodeChange.
    cbn [View.setNodes View.record View._root].
    destruct (decide (Some RepositoriesNode = View._root v)); reflexivity.
  - destruct r; [|reflexivity]. unfold View.triggerNodeChange.
    cbn [View.setNodes View.record View._root].
    destruct (decide (Some RepositoriesNode = View._root v)); reflexivity.
  - destruct r; [|split; reflexivity]. unfold View.triggerNodeChange.
    cbn [View.setNodes View.record View._root].
    destruct (decide (Some RepositoriesNode = View._root v));
      split; reflexivity.
  - assert (Hnot : forall l, Forall notSubscription l -> ~ In Unsubscribe l).
    { intros l Hl Hin. rewrite Forall_forall in Hl.
      apply list_elem_of_In in Hin. destruct (Hl _ Hin) as [Hne _].
      congruence. }
    destruct Hshape as [[_ He]|[_ He]]; rewrite He, drop_app_length.
    + simpl. intros Hin. apply in_app_or in Hin as [Hin|[Hin|[]]].
      * now apply (Hnot evs).
      * discriminate.
    + now apply Hnot.
Qed.

Lemma refresh_ignores_what_refreshNode_honours_witness :
  fst (View.refresh false placeholderView)
    = fst (View.refreshNode RepositoriesNode false placeholderView) /\
  View.nodes (snd (View.refresh false placeholderView))
    = View.nodes (snd (View.refreshNode RepositoriesNode false placeholderView)) /\
  View.steps (snd (View.refresh false placeholderView))
    = View.steps (snd (View.refreshNode RepositoriesNode false placeholderView)) /\
  View.fired (snd (View.refresh false placeholderView)) = [None] /\
  View.fired (snd (View.refreshNode RepositoriesNode false placeholderView))
    = [None].
Proof.
  destruct (ViewMoreFacts.refresh_ignores_what_refreshNode_honours
              RepositoriesNode false placeholderView eq_refl)
    as (H1 & H2 & H3 & H4).
  split; [exact H1|]. split; [exact H2|]. split; [exact H3|]. exact H4.
Defined.

(** X20. A search over the repositories view whose data source fails while
    the unloaded container is read: the search answers [undefined], logs
    that failure, notifies nothing and leaves the container unloaded, with
    the one fetch made; the tree-level [getChildren] on the same view hands
    the failure to its caller instead. *)
Theorem findNode_logs_data_source_failure (pageSize fuel : nat)
    (predicate : string + (Node -> bool)) (o : View.FindOptions Node)
    (v : View.ViewBase Node Store) (e : string) :
  View._root v = Some RepositoriesNode ->
  _children (container (View.nodes v)) = None ->
  git (View.nodes v) = Throw e ->
  View.asPredicate predicate RepositoriesNode = false ->
  View.traversable (View.canTraverse o) RepositoriesNode = true ->
  View.isCancellationRequested (View.token o) (View.looks v) = false ->
  let run := View.findNode RepositoriesNode pageSize (S fuel) predicate
               (Some o) v in
  fst run = Done None /\
  View.logged (snd run) = View.logged v ++ [e] /\
  View.fired (snd run) = View.fired v /\
  container (View.nodes (snd run))
    = emit FetchRepositories (container (View.nodes v)) /\
  fst (View.getChildren RepositoriesNode None v) = Throw e.
Proof.
  intros Hroot Hc Hgit Hp Ht Hlook. cbv zeta.
  rewrite SearchFacts.findNode_unfold. cbv zeta.
  change (default View.noOptions (Some o)) with o.
  unfold View.getChildren, View.ensureRoot. rewrite Hroot. cbn [fst snd].
  cbn [View.bfsLoop].
  change (length [Some RepositoriesNode; None] <=? 1) with false. cbv iota.
  unfold View.look. rewrite Hlook. cbv iota beta.
  rewrite Hp, Ht. cbn [negb].
  unfold View.callGetChildren.
  cbn [View.node_getChildren repositories_ops View.record View.nodes].
  unfold getChildren. rewrite Hc, Hgit. cbn [liftChildren fst snd].
  repeat split.
Qed.

Lemma findNode_logs_data_source_failure_witness :
  fst (View.findNode RepositoriesNode 10 5 (inl "/r1")
         (Some View.noOptions) failingView) = Done None /\
  View.logged (snd (View.findNode RepositoriesNode 10 5 (inl "/r1")
                      (Some View.noOptions) failingView))
    = View.logged failingView ++ ["git failed"] /\
  View.fired (snd (View.findNode RepositoriesNode 10 5 (inl "/r1")
                     (Some View.noOptions) failingView))
    = View.fired failingView /\
  container (View.nodes (snd (View.findNode RepositoriesNode 10 5 (inl "/r1")
                                (Some View.noOptions) failingView)))
    = emit FetchRepositories (container (View.nodes failingView)) /\
  fst (View.getChildren RepositoriesNode None failingView)
    = Throw "git failed".
Proof.
  apply (findNode_logs_data_source_failure 10 4 (inl "/r1") View.noOptions
           failingView "git failed"); reflexivity.
Defined.



End RepositoriesViewMoreFacts.
